(** * Whole-slide image viewers: viewport, level selection and visit tracking

    A shallow embedding of the two viewers of the repository,
    [Image Navigation/GridOmeroOpen.py] (class [WholeSlideImageViewer]) and
    [Image Navigation/MapOmero.py] (class [WSITrackingViewer]).

    Modelling conventions.
    - Python [int] values are [Z]; Python [float] values are exact rationals
      [Q] (binary64 rounding is not modelled, so [0.05] is the rational 1/20).
    - An exception is a value of [exn]; a method is a state transformer that
      returns the possibly mutated object together with the outcome, so that
      assignments made before an exception is raised stay visible.
    - Tk widgets are reduced to what the methods read from them (the canvas
      size, the two spin boxes) and to the message boxes they open, which
      are recorded as events.  The drawing of [draw_grid], of the overlay of
      [update_map] and of [update_viewport_rect] assigns nothing that the
      methods read; it is described after the two classes by functions of
      the viewer ([draw_grid], [tracking_overlay], [viewport_rect]).  Label
      texts other than the sector label are left out. *)

From Stdlib Require Import ZArith QArith Qminmax Qround Qabs Lqa Lia List.
From stdpp Require Import base gmap list strings.

#[local] Open Scope Z_scope.

(** ** Exceptions and outcomes *)

Inductive exn :=
| AttributeError
| IndexError
| KeyError
| ValueError
| ZeroDivisionError
| OpenSlideError
| OSError.

Inductive outcome (A : Type) :=
| Ok (a : A)
| Raise (e : exn).
Arguments Ok {A} a.
Arguments Raise {A} e.

#[global] Instance outcome_ret : MRet outcome := fun A a => Ok a.
#[global] Instance outcome_bind : MBind outcome := fun A B f m =>
  match m with
  | Ok a => f a
  | Raise e => Raise e
  end.

(** ** Python numbers *)

(** [int(q)]: truncation toward zero. *)
Definition py_int (q : Q) : Z := Z.quot (Qnum q) (Z.pos (Qden q)).

(** [a / b] on numbers. *)
Definition py_truediv (a b : Q) : outcome Q :=
  if Qeq_bool b 0 then Raise ZeroDivisionError else Ok (a / b)%Q.

(** [a // b] on integers: floor division. *)
Definition py_floordiv (a b : Z) : outcome Z :=
  if b =? 0 then Raise ZeroDivisionError else Ok (a `div` b).

(** [a // b] when one operand is a float: the floor, as a float. *)
Definition py_floordiv_float (a b : Q) : outcome Q :=
  if Qeq_bool b 0 then Raise ZeroDivisionError
  else Ok (inject_Z (Qfloor (a / b)))%Q.

(** [a < b] on numbers. *)
Definition Qltb (a b : Q) : bool := negb (Qle_bool b a).

(** [l[i]]: a negative index counts from the end. *)
Definition py_getitem {A} (l : list A) (i : Z) : outcome A :=
  let j := if i <? 0 then Z.of_nat (length l) + i else i in
  if j <? 0 then Raise IndexError
  else match l !! Z.to_nat j with
       | Some a => Ok a
       | None => Raise IndexError
       end.

(** [min(l, key=key)]: the first element whose key is minimal. *)
Fixpoint py_min_key_loop {A} (key : A -> Z) (rest : list A) (best : A) : A :=
  match rest with
  | [] => best
  | x :: rest' =>
      if key x <? key best then py_min_key_loop key rest' x
      else py_min_key_loop key rest' best
  end.

Definition py_min_key {A} (key : A -> Z) (l : list A) : outcome A :=
  match l with
  | [] => Raise ValueError
  | x :: rest => Ok (py_min_key_loop key rest x)
  end.

(** Rounding to the nearest integer, halves to the even neighbour (Python's
    [round]); this is the rounding the specification words refer to, the
    viewers themselves only use [int]. *)
Definition spec_round (q : Q) : Z :=
  let f := Qfloor q in
  let r := (q - inject_Z f)%Q in
  if Qltb r 0.5 then f
  else if Qltb 0.5 r then f + 1
  else if Z.even f then f else f + 1.

(** ** The external image libraries *)

Module openslide.
(** What the viewers consume of an [openslide.OpenSlide] object. *)
Record OpenSlide := {
  dimensions : Z * Z;
  level_count : Z;
  level_dimensions : list (Z * Z);
  level_downsamples : list Q
}.
End openslide.

Module PIL.
(** A PIL image, reduced to its size. *)
Record Image := { width : Z; height : Z }.
End PIL.

(** Where the pixels of a displayed region come from: a
    [slide.read_region(origin, level, size)] call or an [image.crop(box)]. *)
Inductive pixels :=
| SlideRegion (origin : Z * Z) (level : Z) (size : Z * Z)
| ImageCrop (box : Z * Z * Z * Z).

(** The image returned by the viewers' [read_region]: its pixels after
    [resize(size)]. *)
Record region := { region_pixels : pixels; region_size : Z * Z }.

(** ** Image variables (the same attributes in both classes) *)

Record image_vars := {
  slide : option openslide.OpenSlide;
  image : option PIL.Image;
  use_openslide : bool;
  slide_dimensions : Z * Z;
  level_count : Z;
  level_dimensions : list (Z * Z);
  level_downsamples : list Q
}.

(** [__init__]: no image. *)
Definition no_image : image_vars :=
  {| slide := None; image := None; use_openslide := false;
     slide_dimensions := (0, 0); level_count := 0;
     level_dimensions := []; level_downsamples := [] |}.

(** Attribute access on an object that may be [None]. *)
Definition not_None {A} (o : option A) : outcome A :=
  match o with
  | Some a => Ok a
  | None => Raise AttributeError
  end.

(** ** [get_best_level] (identical in both classes) *)

(** The [for level, downsample in enumerate(self.level_downsamples)] loop. *)
Fixpoint best_level_loop (target : Q) (rest : list Q) (level : Z)
    (min_diff : Q) (best_level : Z) : Z :=
  match rest with
  | [] => best_level
  | downsample :: rest' =>
      let diff := Qabs (downsample - target) in
      if Qltb diff min_diff
      then best_level_loop target rest' (level + 1) diff level
      else best_level_loop target rest' (level + 1) min_diff best_level
  end.

Definition get_best_level (iv : image_vars) (zoom : Q) : outcome Z :=
  if negb (use_openslide iv) then Ok 0
  else
    target_downsample ← py_truediv 1 zoom;
    d0 ← py_getitem (level_downsamples iv) 0;
    let min_diff := Qabs (d0 - target_downsample) in
    Ok (best_level_loop target_downsample (level_downsamples iv) 0 min_diff 0).

(** ** [read_region] (identical in both classes) *)

Definition read_region (iv : image_vars) (x y width height zoom : Q)
    : outcome region :=
  if use_openslide iv then
    level ← get_best_level iv zoom;
    downsample ← py_getitem (level_downsamples iv) level;
    lw ← py_truediv width downsample;
    lh ← py_truediv height downsample;
    let level_width := py_int lw in
    let level_height := py_int lh in
    _ ← not_None (slide iv);
    let target_width := py_int (width * zoom) in
    let target_height := py_int (height * zoom) in
    Ok {| region_pixels :=
            SlideRegion (py_int x, py_int y) level (level_width, level_height);
          region_size := (target_width, target_height) |}
  else
    img ← not_None (image iv);
    let x2 := Qmin (x + width) (inject_Z (PIL.width img)) in
    let y2 := Qmin (y + height) (inject_Z (PIL.height img)) in
    let target_w := py_int ((x2 - x) * zoom) in
    let target_h := py_int ((y2 - y) * zoom) in
    Ok {| region_pixels := ImageCrop (py_int x, py_int y, py_int x2, py_int y2);
          region_size := (target_w, target_h) |}.

(** ** Strings: [str.lower] and [str.endswith] on ASCII text *)

Definition lower_ascii (c : Ascii.ascii) : Ascii.ascii :=
  let n := Ascii.nat_of_ascii c in
  if ((65 <=? n) && (n <=? 90))%nat then Ascii.ascii_of_nat (n + 32) else c.

Fixpoint lower (s : string) : string :=
  match s with
  | EmptyString => EmptyString
  | String c s' => String (lower_ascii c) (lower s')
  end.

Definition endswith (s suffix : string) : bool :=
  String.prefix (String.rev suffix) (String.rev s).

(** [s.endswith((a, b, ...))] *)
Definition endswith_any (s : string) (suffixes : list string) : bool :=
  existsb (endswith s) suffixes.

(** ** What the viewers see of their surroundings *)

(** The file-opening functions and the PIL size computation. [OpenSlide] is
    [openslide.OpenSlide(path)], [Image_open] is [Image.open(path)],
    [tifffile_imread] is [Image.fromarray(tifffile.imread(path))],
    [int_str] is the builtin [int] on the text of a spin box, and
    [thumbnail size bound] is the size PIL's [Image.thumbnail(bound)] gives
    an image of size [size]. *)
Record environment := {
  OPENSLIDE_AVAILABLE : bool;
  OpenSlide : string -> outcome openslide.OpenSlide;
  Image_open : string -> outcome PIL.Image;
  tifffile_imread : string -> outcome PIL.Image;
  int_str : string -> outcome Z;
  thumbnail : Z * Z -> Z * Z -> Z * Z
}.

(** The main canvas, as the handlers query it. *)
Record canvas := { winfo_width : Z; winfo_height : Z }.

(** The texts of the message boxes; the numbers formatted into them are kept
    as arguments. *)
Inductive message :=
| LoadAnImageFirst
| OutOfBounds (max_cols max_rows : Z)
| InvalidValues
| CouldNotLoad (e : exn)
| Loaded (dims : Z * Z) (with_openslide : bool)
| TrackingCleared.

Inductive event :=
| showinfo (m : message)
| showwarning (m : message)
| showerror (m : message)
| slide_close (s : openslide.OpenSlide)
| read_region_call (dims : Z * Z) (x y width height zoom : Q)
| canvas_create_image (r : region).

(** ** Methods as state transformers *)

Record result (S A : Type) := Result {
  outcome_of : outcome A;
  state_of : S;
  events_of : list event
}.
Arguments Result {S A}.
Arguments outcome_of {S A}.
Arguments state_of {S A}.
Arguments events_of {S A}.

Definition M (S A : Type) : Type := S -> result S A.

#[global] Instance M_ret S : MRet (M S) := fun A a st => Result (Ok a) st [].
#[global] Instance M_bind S : MBind (M S) := fun A B f m st =>
  let r := m st in
  match outcome_of r with
  | Ok a =>
      let r' := f a (state_of r) in
      Result (outcome_of r') (state_of r') (events_of r ++ events_of r')
  | Raise e => Result (Raise e) (state_of r) (events_of r)
  end.

Definition get {S} : M S S := fun st => Result (Ok st) st [].
Definition modify {S} (f : S -> S) : M S unit := fun st => Result (Ok tt) (f st) [].
Definition lift {S A} (o : outcome A) : M S A := fun st => Result o st [].
Definition tell {S} (e : event) : M S unit := fun st => Result (Ok tt) st [e].

(** [try: body except E: handler], for the exceptions selected by [catches]. *)
Definition try_except {S A} (body : M S A) (catches : exn -> bool)
    (handler : exn -> M S A) : M S A := fun st =>
  let r := body st in
  match outcome_of r with
  | Ok _ => r
  | Raise e =>
      if catches e then
        let r' := handler e (state_of r) in
        Result (outcome_of r') (state_of r') (events_of r ++ events_of r')
      else r
  end.

Definition is_ValueError (e : exn) : bool :=
  match e with ValueError => true | _ => false end.
Definition is_OpenSlideError (e : exn) : bool :=
  match e with OpenSlideError => true | _ => false end.
Definition is_Exception (e : exn) : bool := true.

(** Assignments to the image variables. *)
Definition with_slide (s : option openslide.OpenSlide) (iv : image_vars) : image_vars :=
  {| slide := s; image := image iv; use_openslide := use_openslide iv;
     slide_dimensions := slide_dimensions iv; level_count := level_count iv;
     level_dimensions := level_dimensions iv;
     level_downsamples := level_downsamples iv |}.
Definition with_image (i : option PIL.Image) (iv : image_vars) : image_vars :=
  {| slide := slide iv; image := i; use_openslide := use_openslide iv;
     slide_dimensions := slide_dimensions iv; level_count := level_count iv;
     level_dimensions := level_dimensions iv;
     level_downsamples := level_downsamples iv |}.
Definition with_use_openslide (b : bool) (iv : image_vars) : image_vars :=
  {| slide := slide iv; image := image iv; use_openslide := b;
     slide_dimensions := slide_dimensions iv; level_count := level_count iv;
     level_dimensions := level_dimensions iv;
     level_downsamples := level_downsamples iv |}.
Definition with_slide_dimensions (d : Z * Z) (iv : image_vars) : image_vars :=
  {| slide := slide iv; image := image iv; use_openslide := use_openslide iv;
     slide_dimensions := d; level_count := level_count iv;
     level_dimensions := level_dimensions iv;
     level_downsamples := level_downsamples iv |}.
Definition with_levels (n : Z) (dims : list (Z * Z)) (ds : list Q) (iv : image_vars)
    : image_vars :=
  {| slide := slide iv; image := image iv; use_openslide := use_openslide iv;
     slide_dimensions := slide_dimensions iv; level_count := n;
     level_dimensions := dims; level_downsamples := ds |}.

(** The extensions [OpenSlide] is tried on, and the ones read through
    [tifffile]. *)
Definition wsi_extensions : list string :=
  [".ndpi"; ".svs"; ".vms"; ".vmu"; ".scn"; ".mrxs"; ".tif"; ".tiff"; ".bif"]%string.
Definition tiff_extensions : list string := [".tif"; ".tiff"]%string.

(** The part of [load_image] that both classes share word for word: release
    the previous source, try OpenSlide, fall back to PIL/tifffile.  It acts
    on the image variables only. *)
Definition open_source (env : environment) (path : string) : M image_vars unit :=
  iv ← get;
  match slide iv with
  | Some s => tell (slide_close s)
  | None => mret tt
  end;;
  modify (with_slide None);;
  modify (with_image None);;
  modify (with_use_openslide false);;
  (if OPENSLIDE_AVAILABLE env && endswith_any (lower path) wsi_extensions then
     try_except
       (s ← lift (OpenSlide env path);
        modify (with_slide (Some s));;
        modify (with_use_openslide true);;
        modify (with_slide_dimensions (openslide.dimensions s));;
        modify (with_levels (openslide.level_count s)
                  (openslide.level_dimensions s)
                  (openslide.level_downsamples s)))
       is_OpenSlideError
       (fun _ => modify (with_use_openslide false))
   else mret tt);;
  iv ← get;
  if negb (use_openslide iv) then
    img ← (if endswith_any path tiff_extensions
           then lift (tifffile_imread env path)
           else lift (Image_open env path));
    modify (with_image (Some img));;
    modify (with_slide_dimensions (PIL.width img, PIL.height img))
  else mret tt.

(** Run a method of the image variables inside a larger object. *)
Definition zoom_state {S T A} (proj : S -> T) (inj : T -> S -> S) (m : M T A)
    : M S A := fun st =>
  let r := m (proj st) in
  Result (outcome_of r) (inj (state_of r) st) (events_of r).

(** ** Predicates used in the statements *)

Definition zoom_in_range (z : Q) : Prop := (0.05 <= z /\ z <= 10.0)%Q.

(** The dimensions of an image are not negative. *)
Definition dims_ok (dims : Z * Z) : Prop := 0 <= fst dims /\ 0 <= snd dims.

(** A call of [read_region] asks for a rectangle inside the image. *)
Definition read_in_bounds (e : event) : Prop :=
  match e with
  | read_region_call dims x y width height _ =>
      (0 <= x /\ 0 <= y /\ 0 <= width /\ 0 <= height /\
       x + width <= inject_Z (fst dims) /\ y + height <= inject_Z (snd dims))%Q
  | _ => True
  end.

(** The decoders only return images whose dimensions are not negative. *)
Definition env_ok (env : environment) : Prop :=
  (forall path s, OpenSlide env path = Ok s -> dims_ok (openslide.dimensions s)) /\
  (forall path i, Image_open env path = Ok i -> dims_ok (PIL.width i, PIL.height i)) /\
  (forall path i, tifffile_imread env path = Ok i -> dims_ok (PIL.width i, PIL.height i)).

(** The size of the view computed at the start of [update_view], and the
    clamp it applies to an offset. *)
Definition view_size (canvas_px : Z) (zoom : Q) (image_px : Z) : Z :=
  Z.min (py_int (inject_Z (Z.max canvas_px 1) / zoom)) image_px.

Definition clamp_offset (offset : Q) (image_px view_px : Z) : Q :=
  Qmax 0 (Qmin offset (inject_Z (image_px - view_px))).

(** The event loop: every handler runs to completion, and an exception in
    one of them does not stop the next. *)
Fixpoint run {S A} (handle : A -> M S unit) (actions : list A) : M S unit :=
  match actions with
  | [] => mret tt
  | a :: rest => fun st =>
      let r := handle a st in
      let r' := run handle rest (state_of r) in
      Result (outcome_of r') (state_of r') (events_of r ++ events_of r')
  end.

(** [self.read_region(x, y, width, height, zoom)] called on the object, the
    call being recorded with the image dimensions at that moment. *)
Definition call_read_region {S} (img : S -> image_vars)
    (x y width height zoom : Q) : M S region :=
  v ← get;
  tell (read_region_call (slide_dimensions (img v)) x y width height zoom);;
  lift (read_region (img v) x y width height zoom).

(** * [GridOmeroOpen.py]: class [WholeSlideImageViewer] *)

Module Grid.

Record viewer := {
  img : image_vars;
  zoom : Q;
  offset_x : Q;
  offset_y : Q;
  show_grid : bool;
  grid_size : Z;
  max_cols : Z;
  max_rows : Z;
  pan_start : option (Z * Z);
  lbl_sector : option (Z * Z)
}.

(** [__init__] *)
Definition init : viewer :=
  {| img := no_image; zoom := 1.0; offset_x := 0; offset_y := 0;
     show_grid := true; grid_size := 5000; max_cols := 0; max_rows := 0;
     pan_start := None; lbl_sector := None |}.

Definition with_img (x : image_vars) (v : viewer) : viewer :=
  {| img := x; zoom := zoom v; offset_x := offset_x v;
     offset_y := offset_y v; show_grid := show_grid v;
     grid_size := grid_size v; max_cols := max_cols v;
     max_rows := max_rows v; pan_start := pan_start v;
     lbl_sector := lbl_sector v |}.
Definition with_zoom (x : Q) (v : viewer) : viewer :=
  {| img := img v; zoom := x; offset_x := offset_x v; offset_y := offset_y v;
     show_grid := show_grid v; grid_size := grid_size v;
     max_cols := max_cols v; max_rows := max_rows v;
     pan_start := pan_start v; lbl_sector := lbl_sector v |}.
Definition with_offset_x (x : Q) (v : viewer) : viewer :=
  {| img := img v; zoom := zoom v; offset_x := x; offset_y := offset_y v;
     show_grid := show_grid v; grid_size := grid_size v;
     max_cols := max_cols v; max_rows := max_rows v;
     pan_start := pan_start v; lbl_sector := lbl_sector v |}.
Definition with_offset_y (x : Q) (v : viewer) : viewer :=
  {| img := img v; zoom := zoom v; offset_x := offset_x v; offset_y := x;
     show_grid := show_grid v; grid_size := grid_size v;
     max_cols := max_cols v; max_rows := max_rows v;
     pan_start := pan_start v; lbl_sector := lbl_sector v |}.
Definition with_show_grid (x : bool) (v : viewer) : viewer :=
  {| img := img v; zoom := zoom v; offset_x := offset_x v;
     offset_y := offset_y v; show_grid := x; grid_size := grid_size v;
     max_cols := max_cols v; max_rows := max_rows v;
     pan_start := pan_start v; lbl_sector := lbl_sector v |}.
Definition with_grid_size (x : Z) (v : viewer) : viewer :=
  {| img := img v; zoom := zoom v; offset_x := offset_x v;
     offset_y := offset_y v; show_grid := show_grid v; grid_size := x;
     max_cols := max_cols v; max_rows := max_rows v;
     pan_start := pan_start v; lbl_sector := lbl_sector v |}.
Definition with_max_cols (x : Z) (v : viewer) : viewer :=
  {| img := img v; zoom := zoom v; offset_x := offset_x v;
     offset_y := offset_y v; show_grid := show_grid v;
     grid_size := grid_size v; max_cols := x; max_rows := max_rows v;
     pan_start := pan_start v; lbl_sector := lbl_sector v |}.
Definition with_max_rows (x : Z) (v : viewer) : viewer :=
  {| img := img v; zoom := zoom v; offset_x := offset_x v;
     offset_y := offset_y v; show_grid := show_grid v;
     grid_size := grid_size v; max_cols := max_cols v; max_rows := x;
     pan_start := pan_start v; lbl_sector := lbl_sector v |}.
Definition with_pan_start (x : option (Z * Z)) (v : viewer) : viewer :=
  {| img := img v; zoom := zoom v; offset_x := offset_x v;
     offset_y := offset_y v; show_grid := show_grid v;
     grid_size := grid_size v; max_cols := max_cols v;
     max_rows := max_rows v; pan_start := x; lbl_sector := lbl_sector v |}.
Definition with_lbl_sector (x : option (Z * Z)) (v : viewer) : viewer :=
  {| img := img v; zoom := zoom v; offset_x := offset_x v;
     offset_y := offset_y v; show_grid := show_grid v;
     grid_size := grid_size v; max_cols := max_cols v;
     max_rows := max_rows v; pan_start := pan_start v; lbl_sector := x |}.

Definition update_info : M viewer unit :=
  v ← get;
  if fst (slide_dimensions (img v)) =? 0 then mret tt
  else
    let w := fst (slide_dimensions (img v)) in
    let h := snd (slide_dimensions (img v)) in
    cols ← lift (py_floordiv (w + grid_size v - 1) (grid_size v));
    modify (with_max_cols cols);;
    rows ← lift (py_floordiv (h + grid_size v - 1) (grid_size v));
    modify (with_max_rows rows);;
    if use_openslide (img v)
    then _ ← lift (not_None (slide (img v))); mret tt
    else mret tt.

(** [draw_grid] only draws on the region it is given (it returns for every
    positive grid size and zoom, which is all the buttons give) and is not
    part of this method; what it draws is [draw_grid] further down.  The
    sector label is part of the viewer. *)
Definition update_view (cv : canvas) : M viewer unit :=
  v ← get;
  if fst (slide_dimensions (img v)) =? 0 then mret tt
  else
    let w := Z.max (winfo_width cv) 1 in
    let h := Z.max (winfo_height cv) 1 in
    vw ← lift (py_truediv (inject_Z w) (zoom v));
    vh ← lift (py_truediv (inject_Z h) (zoom v));
    let max_w := fst (slide_dimensions (img v)) in
    let max_h := snd (slide_dimensions (img v)) in
    let view_w := Z.min (py_int vw) max_w in
    let view_h := Z.min (py_int vh) max_h in
    modify (with_offset_x (Qmax 0 (Qmin (offset_x v) (inject_Z (max_w - view_w)))));;
    modify (with_offset_y (Qmax 0 (Qmin (offset_y v) (inject_Z (max_h - view_h)))));;
    v ← get;
    region ← call_read_region img (offset_x v) (offset_y v)
               (inject_Z view_w) (inject_Z view_h) (zoom v);
    tell (canvas_create_image region);;
    let cx := (offset_x v + inject_Z view_w / 2)%Q in
    let cy := (offset_y v + inject_Z view_h / 2)%Q in
    col ← lift (py_floordiv_float cx (inject_Z (grid_size v)));
    row ← lift (py_floordiv_float cy (inject_Z (grid_size v)));
    modify (with_lbl_sector (Some (py_int col, py_int row))).

Definition toggle_grid (cv : canvas) : M viewer unit :=
  v ← get;
  modify (with_show_grid (negb (show_grid v)));;
  update_view cv.

Definition set_grid_size (cv : canvas) (size : Z) : M viewer unit :=
  modify (with_grid_size size);;
  update_info;;
  update_view cv.

(** [spin_col] and [spin_row] are the texts of the two spin boxes. *)
Definition goto_sector (env : environment) (cv : canvas)
    (spin_col spin_row : string) : M viewer unit :=
  v ← get;
  if fst (slide_dimensions (img v)) =? 0 then tell (showwarning LoadAnImageFirst)
  else
    try_except
      (col ← lift (int_str env spin_col);
       row ← lift (int_str env spin_row);
       if (col <? 0) || (max_cols v <=? col) || (row <? 0) || (max_rows v <=? row)
       then tell (showerror (OutOfBounds (max_cols v) (max_rows v)))
       else
         let cx := (inject_Z (col * grid_size v) + inject_Z (grid_size v) / 2)%Q in
         let cy := (inject_Z (row * grid_size v) + inject_Z (grid_size v) / 2)%Q in
         let w := Z.max (winfo_width cv) 1 in
         let h := Z.max (winfo_height cv) 1 in
         wz ← lift (py_truediv (inject_Z w) (zoom v));
         modify (with_offset_x (cx - wz / 2)%Q);;
         hz ← lift (py_truediv (inject_Z h) (zoom v));
         modify (with_offset_y (cy - hz / 2)%Q);;
         update_view cv)
      is_ValueError
      (fun _ => tell (showerror InvalidValues)).

Definition zoom_in (cv : canvas) : M viewer unit :=
  v ← get;
  if fst (slide_dimensions (img v)) =? 0 then mret tt
  else
    modify (with_zoom (Qmin (zoom v * 1.5) 10.0));;
    v ← get;
    (if use_openslide (img v)
     then _ ← lift (get_best_level (img v) (zoom v)); mret tt
     else mret tt);;
    update_view cv.

Definition zoom_out (cv : canvas) : M viewer unit :=
  v ← get;
  if fst (slide_dimensions (img v)) =? 0 then mret tt
  else
    modify (with_zoom (Qmax (zoom v / 1.5) 0.05));;
    v ← get;
    (if use_openslide (img v)
     then _ ← lift (get_best_level (img v) (zoom v)); mret tt
     else mret tt);;
    update_view cv.

(** The [<ButtonPress-1>] binding. *)
Definition button_press (e_x e_y : Z) : M viewer unit :=
  modify (with_pan_start (Some (e_x, e_y))).

Definition pan (cv : canvas) (e_x e_y : Z) : M viewer unit :=
  v ← get;
  match pan_start v with
  | Some (start_x, start_y) =>
      if fst (slide_dimensions (img v)) =? 0 then mret tt
      else
        dx ← lift (py_truediv (inject_Z (start_x - e_x)) (zoom v));
        dy ← lift (py_truediv (inject_Z (start_y - e_y)) (zoom v));
        modify (with_offset_x (offset_x v + dx)%Q);;
        modify (with_offset_y (offset_y v + dy)%Q);;
        modify (with_pan_start (Some (e_x, e_y)));;
        update_view cv
  | None => mret tt
  end.

Definition reset (cv : canvas) : M viewer unit :=
  modify (with_zoom 1.0);;
  modify (with_offset_x 0);;
  modify (with_offset_y 0);;
  update_view cv.

(** [path] is what the file dialog returned. *)
Definition load_image (env : environment) (cv : canvas) (path : string)
    : M viewer unit :=
  if String.eqb path "" then mret tt
  else
    try_except
      (zoom_state img with_img (open_source env path);;
       update_info;;
       reset cv;;
       v ← get;
       tell (showinfo (Loaded (slide_dimensions (img v)) (use_openslide (img v)))))
      is_Exception
      (fun e => tell (showerror (CouldNotLoad e))).

Definition loaded (v : viewer) : Prop := fst (slide_dimensions (img v)) <> 0.

(** The zoom is in its range and the image dimensions are not negative. *)
Definition good (v : viewer) : Prop :=
  zoom_in_range (zoom v) /\ dims_ok (slide_dimensions (img v)).

(** What the user can do, with the canvas size at that moment. *)
Inductive action :=
| LoadImage (path : string)
| ToggleGrid
| SetGridSize (size : Z)
| GotoSector (spin_col spin_row : string)
| ZoomIn
| ZoomOut
| ButtonPress (e_x e_y : Z)
| Pan (e_x e_y : Z)
| Reset.

Definition handle (env : environment) (step : canvas * action) : M viewer unit :=
  let cv := fst step in
  match snd step with
  | LoadImage path => load_image env cv path
  | ToggleGrid => toggle_grid cv
  | SetGridSize size => set_grid_size cv size
  | GotoSector spin_col spin_row => goto_sector env cv spin_col spin_row
  | ZoomIn => zoom_in cv
  | ZoomOut => zoom_out cv
  | ButtonPress e_x e_y => button_press e_x e_y
  | Pan e_x e_y => pan cv e_x e_y
  | Reset => reset cv
  end.

(** The sector entries that [goto_sector] refuses, with the message it
    shows for each. *)
Inductive refused (env : environment) (v : viewer) (spin_col spin_row : string)
    : message -> Prop :=
| refused_out_of_range col row :
    int_str env spin_col = Ok col ->
    int_str env spin_row = Ok row ->
    col < 0 \/ max_cols v <= col \/ row < 0 \/ max_rows v <= row ->
    refused env v spin_col spin_row (OutOfBounds (max_cols v) (max_rows v))
| refused_col_not_numeric :
    int_str env spin_col = Raise ValueError ->
    refused env v spin_col spin_row InvalidValues
| refused_row_not_numeric col :
    int_str env spin_col = Ok col ->
    int_str env spin_row = Raise ValueError ->
    refused env v spin_col spin_row InvalidValues.

End Grid.

(** * [MapOmero.py]: class [WSITrackingViewer] *)

(** The boolean arrays of numpy that the tracking grids are. *)
Module np.

Record ndarray := { shape : Z * Z; cells : list (list bool) }.

(** [np.zeros((rows, cols), dtype=bool)] *)
Definition zeros (rows cols : Z) : outcome ndarray :=
  if (rows <? 0) || (cols <? 0) then Raise ValueError
  else Ok {| shape := (rows, cols);
             cells := replicate (Z.to_nat rows) (replicate (Z.to_nat cols) false) |}.

(** A slice bound [i] on an axis of length [n], as [slice.indices] puts it. *)
Definition slice_bound (n i : Z) : Z :=
  if i <? 0 then Z.max (i + n) 0 else Z.min i n.

Definition in_slice (n start stop i : Z) : bool :=
  (slice_bound n start <=? i) && (i <? slice_bound n stop).

(** [a[r0:r1, c0:c1] = True] *)
Definition set_slice_true (a : ndarray) (r0 r1 c0 c1 : Z) : ndarray :=
  {| shape := shape a;
     cells :=
       imap (fun i row =>
               if in_slice (fst (shape a)) r0 r1 (Z.of_nat i)
               then imap (fun j x =>
                            if in_slice (snd (shape a)) c0 c1 (Z.of_nat j)
                            then true else x) row
               else row)
            (cells a) |}.

(** [a.fill(b)] *)
Definition fill (b : bool) (a : ndarray) : ndarray :=
  {| shape := shape a; cells := map (map (fun _ => b)) (cells a) |}.

(** [a[i, j]] for indices inside the array. *)
Definition get (a : ndarray) (i j : nat) : option bool :=
  row ← cells a !! i; row !! j.

(** The cells are as many as the shape says. *)
Definition wf (a : ndarray) : Prop :=
  Z.of_nat (length (cells a)) = fst (shape a) /\
  Forall (fun row => Z.of_nat (length row) = snd (shape a)) (cells a).

End np.

(** [for x in l: body(x)] *)
Fixpoint for_each {S A} (l : list A) (body : A -> M S unit) : M S unit :=
  match l with
  | [] => mret tt
  | x :: rest => body x;; for_each rest body
  end.

Module Map.

Definition tracking_levels : list Z := [10; 40; 60; 80].
Definition grid_cell_size : Z := 100.

Record viewer := {
  img : image_vars;
  zoom : Q;
  offset_x : Q;
  offset_y : Q;
  tracking_grids : gmap Z (option np.ndarray);
  map_thumbnail : option (Z * Z);
  map_scale_x : Q;
  map_scale_y : Q;
  pan_start : option (Z * Z)
}.

(** [__init__] *)
Definition init : viewer :=
  {| img := no_image; zoom := 1.0; offset_x := 0; offset_y := 0;
     tracking_grids := <[10 := None]> (<[40 := None]> (<[60 := None]> (<[80 := None]> ∅)));
     map_thumbnail := None; map_scale_x := 1.0; map_scale_y := 1.0;
     pan_start := None |}.

Definition with_img (x : image_vars) (v : viewer) : viewer :=
  {| img := x; zoom := zoom v; offset_x := offset_x v;
     offset_y := offset_y v; tracking_grids := tracking_grids v;
     map_thumbnail := map_thumbnail v; map_scale_x := map_scale_x v;
     map_scale_y := map_scale_y v; pan_start := pan_start v |}.
Definition with_zoom (x : Q) (v : viewer) : viewer :=
  {| img := img v; zoom := x; offset_x := offset_x v; offset_y := offset_y v;
     tracking_grids := tracking_grids v; map_thumbnail := map_thumbnail v;
     map_scale_x := map_scale_x v; map_scale_y := map_scale_y v;
     pan_start := pan_start v |}.
Definition with_offset_x (x : Q) (v : viewer) : viewer :=
  {| img := img v; zoom := zoom v; offset_x := x; offset_y := offset_y v;
     tracking_grids := tracking_grids v; map_thumbnail := map_thumbnail v;
     map_scale_x := map_scale_x v; map_scale_y := map_scale_y v;
     pan_start := pan_start v |}.
Definition with_offset_y (x : Q) (v : viewer) : viewer :=
  {| img := img v; zoom := zoom v; offset_x := offset_x v; offset_y := x;
     tracking_grids := tracking_grids v; map_thumbnail := map_thumbnail v;
     map_scale_x := map_scale_x v; map_scale_y := map_scale_y v;
     pan_start := pan_start v |}.
Definition with_tracking_grids (x : gmap Z (option np.ndarray)) (v : viewer) : viewer :=
  {| img := img v; zoom := zoom v; offset_x := offset_x v;
     offset_y := offset_y v; tracking_grids := x;
     map_thumbnail := map_thumbnail v; map_scale_x := map_scale_x v;
     map_scale_y := map_scale_y v; pan_start := pan_start v |}.
Definition with_map_thumbnail (x : option (Z * Z)) (v : viewer) : viewer :=
  {| img := img v; zoom := zoom v; offset_x := offset_x v;
     offset_y := offset_y v; tracking_grids := tracking_grids v;
     map_thumbnail := x; map_scale_x := map_scale_x v;
     map_scale_y := map_scale_y v; pan_start := pan_start v |}.
Definition with_map_scale_x (x : Q) (v : viewer) : viewer :=
  {| img := img v; zoom := zoom v; offset_x := offset_x v;
     offset_y := offset_y v; tracking_grids := tracking_grids v;
     map_thumbnail := map_thumbnail v; map_scale_x := x;
     map_scale_y := map_scale_y v; pan_start := pan_start v |}.
Definition with_map_scale_y (x : Q) (v : viewer) : viewer :=
  {| img := img v; zoom := zoom v; offset_x := offset_x v;
     offset_y := offset_y v; tracking_grids := tracking_grids v;
     map_thumbnail := map_thumbnail v; map_scale_x := map_scale_x v;
     map_scale_y := x; pan_start := pan_start v |}.
Definition with_pan_start (x : option (Z * Z)) (v : viewer) : viewer :=
  {| img := img v; zoom := zoom v; offset_x := offset_x v;
     offset_y := offset_y v; tracking_grids := tracking_grids v;
     map_thumbnail := map_thumbnail v; map_scale_x := map_scale_x v;
     map_scale_y := map_scale_y v; pan_start := x |}.

Definition initialize_tracking : M viewer unit :=
  v ← get;
  let w := fst (slide_dimensions (img v)) in
  let h := snd (slide_dimensions (img v)) in
  let grid_w := w `div` grid_cell_size + 1 in
  let grid_h := h `div` grid_cell_size + 1 in
  for_each tracking_levels (fun percent =>
    g ← lift (np.zeros grid_h grid_w);
    v ← get;
    modify (with_tracking_grids (<[percent := Some g]> (tracking_grids v)))).

Definition update_info : M viewer unit :=
  v ← get;
  if use_openslide (img v)
  then _ ← lift (not_None (slide (img v))); mret tt
  else mret tt.

Definition get_tracking_level (zoom_percent : Z) : outcome Z :=
  py_min_key (fun x => Z.abs (x - zoom_percent)) tracking_levels.

Definition mark_visited (cv : canvas) : M viewer unit :=
  v ← get;
  if fst (slide_dimensions (img v)) =? 0 then mret tt
  else
    let zoom_percent := py_int (zoom v * 100) in
    tracking_level ← lift (get_tracking_level zoom_percent);
    match tracking_grids v !! tracking_level with
    | None => mret tt
    | Some grid =>
        let w := Z.max (winfo_width cv) 1 in
        let h := Z.max (winfo_height cv) 1 in
        view_w ← lift (py_truediv (inject_Z w) (zoom v));
        view_h ← lift (py_truediv (inject_Z h) (zoom v));
        let x1 := py_int (offset_x v) in
        let y1 := py_int (offset_y v) in
        let x2 := py_int (offset_x v + view_w) in
        let y2 := py_int (offset_y v + view_h) in
        let grid_x1 := Z.max 0 (x1 `div` grid_cell_size) in
        let grid_y1 := Z.max 0 (y1 `div` grid_cell_size) in
        g ← lift (not_None grid);
        let grid_x2 := Z.min (snd (np.shape g) - 1) (x2 `div` grid_cell_size) in
        let grid_y2 := Z.min (fst (np.shape g) - 1) (y2 `div` grid_cell_size) in
        modify (with_tracking_grids
                  (<[tracking_level :=
                       Some (np.set_slice_true g grid_y1 (grid_y2 + 1)
                               grid_x1 (grid_x2 + 1))]> (tracking_grids v)))
    end.

(** The drawing of the rectangle is left out here ([viewport_rect] further
    down is the rectangle); the view size is computed. *)
Definition update_viewport_rect (cv : canvas) : M viewer unit :=
  v ← get;
  if fst (slide_dimensions (img v)) =? 0 then mret tt
  else match map_thumbnail v with
       | None => mret tt
       | Some _ =>
           let w := Z.max (winfo_width cv) 1 in
           let h := Z.max (winfo_height cv) 1 in
           _ ← lift (py_truediv (inject_Z w) (zoom v));
           _ ← lift (py_truediv (inject_Z h) (zoom v));
           mret tt
       end.

(** The thumbnail is reduced to its size; the tracking overlay drawn on it
    is left out here ([tracking_overlay] further down is the overlay). *)
Definition update_map (env : environment) (cv : canvas) : M viewer unit :=
  v ← get;
  if fst (slide_dimensions (img v)) =? 0 then mret tt
  else
    thumb ← lift (if use_openslide (img v) then
                    let thumb_level := level_count (img v) - 1 in
                    thumb_size ← py_getitem (level_dimensions (img v)) thumb_level;
                    _ ← not_None (slide (img v));
                    Ok (thumbnail env thumb_size (290, 290))
                  else
                    i ← not_None (image (img v));
                    Ok (thumbnail env (PIL.width i, PIL.height i) (290, 290)));
    sx ← lift (py_truediv (inject_Z (fst thumb))
                 (inject_Z (fst (slide_dimensions (img v)))));
    modify (with_map_scale_x sx);;
    sy ← lift (py_truediv (inject_Z (snd thumb))
                 (inject_Z (snd (slide_dimensions (img v)))));
    modify (with_map_scale_y sy);;
    modify (with_map_thumbnail (Some thumb));;
    update_viewport_rect cv.

Definition update_view (env : environment) (cv : canvas) : M viewer unit :=
  v ← get;
  if fst (slide_dimensions (img v)) =? 0 then mret tt
  else
    let w := Z.max (winfo_width cv) 1 in
    let h := Z.max (winfo_height cv) 1 in
    vw ← lift (py_truediv (inject_Z w) (zoom v));
    vh ← lift (py_truediv (inject_Z h) (zoom v));
    let max_w := fst (slide_dimensions (img v)) in
    let max_h := snd (slide_dimensions (img v)) in
    let view_w := Z.min (py_int vw) max_w in
    let view_h := Z.min (py_int vh) max_h in
    modify (with_offset_x (Qmax 0 (Qmin (offset_x v) (inject_Z (max_w - view_w)))));;
    modify (with_offset_y (Qmax 0 (Qmin (offset_y v) (inject_Z (max_h - view_h)))));;
    mark_visited cv;;
    v ← get;
    region ← call_read_region img (offset_x v) (offset_y v)
               (inject_Z view_w) (inject_Z view_h) (zoom v);
    tell (canvas_create_image region);;
    update_map env cv.

Definition click_map (env : environment) (cv : canvas) (e_x e_y : Z)
    : M viewer unit :=
  v ← get;
  if fst (slide_dimensions (img v)) =? 0 then mret tt
  else match map_thumbnail v with
       | None => mret tt
       | Some (thumb_w, thumb_h) =>
           let map_x := (inject_Z e_x - (150 - inject_Z thumb_w / 2))%Q in
           let map_y := (inject_Z e_y - (150 - inject_Z thumb_h / 2))%Q in
           img_x ← lift (py_truediv map_x (map_scale_x v));
           img_y ← lift (py_truediv map_y (map_scale_y v));
           let w := Z.max (winfo_width cv) 1 in
           let h := Z.max (winfo_height cv) 1 in
           wz ← lift (py_truediv (inject_Z w) (zoom v));
           modify (with_offset_x (img_x - wz / 2)%Q);;
           hz ← lift (py_truediv (inject_Z h) (zoom v));
           modify (with_offset_y (img_y - hz / 2)%Q);;
           update_view env cv
       end.

Definition set_zoom_percent (env : environment) (cv : canvas) (percent : Z)
    : M viewer unit :=
  v ← get;
  if fst (slide_dimensions (img v)) =? 0 then mret tt
  else
    modify (with_zoom (inject_Z percent / 100.0)%Q);;
    update_view env cv.

Definition zoom_in (env : environment) (cv : canvas) : M viewer unit :=
  v ← get;
  if fst (slide_dimensions (img v)) =? 0 then mret tt
  else
    modify (with_zoom (Qmin (zoom v * 1.5) 10.0));;
    update_view env cv.

Definition zoom_out (env : environment) (cv : canvas) : M viewer unit :=
  v ← get;
  if fst (slide_dimensions (img v)) =? 0 then mret tt
  else
    modify (with_zoom (Qmax (zoom v / 1.5) 0.05));;
    update_view env cv.

(** The [<ButtonPress-1>] binding. *)
Definition button_press (e_x e_y : Z) : M viewer unit :=
  modify (with_pan_start (Some (e_x, e_y))).

Definition pan (env : environment) (cv : canvas) (e_x e_y : Z) : M viewer unit :=
  v ← get;
  match pan_start v with
  | Some (start_x, start_y) =>
      if fst (slide_dimensions (img v)) =? 0 then mret tt
      else
        dx ← lift (py_truediv (inject_Z (start_x - e_x)) (zoom v));
        dy ← lift (py_truediv (inject_Z (start_y - e_y)) (zoom v));
        modify (with_offset_x (offset_x v + dx)%Q);;
        modify (with_offset_y (offset_y v + dy)%Q);;
        modify (with_pan_start (Some (e_x, e_y)));;
        update_view env cv
  | None => mret tt
  end.

Definition clear_tracking (env : environment) (cv : canvas) : M viewer unit :=
  v ← get;
  modify (with_tracking_grids
            (fmap (M:=gmap Z) (fmap (M:=option) (np.fill false)) (tracking_grids v)));;
  update_map env cv;;
  tell (showinfo TrackingCleared).

Definition reset (env : environment) (cv : canvas) : M viewer unit :=
  modify (with_zoom 1.0);;
  modify (with_offset_x 0);;
  modify (with_offset_y 0);;
  update_view env cv.

(** [path] is what the file dialog returned. *)
Definition load_image (env : environment) (cv : canvas) (path : string)
    : M viewer unit :=
  if String.eqb path "" then mret tt
  else
    try_except
      (zoom_state img with_img (open_source env path);;
       initialize_tracking;;
       update_info;;
       reset env cv;;
       v ← get;
       tell (showinfo (Loaded (slide_dimensions (img v)) (use_openslide (img v)))))
      is_Exception
      (fun e => tell (showerror (CouldNotLoad e))).

Definition loaded (v : viewer) : Prop := fst (slide_dimensions (img v)) <> 0.

(** The zoom is in its range and the image dimensions are not negative. *)
Definition good (v : viewer) : Prop :=
  zoom_in_range (zoom v) /\ dims_ok (slide_dimensions (img v)).

(** Every bucket owns a grid of the shape [initialize_tracking] gives it for
    the current image. *)
Definition tracking_allocated (v : viewer) : Prop :=
  forall percent, percent ∈ tracking_levels ->
    exists g, tracking_grids v !! percent = Some (Some g) /\ np.wf g /\
      np.shape g =
        (snd (slide_dimensions (img v)) `div` grid_cell_size + 1,
         fst (slide_dimensions (img v)) `div` grid_cell_size + 1).

(** What the user can do, with the canvas size at that moment.  The quick
    zoom buttons exist for the four tracking levels only. *)
Inductive action :=
| LoadImage (path : string)
| QuickZoom (percent : Z)
| ZoomIn
| ZoomOut
| ButtonPress (e_x e_y : Z)
| Pan (e_x e_y : Z)
| Reset
| ClearTracking
| ClickMap (e_x e_y : Z).

Definition handle (env : environment) (step : canvas * action) : M viewer unit :=
  let cv := fst step in
  match snd step with
  | LoadImage path => load_image env cv path
  | QuickZoom percent => set_zoom_percent env cv percent
  | ZoomIn => zoom_in env cv
  | ZoomOut => zoom_out env cv
  | ButtonPress e_x e_y => button_press e_x e_y
  | Pan e_x e_y => pan env cv e_x e_y
  | Reset => reset env cv
  | ClearTracking => clear_tracking env cv
  | ClickMap e_x e_y => click_map env cv e_x e_y
  end.

Definition button_exists (step : canvas * action) : Prop :=
  match snd step with
  | QuickZoom percent => percent ∈ tracking_levels
  | _ => True
  end.

End Map.

(** * Notions used in the statements *)

(** [i] is the first index of [ds] whose entry is nearest to [t]. *)
Definition first_argmin (t : Q) (ds : list Q) (i : nat) : Prop :=
  exists d, ds !! i = Some d /\
    (forall j dj, ds !! j = Some dj -> (Qabs (d - t) <= Qabs (dj - t))%Q) /\
    (forall j dj, (j < i)%nat -> ds !! j = Some dj -> (Qabs (d - t) < Qabs (dj - t))%Q).

(** Downsample factors grow strictly with the level. *)
Definition increasing (ds : list Q) : Prop :=
  forall j k dj dk, (j < k)%nat -> ds !! j = Some dj -> ds !! k = Some dk -> (dj < dk)%Q.

(** ** A program logic for the methods

    [holds_at I ev_ok ex_ok m st]: run from [st], the method [m] ends in a
    state satisfying [I] whether it returns or raises, only emits events
    satisfying [ev_ok], and only raises exceptions satisfying [ex_ok]. *)
Definition holds_at {S A} (I : S -> Prop) (ev_ok : event -> Prop)
    (ex_ok : exn -> Prop) (m : M S A) (st : S) : Prop :=
  I (state_of (m st)) /\
  Forall ev_ok (events_of (m st)) /\
  match outcome_of (m st) with
  | Ok _ => True
  | Raise e => ex_ok e
  end.

Definition maintains {S A} (I : S -> Prop) (ev_ok : event -> Prop)
    (ex_ok : exn -> Prop) (m : M S A) : Prop :=
  forall st, I st -> holds_at I ev_ok ex_ok m st.

Definition any_exn (e : exn) : Prop := True.
Definition any_event (e : event) : Prop := True.

(** Among the calls of [read_region], [e] can only be [expected]. *)
Definition reads_only (expected e : event) : Prop :=
  match e with
  | read_region_call _ _ _ _ _ _ => e = expected
  | _ => True
  end.

(** The two directions of a zoom step, and the handler for each. *)
Inductive direction := zoom_inwards | zoom_outwards.

Definition grid_zoom_by (cv : canvas) (d : direction) : M Grid.viewer unit :=
  match d with
  | zoom_inwards => Grid.zoom_in cv
  | zoom_outwards => Grid.zoom_out cv
  end.

Definition map_zoom_by (env : environment) (cv : canvas) (d : direction)
    : M Map.viewer unit :=
  match d with
  | zoom_inwards => Map.zoom_in env cv
  | zoom_outwards => Map.zoom_out env cv
  end.

(** The state a method leaves behind. *)
Definition after {S A} (m : M S A) (st : S) : S := state_of (m st).

(** The exceptions an outcome can carry. *)
Definition raises_only {A} (allowed : list exn) (o : outcome A) : Prop :=
  forall e, o = Raise e -> e ∈ allowed.

(** What arithmetic, indexing and attribute access raise. *)
Definition lookup_errors : list exn :=
  [ZeroDivisionError; IndexError; AttributeError].

(** ** The specification's wording, where it differs from the code *)

(** The boundary rule as the specification words it: between two adjacent
    levels the selection switches at the midpoint of the two inverse
    downsamples, the lower index being selected at the midpoint. *)
Definition switches_at_inverse_midpoint : Prop :=
  forall iv i di di1 z,
    use_openslide iv = true ->
    increasing (level_downsamples iv) ->
    level_downsamples iv !! i = Some di ->
    level_downsamples iv !! S i = Some di1 ->
    let midpoint := ((1 / di + 1 / di1) / 2)%Q in
    ((1 / di1 <= z /\ z < midpoint)%Q ->
       get_best_level iv z = Ok (Z.of_nat (S i))) /\
    ((midpoint <= z /\ z <= 1 / di)%Q ->
       get_best_level iv z = Ok (Z.of_nat i)).

(** The size the specification words give to a region read from a pyramid:
    the requested size times the zoom, rounded. *)
Definition rounded_region_size : Prop :=
  forall iv x y width height zoom r,
    use_openslide iv = true ->
    read_region iv x y width height zoom = Ok r ->
    region_size r = (spec_round (width * zoom), spec_round (height * zoom)).

(** The ceiling of a quotient, as [update_info] of the grid viewer computes
    its numbers of columns and rows. *)
Definition ceil_div (a b : Z) : Z := (a + b - 1) `div` b.

(** The size of the tracking grids as the specification words it: the
    ceiling of each dimension over the cell size. *)
Definition grids_sized_by_ceiling : Prop :=
  forall v percent,
    dims_ok (slide_dimensions (Map.img v)) ->
    percent ∈ Map.tracking_levels ->
    exists g,
      Map.tracking_grids (after Map.initialize_tracking v) !! percent
        = Some (Some g) /\
      np.shape g =
        (ceil_div (snd (slide_dimensions (Map.img v))) Map.grid_cell_size,
         ceil_div (fst (slide_dimensions (Map.img v))) Map.grid_cell_size).

(** The bucket of a zoom: as the code computes it, from the truncated
    percentage, and as the specification words it, from the rounded one. *)
Definition bucket_of_zoom (z : Q) : outcome Z :=
  Map.get_tracking_level (py_int (z * 100)).
Definition rounded_bucket_of_zoom (z : Q) : outcome Z :=
  Map.get_tracking_level (spec_round (z * 100)).

(** After [mark_visited], the cell under the top left corner of the view is
    visited in the grid of the bucket that [bucket_of] gives. *)
Definition visit_marks (bucket_of : Q -> outcome Z) : Prop :=
  forall cv v,
    Map.loaded v -> Map.good v -> Map.tracking_allocated v ->
    (0 <= Map.offset_x v /\ Map.offset_x v <= inject_Z (fst (slide_dimensions (Map.img v))))%Q ->
    (0 <= Map.offset_y v /\ Map.offset_y v <= inject_Z (snd (slide_dimensions (Map.img v))))%Q ->
    exists level g,
      bucket_of (Map.zoom v) = Ok level /\
      Map.tracking_grids (after (Map.mark_visited cv) v) !! level = Some (Some g) /\
      np.get g (Z.to_nat (py_int (Map.offset_y v) `div` Map.grid_cell_size))
               (Z.to_nat (py_int (Map.offset_x v) `div` Map.grid_cell_size))
        = Some true.

(** [b], at index [i] of [l], is the first element of [l] whose key is
    minimal. *)
Definition first_min_key {A} (key : A -> Z) (l : list A) (i : nat) (b : A) : Prop :=
  l !! i = Some b /\
  (forall j y, l !! j = Some y -> key b <= key y) /\
  (forall j y, (j < i)%nat -> l !! j = Some y -> key b < key y).

(** A result with earlier events put in front. *)
Definition prepend {S A} (evs : list event) (r : result S A) : result S A :=
  Result (outcome_of r) (state_of r) (evs ++ events_of r).

(** * Concrete surroundings used in the examples *)

Module Examples.

(** A decimal reader standing for the builtin [int] on plain texts: an
    optional minus sign followed by digits. *)
Fixpoint digits_value (s : string) (acc : Z) : outcome Z :=
  match s with
  | EmptyString => Ok acc
  | String c s' =>
      let n := Z.of_nat (Ascii.nat_of_ascii c) in
      if (48 <=? n) && (n <=? 57) then digits_value s' (10 * acc + (n - 48))
      else Raise ValueError
  end.

Definition decimal_int (s : string) : outcome Z :=
  match s with
  | EmptyString => Raise ValueError
  | String c s' =>
      if Ascii.eqb c (Ascii.ascii_of_nat 45) then
        match s' with
        | EmptyString => Raise ValueError
        | _ => n ← digits_value s' 0; Ok (- n)
        end
      else digits_value s 0
  end.

(** A size computation that keeps the aspect ratio within the bound. *)
Definition fit_within (size bound : Z * Z) : Z * Z :=
  let '(w, h) := size in
  let '(bw, bh) := bound in
  if (w <=? bw) && (h <=? bh) then (w, h)
  else if h * bw <=? w * bh then (bw, Z.max 1 ((h * bw) `div` w))
  else (Z.max 1 ((w * bh) `div` h), bh).

(** A three-level pyramid of 40000 x 30000 pixels. *)
Definition slide3 : openslide.OpenSlide :=
  {| openslide.dimensions := (40000, 30000);
     openslide.level_count := 3;
     openslide.level_dimensions := [(40000, 30000); (10000, 7500); (2500, 1875)];
     openslide.level_downsamples := [1.0; 4.0; 16.0]%Q |}.

(** A flat image of 20000 x 15000 pixels. *)
Definition photo : PIL.Image := {| PIL.width := 20000; PIL.height := 15000 |}.

(** A directory with one slide and one flat image; every other path fails
    to open. *)
Definition env : environment :=
  {| OPENSLIDE_AVAILABLE := true;
     OpenSlide := fun path =>
       if String.eqb path "slide.svs" then Ok slide3 else Raise OpenSlideError;
     Image_open := fun path =>
       if String.eqb path "photo.png" then Ok photo else Raise OSError;
     tifffile_imread := fun _ => Raise OSError;
     int_str := decimal_int;
     thumbnail := fit_within |}.

Definition cv800 : canvas := {| winfo_width := 800; winfo_height := 600 |}.

(** The two viewers after loading the flat image, and the tracking viewer
    after loading the slide. *)
Definition grid_photo : Grid.viewer :=
  state_of (Grid.load_image env cv800 "photo.png" Grid.init).
Definition map_photo : Map.viewer :=
  state_of (Map.load_image env cv800 "photo.png" Map.init).
Definition map_slide : Map.viewer :=
  state_of (Map.load_image env cv800 "slide.svs" Map.init).

(** The image variables after loading the slide, and after loading the flat
    image. *)
Definition slide_vars : image_vars :=
  {| slide := Some slide3; image := None; use_openslide := true;
     slide_dimensions := (40000, 30000); level_count := 3;
     level_dimensions := [(40000, 30000); (10000, 7500); (2500, 1875)];
     level_downsamples := [1.0; 4.0; 16.0]%Q |}.
Definition photo_vars : image_vars :=
  {| slide := None; image := Some photo; use_openslide := false;
     slide_dimensions := (20000, 15000); level_count := 0;
     level_dimensions := []; level_downsamples := [] |}.

(** The tracking viewer inside [load_image], when the flat image has just
    been opened and [initialize_tracking] is about to run. *)
Definition map_opened : Map.viewer := Map.with_img photo_vars Map.init.

(** A flat image of 250 x 150 pixels, small enough for its tracking grids
    (3 columns by 2 rows) to be written out. *)
Definition small : PIL.Image := {| PIL.width := 250; PIL.height := 150 |}.

Definition small_env : environment :=
  {| OPENSLIDE_AVAILABLE := true;
     OpenSlide := fun _ => Raise OpenSlideError;
     Image_open := fun path =>
       if String.eqb path "small.png" then Ok small else Raise OSError;
     tifffile_imread := fun _ => Raise OSError;
     int_str := decimal_int;
     thumbnail := fit_within |}.

(** The tracking viewer after loading the small image, and after the quick
    zoom to 10% followed by four zoom steps in, which leave a zoom of
    0.1 * 1.5^4 = 0.50625. *)
Definition map_small : Map.viewer :=
  state_of (Map.load_image small_env cv800 "small.png" Map.init).
Definition map_small_zoomed : Map.viewer :=
  after (run (Map.handle small_env)
           [(cv800, Map.QuickZoom 10); (cv800, Map.ZoomIn); (cv800, Map.ZoomIn);
            (cv800, Map.ZoomIn); (cv800, Map.ZoomIn)])
        map_small.

End Examples.

(** * Notions used in the further properties *)

(** The image variables are those of an opened source: a pyramid with its
    handle and at least one level, no downsample being zero, or a decoded
    image. *)
Definition source_ready (iv : image_vars) : Prop :=
  if use_openslide iv
  then slide iv <> None /\ level_downsamples iv <> [] /\
       Forall (fun d => ~ (d == 0)%Q) (level_downsamples iv)
  else image iv <> None.

(** The sector index that [update_view] writes on the label for a centre
    coordinate: [int(centre // grid_size)]. *)
Definition sector_of (centre : Q) (grid_size : Z) : Z :=
  Qfloor (centre / inject_Z grid_size).

(** ** Opening a source *)

(** Whether [load_image] tries OpenSlide on a path, and the decoder it falls
    back to. *)
Definition tries_openslide (env : environment) (path : string) : bool :=
  OPENSLIDE_AVAILABLE env && endswith_any (lower path) wsi_extensions.

Definition fallback_decoder (env : environment) (path : string)
    : outcome PIL.Image :=
  if endswith_any path tiff_extensions then tifffile_imread env path
  else Image_open env path.

(** The [close] of the previous slide, if there is one. *)
Definition closing (iv : image_vars) : list event :=
  match slide iv with
  | Some s => [slide_close s]
  | None => []
  end.

(** The image variables once the previous source has been released, once a
    slide has been opened, and once an image has been decoded. *)
Definition released (iv : image_vars) : image_vars :=
  with_use_openslide false (with_image None (with_slide None iv)).

Definition opened_slide (s : openslide.OpenSlide) (iv : image_vars) : image_vars :=
  {| slide := Some s; image := None; use_openslide := true;
     slide_dimensions := openslide.dimensions s;
     level_count := openslide.level_count s;
     level_dimensions := openslide.level_dimensions s;
     level_downsamples := openslide.level_downsamples s |}.

Definition opened_image (i : PIL.Image) (iv : image_vars) : image_vars :=
  {| slide := None; image := Some i; use_openslide := false;
     slide_dimensions := (PIL.width i, PIL.height i);
     level_count := level_count iv;
     level_dimensions := level_dimensions iv;
     level_downsamples := level_downsamples iv |}.

(** What [open_source] comes to, case by case. *)
Definition open_source_table (env : environment) (path : string) (iv : image_vars)
    : result image_vars unit :=
  let fallback :=
    match fallback_decoder env path with
    | Ok i => Result (Ok tt) (opened_image i iv) (closing iv)
    | Raise e => Result (Raise e) (released iv) (closing iv)
    end in
  if tries_openslide env path then
    match OpenSlide env path with
    | Ok s => Result (Ok tt) (opened_slide s iv) (closing iv)
    | Raise e =>
        if is_OpenSlideError e then fallback
        else Result (Raise e) (released iv) (closing iv)
    end
  else fallback.

(** ** The sector grid *)

(** The numbers of columns and rows are those of the image and the grid
    size. *)
Definition sectors_current (v : Grid.viewer) : Prop :=
  Grid.loaded v ->
  Grid.max_cols v = ceil_div (fst (slide_dimensions (Grid.img v))) (Grid.grid_size v) /\
  Grid.max_rows v = ceil_div (snd (slide_dimensions (Grid.img v))) (Grid.grid_size v).

(** The grid sizes that [setup_ui] makes buttons for. *)
Definition grid_sizes : list Z := [1000; 2000; 5000; 10000].

Definition grid_button_exists (step : canvas * Grid.action) : Prop :=
  match snd step with
  | Grid.SetGridSize size => size ∈ grid_sizes
  | _ => True
  end.

(** What the grid viewer keeps between two handlers: a positive grid size,
    sector counts that are current, and the slide handle whenever OpenSlide
    is in use. *)
Definition grid_settled (v : Grid.viewer) : Prop :=
  0 < Grid.grid_size v /\ sectors_current v /\
  (use_openslide (Grid.img v) = true -> slide (Grid.img v) <> None).

(** Neither a load nor a change of the grid size. *)
Definition grid_view_action (a : Grid.action) : Prop :=
  match a with
  | Grid.LoadImage _ | Grid.SetGridSize _ => False
  | _ => True
  end.

Definition is_showerror (e : event) : Prop :=
  match e with
  | showerror _ => True
  | _ => False
  end.

(** [iv'] is what a successful [open_source] leaves of [iv]. *)
Definition opened (env : environment) (path : string) (iv iv' : image_vars) : Prop :=
  (exists s, OpenSlide env path = Ok s /\ iv' = opened_slide s iv) \/
  (exists i, fallback_decoder env path = Ok i /\ iv' = opened_image i iv).

(** ** Handlers that return *)

Definition no_exn (e : exn) : Prop := False.

(** The builtin [int] raises nothing but [ValueError] on a text. *)
Definition int_str_ok (env : environment) : Prop :=
  forall s e, int_str env s = Raise e -> e = ValueError.

(** The slides that OpenSlide opens have at least one level and no zero
    downsample. *)
Definition slides_ok (env : environment) : Prop :=
  forall path s, OpenSlide env path = Ok s ->
    openslide.level_downsamples s <> [] /\
    Forall (fun d => ~ (d == 0)%Q) (openslide.level_downsamples s).

(** The grid viewer between two handlers when every load so far has
    succeeded: the zoom is in its range, the grid size is positive, and a
    loaded image has its source. *)
Definition grid_ready (v : Grid.viewer) : Prop :=
  Grid.good v /\ 0 < Grid.grid_size v /\
  (Grid.loaded v -> source_ready (Grid.img v)).

(** The file chosen in a load can be opened (or the dialog was cancelled). *)
Definition file_opens (env : environment) (path : string) : Prop :=
  path = EmptyString \/ outcome_of (open_source env path no_image) = Ok tt.

Definition grid_load_opens (env : environment) (step : canvas * Grid.action) : Prop :=
  match snd step with
  | Grid.LoadImage path => file_opens env path
  | _ => True
  end.

(** The outcomes of the handlers of a session, one after the other. *)
Fixpoint outcomes {S A} (handle : A -> M S unit) (actions : list A) (st : S)
    : list (outcome unit) :=
  match actions with
  | [] => []
  | a :: rest =>
      let r := handle a st in
      outcome_of r :: outcomes handle rest (state_of r)
  end.

(** ** The tracking viewer between two handlers *)

(** Every source that opens has a positive width and height. *)
Definition env_positive (env : environment) : Prop :=
  (forall path s, OpenSlide env path = Ok s ->
     0 < fst (openslide.dimensions s) /\ 0 < snd (openslide.dimensions s)) /\
  (forall path i, Image_open env path = Ok i -> 0 < PIL.width i /\ 0 < PIL.height i) /\
  (forall path i, tifffile_imread env path = Ok i -> 0 < PIL.width i /\ 0 < PIL.height i).

(** The last level of a slide, [level_dimensions[level_count - 1]], exists
    and is not empty. *)
Definition last_level_ok (dims : list (Z * Z)) (count : Z) : Prop :=
  exists size, py_getitem dims (count - 1) = Ok size /\ 0 < fst size /\ 0 < snd size.

Definition pyramids_ok (env : environment) : Prop :=
  forall path s, OpenSlide env path = Ok s ->
    last_level_ok (openslide.level_dimensions s) (openslide.level_count s).

(** [Image.thumbnail] leaves at least one pixel in each direction. *)
Definition thumbnail_ok (env : environment) : Prop :=
  forall size bound,
    0 < fst size -> 0 < snd size -> 0 < fst bound -> 0 < snd bound ->
    0 < fst (thumbnail env size bound) /\ 0 < snd (thumbnail env size bound).

(** The image that [update_map] makes the thumbnail of is there. *)
Definition thumbnail_source_ready (iv : image_vars) : Prop :=
  if use_openslide iv
  then last_level_ok (level_dimensions iv) (level_count iv)
  else exists i, image iv = Some i /\ 0 < PIL.width i /\ 0 < PIL.height i.

(** The tracking viewer when every load so far has succeeded. *)
Definition map_ready (v : Map.viewer) : Prop :=
  Map.good v /\
  (Map.loaded v ->
     source_ready (Map.img v) /\ thumbnail_source_ready (Map.img v) /\
     snd (slide_dimensions (Map.img v)) <> 0 /\ Map.tracking_allocated v) /\
  (Map.map_thumbnail v <> None ->
     ~ (Map.map_scale_x v == 0)%Q /\ ~ (Map.map_scale_y v == 0)%Q).

Definition map_load_opens (env : environment) (step : canvas * Map.action) : Prop :=
  match snd step with
  | Map.LoadImage path => file_opens env path
  | _ => True
  end.

(** ** Tracking *)

(** Every grid of [G] is still there in [G'], with the same shape and with
    every visited cell still visited. *)
Definition grids_grow (G G' : gmap Z (option np.ndarray)) : Prop :=
  forall p g, G !! p = Some (Some g) ->
    exists g', G' !! p = Some (Some g') /\ np.shape g' = np.shape g /\
      forall i j, np.get g i j = Some true -> np.get g' i j = Some true.

(** Neither a load nor [clear_tracking]. *)
Definition map_view_action (a : Map.action) : Prop :=
  match a with
  | Map.LoadImage _ | Map.ClearTracking => False
  | _ => True
  end.

(** The grids fit the image whenever one is loaded. *)
Definition grids_fit (v : Map.viewer) : Prop :=
  dims_ok (slide_dimensions (Map.img v)) /\
  (Map.loaded v -> Map.tracking_allocated v).

(** ** The navigation map *)

(** The size of the thumbnail that [update_map] makes: of the last level of
    a slide, or of the decoded image, within 290 x 290 pixels. *)
Definition thumbnail_of (env : environment) (iv : image_vars) : outcome (Z * Z) :=
  if use_openslide iv then
    let thumb_level := level_count iv - 1 in
    thumb_size ← py_getitem (level_dimensions iv) thumb_level;
    _ ← not_None (slide iv);
    Ok (thumbnail env thumb_size (290, 290))
  else
    i ← not_None (image iv);
    Ok (thumbnail env (PIL.width i, PIL.height i) (290, 290)).

(** The map shows the thumbnail of the loaded image, at its scale. *)
Definition map_current (env : environment) (v : Map.viewer) : Prop :=
  exists thumb,
    thumbnail_of env (Map.img v) = Ok thumb /\
    Map.map_thumbnail v = Some thumb /\
    Map.map_scale_x v =
      (inject_Z (fst thumb) / inject_Z (fst (slide_dimensions (Map.img v))))%Q /\
    Map.map_scale_y v =
      (inject_Z (snd thumb) / inject_Z (snd (slide_dimensions (Map.img v))))%Q.

(** The rectangle that [update_viewport_rect] draws on the map canvas, as
    (x1, y1, x2, y2); nothing is drawn without an image or a thumbnail. *)
Definition viewport_rect (cv : canvas) (v : Map.viewer)
    : outcome (option (Q * Q * Q * Q)) :=
  if fst (slide_dimensions (Map.img v)) =? 0 then Ok None
  else match Map.map_thumbnail v with
       | None => Ok None
       | Some (thumb_w, thumb_h) =>
           let w := Z.max (winfo_width cv) 1 in
           let h := Z.max (winfo_height cv) 1 in
           view_w ← py_truediv (inject_Z w) (Map.zoom v);
           view_h ← py_truediv (inject_Z h) (Map.zoom v);
           let x1 := (Map.offset_x v * Map.map_scale_x v
                      + (150 - inject_Z thumb_w / 2))%Q in
           let y1 := (Map.offset_y v * Map.map_scale_y v
                      + (150 - inject_Z thumb_h / 2))%Q in
           let x2 := (x1 + view_w * Map.map_scale_x v)%Q in
           let y2 := (y1 + view_h * Map.map_scale_y v)%Q in
           Ok (Some (x1, y1, x2, y2))
       end.

(** [s] has the image and the map of [v]. *)
Definition same_map (v s : Map.viewer) : Prop :=
  Map.img s = Map.img v /\ Map.map_thumbnail s = Map.map_thumbnail v /\
  Map.map_scale_x s = Map.map_scale_x v /\ Map.map_scale_y s = Map.map_scale_y v.

(** ** The grid drawn over the view *)

(** [a % b] on numbers: the remainder has the sign of [b]. *)
Definition py_mod (a b : Q) : outcome Q :=
  if Qeq_bool b 0 then Raise ZeroDivisionError
  else Ok (a - b * inject_Z (Qfloor (a / b)))%Q.

(** What [draw_grid] draws, in canvas coordinates: a line from top to bottom
    or from left to right of the region, the label [Col col] or [Row row]
    centred on the position of a line, and the two text lines
    [Sector] / [(col,row)] centred on a point.  The boxes behind the texts,
    whose sizes are those of the rendered text, are not recorded. *)
Inductive drawing :=
| vertical_line (x : Q) (height : Z)
| col_label (x : Q) (col : Z)
| horizontal_line (y : Q) (width : Z)
| row_label (y : Q) (row : Z)
| sector_text (x y : Q) (col row : Z).

(** The loops of [draw_grid] all have the shape
    [while pos < limit: body; pos += cell; idx += 1].  They end only when
    [cell] is positive, so a round counter bounds them: [None] stands for a
    loop that is still running after [fuel] rounds. *)
Fixpoint sweep {A} (fuel : nat) (limit cell : Q) (body : Q -> Z -> option (list A))
    (pos : Q) (idx : Z) : option (list A) :=
  if Qltb pos limit then
    match fuel with
    | O => None
    | S fuel' =>
        here ← body pos idx;
        rest ← sweep fuel' limit cell body (pos + cell)%Q (idx + 1);
        Some (here ++ rest)
    end
  else Some [].

(** The loop under [# Vertical lines], started at [x] and [col]. *)
Definition vertical_lines (fuel : nat) (w : Z) (img : region) (cell x : Q) (col : Z)
    : option (list drawing) :=
  sweep fuel (inject_Z w) cell
    (fun x col =>
       Some (if Qle_bool 0 x && Qle_bool x (inject_Z (fst (region_size img)))
             then vertical_line x (snd (region_size img))
                  :: (if Qltb 30 x then [col_label x col] else [])
             else []))
    x col.

(** The loop under [# Horizontal lines], started at [y] and [row]. *)
Definition horizontal_lines (fuel : nat) (h : Z) (img : region) (cell y : Q) (row : Z)
    : option (list drawing) :=
  sweep fuel (inject_Z h) cell
    (fun y row =>
       Some (if Qle_bool 0 y && Qle_bool y (inject_Z (snd (region_size img)))
             then horizontal_line y (fst (region_size img))
                  :: (if Qltb 30 y then [row_label y row] else [])
             else []))
    y row.

(** The two nested loops under [# Sector labels], started at [x_start] and
    [col]; the inner loop starts at [y_start] and [row] in every column. *)
Definition sector_labels (fuel : nat) (w h : Z) (img : region) (max_cols max_rows : Z)
    (cell x_start y_start : Q) (col row : Z) : option (list drawing) :=
  sweep fuel (inject_Z w + cell)%Q cell
    (fun x_start col =>
       sweep fuel (inject_Z h + cell)%Q cell
         (fun y_start row =>
            Some (if Qltb 0 x_start && Qltb x_start (inject_Z (fst (region_size img)))
                     && Qltb 0 y_start && Qltb y_start (inject_Z (snd (region_size img)))
                  then if (col <? max_cols) && (row <? max_rows)
                       then [sector_text x_start y_start col row]
                       else []
                  else []))
         y_start row)
    x_start col.

(** [draw_grid(img)], as the list of what is drawn on [img]. *)
Definition draw_grid (fuel : nat) (cv : canvas) (img : region) (v : Grid.viewer)
    : outcome (option (list drawing)) :=
  if negb (Grid.show_grid v) then Ok (Some [])
  else
    let w := Z.max (winfo_width cv) 1 in
    let h := Z.max (winfo_height cv) 1 in
    let cell := (inject_Z (Grid.grid_size v) * Grid.zoom v)%Q in
    mx ← py_mod (Grid.offset_x v) (inject_Z (Grid.grid_size v));
    let ox := (mx * Grid.zoom v)%Q in
    my ← py_mod (Grid.offset_y v) (inject_Z (Grid.grid_size v));
    let oy := (my * Grid.zoom v)%Q in
    fc ← py_floordiv_float (Grid.offset_x v) (inject_Z (Grid.grid_size v));
    let first_col := py_int fc in
    fr ← py_floordiv_float (Grid.offset_y v) (inject_Z (Grid.grid_size v));
    let first_row := py_int fr in
    Ok (verticals ← vertical_lines fuel w img cell (- ox)%Q first_col;
        horizontals ← horizontal_lines fuel h img cell (- oy)%Q first_row;
        sectors ←
          (if Qle_bool 0.3 (Grid.zoom v) then
             sector_labels fuel w h img (Grid.max_cols v) (Grid.max_rows v) cell
               (- ox + cell / 2)%Q (- oy + cell / 2)%Q first_col first_row
           else Some []);
        Some (verticals ++ horizontals ++ sectors)).

(** The canvas coordinate of an image coordinate, along x and along y. *)
Definition canvas_x (v : Grid.viewer) (image_x : Q) : Q :=
  ((image_x - Grid.offset_x v) * Grid.zoom v)%Q.
Definition canvas_y (v : Grid.viewer) (image_y : Q) : Q :=
  ((image_y - Grid.offset_y v) * Grid.zoom v)%Q.

(** ** The tracking overlay of the map *)

(** [tracking_colors] of [__init__]: green, blue, orange and red. *)
Definition tracking_colors : gmap Z (Z * Z * Z * Z) :=
  <[10 := (0, 200, 0, 100)]>
    (<[40 := (0, 100, 255, 100)]>
       (<[60 := (255, 165, 0, 100)]> (<[80 := (255, 0, 0, 100)]> ∅))).

(** [d[k]] on a dict. *)
Definition py_dict_getitem {V} (d : gmap Z V) (k : Z) : outcome V :=
  match d !! k with
  | Some x => Ok x
  | None => Raise KeyError
  end.

(** [a[i, j]] on an array. *)
Definition np_getitem (a : np.ndarray) (i j : nat) : outcome bool :=
  match np.get a i j with
  | Some b => Ok b
  | None => Raise IndexError
  end.

(** [for x in l: body], collecting what each round draws. *)
Fixpoint draw_each {A B} (l : list A) (body : A -> outcome (list B))
    : outcome (list B) :=
  match l with
  | [] => Ok []
  | x :: rest =>
      here ← body x;
      more ← draw_each rest body;
      Ok (here ++ more)
  end.

(** The rectangle that the overlay draws for the cell in row [i] and column
    [j] of a grid, as (x1, y1, x2, y2) on the thumbnail. *)
Definition cell_rectangle (v : Map.viewer) (i j : nat) : Q * Q * Q * Q :=
  let img_x1 := Z.of_nat j * Map.grid_cell_size in
  let img_y1 := Z.of_nat i * Map.grid_cell_size in
  let img_x2 := (Z.of_nat j + 1) * Map.grid_cell_size in
  let img_y2 := (Z.of_nat i + 1) * Map.grid_cell_size in
  (inject_Z img_x1 * Map.map_scale_x v, inject_Z img_y1 * Map.map_scale_y v,
   inject_Z img_x2 * Map.map_scale_x v, inject_Z img_y2 * Map.map_scale_y v)%Q.

(** The filled rectangles of the tracking overlay that [update_map] draws,
    each with its colour, in the order in which they are drawn. *)
Definition tracking_overlay (v : Map.viewer)
    : outcome (list (Q * Q * Q * Q * (Z * Z * Z * Z))) :=
  draw_each Map.tracking_levels (fun percent =>
    entry ← py_dict_getitem (Map.tracking_grids v) percent;
    match entry with
    | None => Ok []
    | Some grid =>
        color ← py_dict_getitem tracking_colors percent;
        draw_each (seq 0 (Z.to_nat (fst (np.shape grid)))) (fun i =>
          draw_each (seq 0 (Z.to_nat (snd (np.shape grid)))) (fun j =>
            visited ← np_getitem grid i j;
            if visited : bool then Ok [(cell_rectangle v i j, color)]
            else Ok []))
    end).

(** * Proofs *)

(** Rational arithmetic stays folded during symbolic execution. *)
#[local] Arguments Qplus : simpl never.
#[local] Arguments Qminus : simpl never.
#[local] Arguments Qmult : simpl never.
#[local] Arguments Qdiv : simpl never.
#[local] Arguments Qinv : simpl never.
#[local] Arguments Qopp : simpl never.
#[local] Arguments Qabs : simpl never.
#[local] Arguments Qmin : simpl never.
#[local] Arguments Qmax : simpl never.
#[local] Arguments Qfloor : simpl never.
#[local] Arguments Qeq_bool : simpl never.
#[local] Arguments Qle_bool : simpl never.
#[local] Arguments inject_Z : simpl never.
#[local] Arguments py_int : simpl never.
#[local] Arguments py_truediv : simpl never.
#[local] Arguments Qltb : simpl never.
#[local] Arguments Z.min : simpl never.
#[local] Arguments Z.max : simpl never.
#[local] Arguments Z.div : simpl never.
#[local] Arguments Z.mul : simpl never.
#[local] Arguments Z.add : simpl never.
#[local] Arguments Z.sub : simpl never.

(** * Facts about Python numbers *)

(** Linear arithmetic on rationals, after divisions by a constant have been
    turned into multiplications. *)
Ltac inv_consts :=
  repeat match goal with
    | |- context [Qinv (Qmake ?n ?d)] =>
        let v := eval vm_compute in (Qinv (Qmake n d)) in
        change (Qinv (Qmake n d)) with v in *
    | H : context [Qinv (Qmake ?n ?d)] |- _ =>
        let v := eval vm_compute in (Qinv (Qmake n d)) in
        change (Qinv (Qmake n d)) with v in *
    end.
Ltac qlra := unfold Qdiv in *; inv_consts; lra.

Lemma py_int_floor q : (0 <= q)%Q -> py_int q = Qfloor q.
Proof.
  destruct q as [n d]. unfold Qle, py_int, Qfloor. simpl. intros H.
  apply Z.quot_div_nonneg; lia.
Qed.

Lemma py_int_inject z : py_int (inject_Z z) = z.
Proof. unfold py_int, inject_Z. cbn. apply Z.quot_1_r. Qed.

Lemma py_int_nonneg q : (0 <= q)%Q -> 0 <= py_int q.
Proof.
  intros H. rewrite py_int_floor by done.
  rewrite <- (Qfloor_Z 0). by apply Qfloor_resp_le.
Qed.

Lemma py_int_mono a b : (0 <= a)%Q -> (a <= b)%Q -> py_int a <= py_int b.
Proof.
  intros Ha Hab. rewrite !py_int_floor; [by apply Qfloor_resp_le| |done].
  by apply Qle_trans with a.
Qed.

Lemma inject_Z_le a b : a <= b -> (inject_Z a <= inject_Z b)%Q.
Proof. intros. by rewrite <- Zle_Qle. Qed.

Lemma Qltb_lt a b : Qltb a b = true <-> (a < b)%Q.
Proof.
  unfold Qltb. rewrite negb_true_iff. split.
  - intros H. apply Qnot_le_lt. intros Hle. apply Qle_bool_iff in Hle. congruence.
  - intros H. destruct (Qle_bool b a) eqn:E; [|done].
    apply Qle_bool_iff in E. apply Qle_not_lt in E. contradiction.
Qed.

Lemma Qltb_ge a b : Qltb a b = false <-> (b <= a)%Q.
Proof.
  unfold Qltb. rewrite negb_false_iff. apply Qle_bool_iff.
Qed.

Lemma py_truediv_ok a b : ~ (b == 0)%Q -> py_truediv a b = Ok (a / b)%Q.
Proof.
  intros H. unfold py_truediv. destruct (Qeq_bool b 0) eqn:E; [|done].
  apply Qeq_bool_eq in E. contradiction.
Qed.

(** * [get_best_level] *)

Lemma Qabs_below a t : (a <= t)%Q -> (Qabs (a - t) == t - a)%Q.
Proof. intros H. rewrite Qabs_neg by lra. lra. Qed.

Lemma Qabs_above a t : (t <= a)%Q -> (Qabs (a - t) == a - t)%Q.
Proof. intros H. rewrite Qabs_pos by lra. lra. Qed.

Lemma best_level_loop_spec t ds rest : forall pre min_diff b d,
  ds = pre ++ rest ->
  ds !! b = Some d ->
  min_diff = Qabs (d - t) ->
  (forall j dj, (j < length pre)%nat -> ds !! j = Some dj ->
     (Qabs (d - t) <= Qabs (dj - t))%Q) ->
  (forall j dj, (j < b)%nat -> ds !! j = Some dj ->
     (Qabs (d - t) < Qabs (dj - t))%Q) ->
  exists b',
    best_level_loop t rest (Z.of_nat (length pre)) min_diff (Z.of_nat b)
      = Z.of_nat b' /\ first_argmin t ds b'.
Proof.
  induction rest as [|x rest IH]; intros pre min_diff b d Hds Hb Hmin Hle Hlt.
  - exists b. split; [done|]. exists d. split; [done|]. split; [|done].
    intros j dj Hj. apply (Hle j dj); [|done].
    apply lookup_lt_Some in Hj. rewrite Hds, length_app in Hj. simpl in Hj. lia.
  - cbn [best_level_loop].
    assert (Hx : ds !! length pre = Some x).
    { rewrite Hds. by rewrite list_lookup_middle. }
    assert (Hds' : ds = (pre ++ [x]) ++ rest) by (by rewrite <- app_assoc).
    assert (Hlen : Z.of_nat (length pre) + 1 = Z.of_nat (length (pre ++ [x]))).
    { rewrite length_app. simpl. lia. }
    rewrite Hlen. destruct (Qltb (Qabs (x - t)) min_diff) eqn:E.
    + apply Qltb_lt in E. subst min_diff.
      apply (IH (pre ++ [x]) _ (length pre) x Hds' Hx eq_refl).
      * intros j dj Hj Hdj. rewrite length_app in Hj. simpl in Hj.
        destruct (decide (j = length pre)) as [->|Hne].
        -- rewrite Hx in Hdj. injection Hdj as <-. apply Qle_refl.
        -- apply Qlt_le_weak. eapply Qlt_le_trans; [exact E|].
           apply (Hle j dj); [lia|done].
      * intros j dj Hj Hdj. eapply Qlt_le_trans; [exact E|].
        by apply (Hle j dj).
    + apply Qltb_ge in E. subst min_diff.
      apply (IH (pre ++ [x]) _ b d Hds' Hb eq_refl); [|done].
      intros j dj Hj Hdj. rewrite length_app in Hj. simpl in Hj.
      destruct (decide (j = length pre)) as [->|Hne].
      * rewrite Hx in Hdj. by injection Hdj as <-.
      * apply (Hle j dj); [lia|done].
Qed.

Lemma get_best_level_flat iv zoom :
  use_openslide iv = false -> get_best_level iv zoom = Ok 0.
Proof. intros H. unfold get_best_level. by rewrite H. Qed.

Lemma get_best_level_pyramid iv zoom :
  use_openslide iv = true ->
  level_downsamples iv <> [] ->
  ~ (zoom == 0)%Q ->
  exists i, get_best_level iv zoom = Ok (Z.of_nat i) /\
            first_argmin (1 / zoom) (level_downsamples iv) i.
Proof.
  intros Hu Hne Hz. unfold get_best_level. rewrite Hu. simpl.
  rewrite py_truediv_ok by done. simpl.
  destruct (level_downsamples iv) as [|d0 ds] eqn:Hds; [done|].
  unfold py_getitem. simpl.
  destruct (best_level_loop_spec (1 / zoom) (d0 :: ds) (d0 :: ds) []
              (Qabs (d0 - 1 / zoom)) 0%nat d0) as (b' & Hb' & Harg);
    try done.
  - simpl. intros; lia.
  - intros; lia.
  - exists b'. split; [|done]. f_equal. exact Hb'.
Qed.

Ltac abs_side a t :=
  first [ pose proof (Qabs_below a t ltac:(qlra))
        | pose proof (Qabs_above a t ltac:(qlra)) ].

(** Name the side of the distances that occur in the hypotheses, until the
    goal follows. *)
Ltac abs_sides :=
  repeat (match goal with
          | H : context [Qabs (?a - ?t)] |- _ =>
              lazymatch goal with
              | _ : (Qabs (a - t) == _)%Q |- _ => fail
              | _ => abs_side a t
              end
          end; try qlra).

Lemma first_argmin_between t ds i di di1 r :
  increasing ds ->
  ds !! i = Some di ->
  ds !! S i = Some di1 ->
  first_argmin t ds r ->
  ((di <= t /\ t <= (di + di1) / 2)%Q -> r = i) /\
  (((di + di1) / 2 < t /\ t <= di1)%Q -> r = S i).
Proof.
  intros Hinc Hi Hi1 (d & Hr & Hmin & Hfirst).
  pose proof (Hinc i (S i) di di1 ltac:(lia) Hi Hi1) as Hlt.
  pose proof (Hmin i di Hi) as Hmi. pose proof (Hmin (S i) di1 Hi1) as Hmi1.
  assert (Hlow : (r < i)%nat -> (d < di)%Q) by (intros; by eapply Hinc).
  assert (Hhigh : (S i < r)%nat -> (di1 < d)%Q) by (intros; by eapply Hinc).
  split; intros [H1 H2].
  - destruct (lt_eq_lt_dec r i) as [[Hri|Hri]|Hri]; [|done|]; exfalso.
    + specialize (Hlow Hri). abs_sides.
    + destruct (decide (r = S i)) as [->|Hne].
      * pose proof (Hfirst i di ltac:(lia) Hi) as Hf. simplify_eq.
        abs_sides.
      * specialize (Hhigh ltac:(lia)). abs_sides.
  - destruct (lt_eq_lt_dec r (S i)) as [[Hri|Hri]|Hri]; [|done|]; exfalso.
    + destruct (decide (r = i)) as [->|Hne].
      * simplify_eq. abs_sides.
      * specialize (Hlow ltac:(lia)). abs_sides.
    + specialize (Hhigh Hri). abs_sides.
Qed.

(** * Rules of the program logic *)

Section Logic.
Context {S : Type} {I : S -> Prop} {ev_ok : event -> Prop} {ex_ok : exn -> Prop}.

Lemma at_ret {A} (a : A) st : I st -> holds_at I ev_ok ex_ok (mret a) st.
Proof. intros H. repeat split; [done | constructor]. Qed.

Lemma at_modify f st : I (f st) -> holds_at I ev_ok ex_ok (modify f) st.
Proof. intros H. repeat split; [done | constructor]. Qed.

Lemma at_lift {A} (o : outcome A) st :
  I st -> (forall e, o = Raise e -> ex_ok e) ->
  holds_at I ev_ok ex_ok (lift o) st.
Proof.
  intros H Hex. repeat split; [done | constructor |].
  simpl. destruct o; [done | by apply Hex].
Qed.

Lemma at_tell e st : I st -> ev_ok e -> holds_at I ev_ok ex_ok (tell e) st.
Proof. intros H He. repeat split; [done | by repeat constructor]. Qed.

(** Sequencing through an intermediate invariant [J]. *)
Lemma at_bind {A B} (J : S -> Prop) (m : M S A) (k : A -> M S B) st :
  holds_at J ev_ok ex_ok m st ->
  (forall st', J st' -> I st') ->
  (forall a st', J st' -> holds_at I ev_ok ex_ok (k a) st') ->
  holds_at I ev_ok ex_ok (m ≫= k) st.
Proof.
  intros (HJ & Hev & Hex) HJI Hk. unfold holds_at, mbind, M_bind. simpl.
  destruct (outcome_of (m st)) as [a|e].
  - destruct (Hk a _ HJ) as (HI' & Hev' & Hex'). simpl.
    repeat split; [done | by apply Forall_app | done].
  - simpl. repeat split; [by apply HJI | done | done].
Qed.

Lemma at_bind_get {B} (k : S -> M S B) st :
  holds_at I ev_ok ex_ok (k st) st -> holds_at I ev_ok ex_ok (get ≫= k) st.
Proof.
  intros (HI & Hev & Hex). unfold holds_at, mbind, M_bind. simpl.
  repeat split; done.
Qed.

Lemma at_bind_modify {B} f (k : unit -> M S B) st :
  holds_at I ev_ok ex_ok (k tt) (f st) ->
  holds_at I ev_ok ex_ok (modify f ≫= k) st.
Proof.
  intros (HI & Hev & Hex). unfold holds_at, mbind, M_bind. simpl.
  repeat split; done.
Qed.

Lemma at_bind_lift {A B} (o : outcome A) (k : A -> M S B) st :
  match o with
  | Ok a => holds_at I ev_ok ex_ok (k a) st
  | Raise e => I st /\ ex_ok e
  end ->
  holds_at I ev_ok ex_ok (lift o ≫= k) st.
Proof.
  unfold holds_at, mbind, M_bind. simpl. destruct o as [a|e]; simpl.
  - intros (HI & Hev & Hex). repeat split; done.
  - intros [HI Hex]. repeat split; [done | constructor | done].
Qed.

Lemma at_bind_tell {B} e (k : unit -> M S B) st :
  ev_ok e -> holds_at I ev_ok ex_ok (k tt) st ->
  holds_at I ev_ok ex_ok (tell e ≫= k) st.
Proof.
  intros He (HI & Hev & Hex). unfold holds_at, mbind, M_bind. simpl.
  repeat split; [done | by constructor | done].
Qed.

Lemma at_try {A} (ex_body : exn -> Prop) (body : M S A) catches handler st :
  holds_at I ev_ok ex_body body st ->
  (forall e st', I st' -> ex_body e -> catches e = true ->
     holds_at I ev_ok ex_ok (handler e) st') ->
  (forall e, ex_body e -> catches e = false -> ex_ok e) ->
  holds_at I ev_ok ex_ok (try_except body catches handler) st.
Proof.
  intros (HI & Hev & Hex) Hh Hpass. unfold holds_at, try_except.
  destruct (outcome_of (body st)) as [a|e] eqn:E.
  - rewrite E. repeat split; done.
  - destruct (catches e) eqn:Ec.
    + destruct (Hh e _ HI Hex Ec) as (HI' & Hev' & Hex'). simpl.
      repeat split; [done | by apply Forall_app | done].
    + rewrite E. repeat split; [done | done | by apply Hpass].
Qed.

Lemma at_zoom {T A} (J : T -> Prop) (proj : S -> T) (inj : T -> S -> S)
    (m : M T A) st :
  holds_at J ev_ok ex_ok m (proj st) ->
  (forall t, J t -> I (inj t st)) ->
  holds_at I ev_ok ex_ok (zoom_state proj inj m) st.
Proof.
  intros (HJ & Hev & Hex) Hinj. unfold holds_at, zoom_state. simpl.
  repeat split; [by apply Hinj | done | done].
Qed.

Lemma at_for_each {A} (l : list A) (body : A -> M S unit) st :
  I st ->
  (forall x, x ∈ l -> maintains I ev_ok ex_ok (body x)) ->
  holds_at I ev_ok ex_ok (for_each l body) st.
Proof.
  revert st. induction l as [|x l IH]; intros st HI Hbody; simpl.
  - by apply at_ret.
  - apply (at_bind I).
    + apply Hbody; [left | done].
    + done.
    + intros _ st' HI'. apply IH; [done|].
      intros y Hy. apply Hbody. by right.
Qed.

Lemma at_run {A} (handle : A -> M S unit) (P : A -> Prop) (l : list A) st :
  I st ->
  (forall a, P a -> maintains I ev_ok any_exn (handle a)) ->
  Forall P l ->
  holds_at I ev_ok any_exn (run handle l) st.
Proof.
  intros HI Hh Hl. revert st HI.
  induction Hl as [|a l Ha Hl IH]; intros st HI; simpl.
  - repeat split; [done | constructor].
  - destruct (Hh a Ha st HI) as (HI' & Hev' & _).
    destruct (IH _ HI') as (HI'' & Hev'' & _).
    unfold holds_at. simpl.
    repeat split; [done | by apply Forall_app |].
    by destruct (outcome_of _).
Qed.
End Logic.

(** One step of symbolic execution. *)
Ltac mstep :=
  cbv beta zeta iota;
  lazymatch goal with
  | |- holds_at _ _ _ (get ≫= _) _ => apply at_bind_get
  | |- holds_at _ _ _ (modify _ ≫= _) _ => apply at_bind_modify
  | |- holds_at _ _ _ (tell _ ≫= _) _ => apply at_bind_tell
  | |- holds_at _ _ _ (lift _ ≫= _) _ => apply at_bind_lift
  | |- holds_at _ _ _ (mret _) _ => apply at_ret
  | |- holds_at _ _ _ (modify _) _ => apply at_modify
  | |- holds_at _ _ _ (tell _) _ => apply at_tell
  | |- holds_at _ _ _ (if ?c then _ else _) _ => destruct c eqn:?
  | |- holds_at _ _ _ ((if ?c then _ else _) ≫= _) _ => destruct c eqn:?
  end.

(** * The viewport clamp *)

Lemma Qdiv_nonneg a b : (0 <= a)%Q -> (0 < b)%Q -> (0 <= a / b)%Q.
Proof. intros Ha Hb. apply Qle_shift_div_l; [done | lra]. Qed.

Lemma view_size_bounds c z px :
  0 <= px -> (0 < z)%Q -> 0 <= view_size c z px <= px.
Proof.
  intros Hpx Hz. unfold view_size. split; [|lia].
  apply Z.min_glb; [|done]. apply py_int_nonneg, Qdiv_nonneg; [|done].
  change 0%Q with (inject_Z 0). apply inject_Z_le. lia.
Qed.

Lemma clamp_offset_bounds o px v :
  0 <= v <= px ->
  (0 <= clamp_offset o px v /\ clamp_offset o px v + inject_Z v <= inject_Z px)%Q.
Proof.
  intros Hv. unfold clamp_offset. split; [apply Q.le_max_l|].
  assert (Hd : (0 <= inject_Z (px - v))%Q).
  { change 0%Q with (inject_Z 0). apply inject_Z_le. lia. }
  assert (Hm : (Qmax 0 (Qmin o (inject_Z (px - v))) <= inject_Z (px - v))%Q).
  { apply Q.max_lub; [done | apply Q.le_min_r]. }
  unfold Z.sub in Hm. rewrite inject_Z_plus, inject_Z_opp in Hm.
  unfold Z.sub. rewrite inject_Z_plus, inject_Z_opp. lra.
Qed.

Lemma zoom_in_range_pos z : zoom_in_range z -> (0 < z)%Q.
Proof. intros [H _]. lra. Qed.

Lemma zoom_in_range_nonzero z : zoom_in_range z -> ~ (z == 0)%Q.
Proof. intros [H _] E. rewrite E in H. lra. Qed.

(** The rectangle that [update_view] hands to [read_region]. *)
Lemma clamped_read_in_bounds dims cv z ox oy :
  dims_ok dims -> zoom_in_range z ->
  read_in_bounds
    (read_region_call dims
       (clamp_offset ox (fst dims) (view_size (winfo_width cv) z (fst dims)))
       (clamp_offset oy (snd dims) (view_size (winfo_height cv) z (snd dims)))
       (inject_Z (view_size (winfo_width cv) z (fst dims)))
       (inject_Z (view_size (winfo_height cv) z (snd dims))) z).
Proof.
  intros [Hw Hh] Hz. apply zoom_in_range_pos in Hz.
  pose proof (view_size_bounds (winfo_width cv) z _ Hw Hz) as Hvw.
  pose proof (view_size_bounds (winfo_height cv) z _ Hh Hz) as Hvh.
  destruct (clamp_offset_bounds ox _ _ Hvw) as [Hx1 Hx2].
  destruct (clamp_offset_bounds oy _ _ Hvh) as [Hy1 Hy2].
  simpl. repeat split; try done.
  - change 0%Q with (inject_Z 0). apply inject_Z_le. lia.
  - change 0%Q with (inject_Z 0). apply inject_Z_le. lia.
Qed.

Lemma call_read_region_holds {S} (I : S -> Prop) ev_ok (img : S -> image_vars)
    x y w h z st :
  I st ->
  ev_ok (read_region_call (slide_dimensions (img st)) x y w h z) ->
  holds_at I ev_ok any_exn (call_read_region img x y w h z) st.
Proof.
  intros HI Hr. unfold call_read_region.
  mstep. mstep; [done|]. by apply at_lift.
Qed.

Lemma any_exn_intro e : any_exn e.
Proof. exact Logic.I. Qed.

Lemma any_event_intro e : any_event e.
Proof. exact Logic.I. Qed.

#[local] Hint Resolve any_exn_intro any_event_intro : core.

(** Symbolic execution until a call of another method is met. *)
Ltac mstep_lift :=
  lazymatch goal with
  | |- holds_at _ _ _ (lift ?o ≫= _) _ =>
      apply at_bind_lift; destruct o eqn:?; [|split; [try done | auto]]
  | |- holds_at _ _ _ (lift ?o) _ => apply at_lift; [try done | auto]
  end.

Ltac msteps := repeat first [ mstep_lift | mstep; try done ].

(** ** [GridOmeroOpen.py] *)

(** What [update_view] establishes from a given state: [I] has to hold where
    the method can stop, and [ev_ok] for the call of [read_region] it makes
    with the clamped offsets. *)
Lemma grid_update_view_at (I : Grid.viewer -> Prop) ev_ok cv st :
  let dims := slide_dimensions (Grid.img st) in
  let z := Grid.zoom st in
  let view_w := view_size (winfo_width cv) z (fst dims) in
  let view_h := view_size (winfo_height cv) z (snd dims) in
  let cx := clamp_offset (Grid.offset_x st) (fst dims) view_w in
  let cy := clamp_offset (Grid.offset_y st) (snd dims) view_h in
  (fst dims = 0 \/ (z == 0)%Q -> I st) ->
  (fst dims <> 0 -> ~ (z == 0)%Q ->
     I (Grid.with_offset_y cy (Grid.with_offset_x cx st)) /\
     ev_ok (read_region_call dims cx cy (inject_Z view_w) (inject_Z view_h) z)) ->
  (forall x s, I s -> I (Grid.with_lbl_sector x s)) ->
  (forall r, ev_ok (canvas_create_image r)) ->
  holds_at I ev_ok any_exn (Grid.update_view cv) st.
Proof.
  intros dims z view_w view_h cx cy Hstop Hgo Hl Hcanvas.
  unfold Grid.update_view. mstep. mstep.
  { mstep. apply Hstop. left. by apply Z.eqb_eq. }
  unfold py_truediv. destruct (Qeq_bool (Grid.zoom st) 0) eqn:Ez.
  { apply at_bind_lift. split; [|auto]. apply Hstop. right. by apply Qeq_bool_eq. }
  apply Qeq_bool_neq in Ez.
  destruct Hgo as [HI Hread]; [by apply Z.eqb_neq | done |].
  do 5 mstep. apply (at_bind I); [|done|].
  { by apply call_read_region_holds. }
  intros r st' HI'. msteps; auto.
Qed.

(** [update_view] keeps every property of the object that does not depend
    on the offsets and the sector label. *)
Lemma grid_update_view_holds (I : Grid.viewer -> Prop) cv :
  (forall x st, I st -> I (Grid.with_offset_x x st)) ->
  (forall x st, I st -> I (Grid.with_offset_y x st)) ->
  (forall x st, I st -> I (Grid.with_lbl_sector x st)) ->
  maintains I any_event any_exn (Grid.update_view cv).
Proof.
  intros Hx Hy Hl st HI. apply grid_update_view_at; auto.
Qed.

Lemma grid_update_view_good cv :
  maintains Grid.good read_in_bounds any_exn (Grid.update_view cv).
Proof.
  intros st Hgood. apply grid_update_view_at; try done.
  intros _ _. split; [done|]. destruct Hgood. by apply clamped_read_in_bounds.
Qed.

Lemma zoom_in_range_in z : zoom_in_range z -> zoom_in_range (Qmin (z * 1.5) 10.0).
Proof.
  intros [H1 H2]. unfold zoom_in_range.
  destruct (Q.min_spec (z * 1.5) 10.0) as [[L E]|[L E]]; rewrite E; lra.
Qed.

Lemma zoom_in_range_out z : zoom_in_range z -> zoom_in_range (Qmax (z / 1.5) 0.05).
Proof.
  intros [H1 H2]. unfold zoom_in_range.
  destruct (Q.max_spec (z / 1.5) 0.05) as [[L E]|[L E]]; rewrite E; qlra.
Qed.

Lemma zoom_in_range_1 : zoom_in_range 1.0.
Proof. unfold zoom_in_range. lra. Qed.

(** Call a method for which the invariant is already known. *)
Ltac mcall lem :=
  lazymatch goal with
  | |- holds_at ?I _ _ (_ ≫= _) _ =>
      apply (at_bind I); [apply lem; try done | done | intros ? ? ?]
  | |- holds_at _ _ _ _ _ => apply lem; try done
  end.

Lemma grid_update_info_good :
  maintains Grid.good read_in_bounds any_exn Grid.update_info.
Proof. intros st Hgood. unfold Grid.update_info. msteps. Qed.

Lemma open_source_dims env path :
  env_ok env ->
  maintains (fun iv => dims_ok (slide_dimensions iv)) read_in_bounds any_exn
    (open_source env path).
Proof.
  intros (Hs & Hi & Ht) iv Hd. unfold open_source. mstep.
  apply (at_bind (fun iv => dims_ok (slide_dimensions iv))); [|done|].
  { destruct (slide iv); msteps. }
  intros _ iv1 Hd1. do 3 mstep.
  apply (at_bind (fun iv => dims_ok (slide_dimensions iv))); [|done|].
  { mstep; [|by mstep].
    apply (at_try any_exn); [| |done].
    - apply at_bind_lift. destruct (OpenSlide env path) as [s|e] eqn:E; [|done].
      msteps. simpl. by apply (Hs path).
    - intros e st' Hst' _ _. by mstep. }
  intros _ iv2 Hd2. mstep. mstep; [|by mstep].
  destruct (endswith_any path tiff_extensions).
  - apply at_bind_lift. destruct (tifffile_imread env path) as [i|e] eqn:E; [|done].
    msteps. simpl. by apply (Ht path).
  - apply at_bind_lift. destruct (Image_open env path) as [i|e] eqn:E; [|done].
    msteps. simpl. by apply (Hi path).
Qed.

Lemma grid_reset_good cv : maintains Grid.good read_in_bounds any_exn (Grid.reset cv).
Proof.
  intros st [Hz Hd]. unfold Grid.reset. do 3 mstep.
  mcall grid_update_view_good.
Qed.

Lemma grid_load_image_good env cv path :
  env_ok env ->
  maintains Grid.good read_in_bounds any_exn (Grid.load_image env cv path).
Proof.
  intros Henv st Hgood. unfold Grid.load_image. mstep; [by mstep|].
  apply (at_try any_exn); [| |done].
  - apply (at_bind Grid.good); [|done|].
    { apply (at_zoom (fun iv => dims_ok (slide_dimensions iv))).
      - apply open_source_dims; [done | apply Hgood].
      - intros t Ht. split; [apply Hgood | done]. }
    intros _ st1 Hst1. mcall grid_update_info_good.
    mcall grid_reset_good. msteps.
  - intros e st' Hst' _ _. msteps.
Qed.

Lemma grid_handle_good env step :
  env_ok env ->
  maintains Grid.good read_in_bounds any_exn (Grid.handle env step).
Proof.
  intros Henv. destruct step as [cv a]. unfold Grid.handle. simpl.
  destruct a as [path| |size|spin_col spin_row| | |e_x e_y|e_x e_y|].
  - by apply grid_load_image_good.
  - intros st Hgood. unfold Grid.toggle_grid. do 2 mstep.
    by mcall grid_update_view_good.
  - intros st Hgood. unfold Grid.set_grid_size. mstep.
    mcall grid_update_info_good. by mcall grid_update_view_good.
  - intros st Hgood. unfold Grid.goto_sector. mstep. mstep; [by mstep|].
    apply (at_try any_exn); [| |done].
    + mstep_lift. mstep_lift. mstep; [by mstep|].
      rewrite !(py_truediv_ok _ _ (zoom_in_range_nonzero _ (proj1 Hgood))).
      do 4 mstep. by mcall grid_update_view_good.
    + intros e st' Hst' _ _. by mstep.
  - intros st Hgood. unfold Grid.zoom_in. mstep. mstep; [by mstep|].
    do 2 mstep.
    assert (Hgood' : Grid.good (Grid.with_zoom (Qmin (Grid.zoom st * 1.5) 10.0) st)).
    { split; [apply zoom_in_range_in, Hgood | apply Hgood]. }
    apply (at_bind Grid.good); [|done|].
    { mstep; [|by mstep]. msteps. }
    intros _ st' Hst'. by mcall grid_update_view_good.
  - intros st Hgood. unfold Grid.zoom_out. mstep. mstep; [by mstep|].
    do 2 mstep.
    assert (Hgood' : Grid.good (Grid.with_zoom (Qmax (Grid.zoom st / 1.5) 0.05) st)).
    { split; [apply zoom_in_range_out, Hgood | apply Hgood]. }
    apply (at_bind Grid.good); [|done|].
    { mstep; [|by mstep]. msteps. }
    intros _ st' Hst'. by mcall grid_update_view_good.
  - intros st Hgood. unfold Grid.button_press. by mstep.
  - intros st Hgood. unfold Grid.pan. mstep.
    destruct (Grid.pan_start st) as [[sx sy]|]; [|by mstep].
    mstep; [by mstep|].
    rewrite !(py_truediv_ok _ _ (zoom_in_range_nonzero _ (proj1 Hgood))).
    do 5 mstep. by mcall grid_update_view_good.
  - by apply grid_reset_good.
Qed.

(** ** [MapOmero.py] *)

(** [mark_visited] only assigns [tracking_grids]. *)
Lemma map_mark_visited_holds (I : Map.viewer -> Prop) ev_ok cv :
  (forall x st, I st -> I (Map.with_tracking_grids x st)) ->
  maintains I ev_ok any_exn (Map.mark_visited cv).
Proof.
  intros Hg st HI. unfold Map.mark_visited. mstep. mstep; [by mstep|].
  mstep_lift. destruct (Map.tracking_grids st !! a); msteps. by apply Hg.
Qed.

Lemma map_update_viewport_rect_holds (I : Map.viewer -> Prop) ev_ok cv :
  maintains I ev_ok any_exn (Map.update_viewport_rect cv).
Proof.
  intros st HI. unfold Map.update_viewport_rect. mstep. mstep; [by mstep|].
  destruct (Map.map_thumbnail st); msteps.
Qed.

(** [update_map] only assigns the thumbnail and its scale. *)
Lemma map_update_map_holds (I : Map.viewer -> Prop) ev_ok env cv :
  (forall x st, I st -> I (Map.with_map_scale_x x st)) ->
  (forall x st, I st -> I (Map.with_map_scale_y x st)) ->
  (forall x st, I st -> I (Map.with_map_thumbnail x st)) ->
  maintains I ev_ok any_exn (Map.update_map env cv).
Proof.
  intros Hx Hy Ht st HI. unfold Map.update_map. mstep. mstep; [by mstep|].
  mstep_lift. mstep_lift. mstep. mstep_lift; [|auto]. do 2 mstep.
  apply map_update_viewport_rect_holds. auto.
Qed.

Lemma map_update_view_at (I : Map.viewer -> Prop) ev_ok env cv st :
  let dims := slide_dimensions (Map.img st) in
  let z := Map.zoom st in
  let view_w := view_size (winfo_width cv) z (fst dims) in
  let view_h := view_size (winfo_height cv) z (snd dims) in
  let cx := clamp_offset (Map.offset_x st) (fst dims) view_w in
  let cy := clamp_offset (Map.offset_y st) (snd dims) view_h in
  (fst dims = 0 \/ (z == 0)%Q -> I st) ->
  (fst dims <> 0 -> ~ (z == 0)%Q ->
     I (Map.with_offset_y cy (Map.with_offset_x cx st)) /\
     ev_ok (read_region_call dims cx cy (inject_Z view_w) (inject_Z view_h) z)) ->
  (forall x s, I s -> I (Map.with_tracking_grids x s)) ->
  (forall x s, I s -> I (Map.with_map_scale_x x s)) ->
  (forall x s, I s -> I (Map.with_map_scale_y x s)) ->
  (forall x s, I s -> I (Map.with_map_thumbnail x s)) ->
  (forall r, ev_ok (canvas_create_image r)) ->
  holds_at I ev_ok any_exn (Map.update_view env cv) st.
Proof.
  intros dims z view_w view_h cx cy Hstop Hgo Hg Hsx Hsy Hth Hcanvas.
  unfold Map.update_view. mstep. mstep.
  { mstep. apply Hstop. left. by apply Z.eqb_eq. }
  unfold py_truediv. destruct (Qeq_bool (Map.zoom st) 0) eqn:Ez.
  { apply at_bind_lift. split; [|auto]. apply Hstop. right. by apply Qeq_bool_eq. }
  apply Qeq_bool_neq in Ez.
  destruct Hgo as [HI Hread]; [by apply Z.eqb_neq | done |].
  do 4 mstep.
  apply (at_bind (fun s => I s /\ Map.img s = Map.img st /\
                           Map.zoom s = Map.zoom st /\
                           Map.offset_x s = cx /\ Map.offset_y s = cy)).
  { apply map_mark_visited_holds.
    - intros x s (H1 & H2); split; [auto | done].
    - repeat split; auto. }
  { by intros s [H _]. }
  intros _ s (HIs & Himg & Hzoom & Hox & Hoy). mstep.
  apply (at_bind I); [|done|].
  { apply call_read_region_holds; [done|]. by rewrite Hox, Hoy, Hzoom, Himg. }
  intros r s' HIs'. mstep; [done|].
  by apply map_update_map_holds.
Qed.

(** [update_view] keeps every property of the object that does not depend
    on the offsets, the tracking grids and the map. *)
Lemma map_update_view_holds (I : Map.viewer -> Prop) env cv :
  (forall x st, I st -> I (Map.with_offset_x x st)) ->
  (forall x st, I st -> I (Map.with_offset_y x st)) ->
  (forall x st, I st -> I (Map.with_tracking_grids x st)) ->
  (forall x st, I st -> I (Map.with_map_scale_x x st)) ->
  (forall x st, I st -> I (Map.with_map_scale_y x st)) ->
  (forall x st, I st -> I (Map.with_map_thumbnail x st)) ->
  maintains I any_event any_exn (Map.update_view env cv).
Proof.
  intros Hx Hy Hg Hsx Hsy Hth st HI. apply map_update_view_at; auto.
Qed.

Lemma map_update_view_good env cv :
  maintains Map.good read_in_bounds any_exn (Map.update_view env cv).
Proof.
  intros st Hgood. apply map_update_view_at; try done.
  intros _ _. split; [done|]. destruct Hgood. by apply clamped_read_in_bounds.
Qed.

Lemma map_reset_good env cv :
  maintains Map.good read_in_bounds any_exn (Map.reset env cv).
Proof.
  intros st [Hz Hd]. unfold Map.reset. do 3 mstep.
  mcall map_update_view_good.
Qed.

Lemma map_initialize_tracking_holds (I : Map.viewer -> Prop) ev_ok :
  (forall x st, I st -> I (Map.with_tracking_grids x st)) ->
  maintains I ev_ok any_exn Map.initialize_tracking.
Proof.
  intros Hg st HI. unfold Map.initialize_tracking. mstep.
  apply at_for_each; [done|].
  intros p _ s Hs. msteps. by apply Hg.
Qed.

Lemma map_update_info_holds (I : Map.viewer -> Prop) ev_ok :
  maintains I ev_ok any_exn Map.update_info.
Proof. intros st HI. unfold Map.update_info. msteps. Qed.

Lemma map_load_image_good env cv path :
  env_ok env ->
  maintains Map.good read_in_bounds any_exn (Map.load_image env cv path).
Proof.
  intros Henv st Hgood. unfold Map.load_image. mstep; [by mstep|].
  apply (at_try any_exn); [| |done].
  - apply (at_bind Map.good); [|done|].
    { apply (at_zoom (fun iv => dims_ok (slide_dimensions iv))).
      - apply open_source_dims; [done | apply Hgood].
      - intros t Ht. split; [apply Hgood | done]. }
    intros _ st1 Hst1. mcall map_initialize_tracking_holds.
    mcall map_update_info_holds.
    mcall map_reset_good. msteps.
  - intros e st' Hst' _ _. msteps.
Qed.

Lemma quick_zoom_in_range percent :
  percent ∈ Map.tracking_levels -> zoom_in_range (inject_Z percent / 100.0).
Proof.
  unfold Map.tracking_levels. intros H.
  repeat (apply elem_of_cons in H as [->|H]; [by vm_compute|]).
  by apply elem_of_nil in H.
Qed.

Lemma map_handle_good env step :
  env_ok env -> Map.button_exists step ->
  maintains Map.good read_in_bounds any_exn (Map.handle env step).
Proof.
  intros Henv. destruct step as [cv a]. unfold Map.handle, Map.button_exists.
  simpl.
  destruct a as [path|percent| | |e_x e_y|e_x e_y| | |e_x e_y]; intros Hb.
  - by apply map_load_image_good.
  - intros st Hgood. unfold Map.set_zoom_percent. mstep. mstep; [by mstep|].
    mstep. mcall map_update_view_good.
    split; [by apply quick_zoom_in_range | apply Hgood].
  - intros st Hgood. unfold Map.zoom_in. mstep. mstep; [by mstep|]. mstep.
    mcall map_update_view_good.
    split; [apply zoom_in_range_in, Hgood | apply Hgood].
  - intros st Hgood. unfold Map.zoom_out. mstep. mstep; [by mstep|]. mstep.
    mcall map_update_view_good.
    split; [apply zoom_in_range_out, Hgood | apply Hgood].
  - intros st Hgood. unfold Map.button_press. by mstep.
  - intros st Hgood. unfold Map.pan. mstep.
    destruct (Map.pan_start st) as [[sx sy]|]; [|by mstep].
    mstep; [by mstep|].
    rewrite !(py_truediv_ok _ _ (zoom_in_range_nonzero _ (proj1 Hgood))).
    do 5 mstep. by mcall map_update_view_good.
  - by apply map_reset_good.
  - intros st Hgood. unfold Map.clear_tracking. do 2 mstep.
    mcall map_update_map_holds. by mstep.
  - intros st Hgood. unfold Map.click_map. mstep. mstep; [by mstep|].
    destruct (Map.map_thumbnail st) as [[tw th]|]; [|by mstep].
    mstep_lift. mstep_lift.
    rewrite !(py_truediv_ok _ _ (zoom_in_range_nonzero _ (proj1 Hgood))).
    do 4 mstep. by mcall map_update_view_good.
Qed.

(** * The claims *)

Lemma grid_update_view_clamps cv st :
  Grid.loaded st -> ~ (Grid.zoom st == 0)%Q ->
  let dims := slide_dimensions (Grid.img st) in
  let z := Grid.zoom st in
  let view_w := view_size (winfo_width cv) z (fst dims) in
  let view_h := view_size (winfo_height cv) z (snd dims) in
  let cx := clamp_offset (Grid.offset_x st) (fst dims) view_w in
  let cy := clamp_offset (Grid.offset_y st) (snd dims) view_h in
  let r := Grid.update_view cv st in
  (Grid.offset_x (state_of r) = cx /\ Grid.offset_y (state_of r) = cy /\
   Grid.zoom (state_of r) = z /\ Grid.img (state_of r) = Grid.img st) /\
  Forall (reads_only
            (read_region_call dims cx cy (inject_Z view_w) (inject_Z view_h) z))
         (events_of r).
Proof.
  intros Hl Hz dims z view_w view_h cx cy r.
  destruct (grid_update_view_at
              (fun s => Grid.offset_x s = cx /\ Grid.offset_y s = cy /\
                        Grid.zoom s = z /\ Grid.img s = Grid.img st)
              (reads_only
                 (read_region_call dims cx cy (inject_Z view_w) (inject_Z view_h) z))
              cv st) as (H1 & H2 & _); try done.
  intros [H|H]; contradiction.
Qed.

Lemma map_update_view_clamps env cv st :
  Map.loaded st -> ~ (Map.zoom st == 0)%Q ->
  let dims := slide_dimensions (Map.img st) in
  let z := Map.zoom st in
  let view_w := view_size (winfo_width cv) z (fst dims) in
  let view_h := view_size (winfo_height cv) z (snd dims) in
  let cx := clamp_offset (Map.offset_x st) (fst dims) view_w in
  let cy := clamp_offset (Map.offset_y st) (snd dims) view_h in
  let r := Map.update_view env cv st in
  (Map.offset_x (state_of r) = cx /\ Map.offset_y (state_of r) = cy /\
   Map.zoom (state_of r) = z /\ Map.img (state_of r) = Map.img st) /\
  Forall (reads_only
            (read_region_call dims cx cy (inject_Z view_w) (inject_Z view_h) z))
         (events_of r).
Proof.
  intros Hl Hz dims z view_w view_h cx cy r.
  destruct (map_update_view_at
              (fun s => Map.offset_x s = cx /\ Map.offset_y s = cy /\
                        Map.zoom s = z /\ Map.img s = Map.img st)
              (reads_only
                 (read_region_call dims cx cy (inject_Z view_w) (inject_Z view_h) z))
              env cv st) as (H1 & H2 & _); try done.
  intros [H|H]; contradiction.
Qed.

(** C1.  In both viewers, from every state whose zoom lies in [0.05, 10.0]
    and whose image dimensions are not negative, whatever the offsets are:
    [update_view] on a loaded image stores the clamped offsets and calls
    [read_region] with nothing but these offsets and the clamped view size,
    that rectangle lies inside the image, and every call of [read_region]
    made by any handler lies inside the image, the handler leaving the zoom
    in its range. *)
Theorem read_rectangle_within_image env cv (g : Grid.viewer) (m : Map.viewer)
    (ga : Grid.action) (ma : Map.action) :
  env_ok env -> Grid.good g -> Map.good m -> Map.button_exists (cv, ma) ->
  (Grid.loaded g ->
     let dims := slide_dimensions (Grid.img g) in
     let z := Grid.zoom g in
     let view_w := view_size (winfo_width cv) z (fst dims) in
     let view_h := view_size (winfo_height cv) z (snd dims) in
     let cx := clamp_offset (Grid.offset_x g) (fst dims) view_w in
     let cy := clamp_offset (Grid.offset_y g) (snd dims) view_h in
     let call := read_region_call dims cx cy (inject_Z view_w) (inject_Z view_h) z in
     let r := Grid.update_view cv g in
     Grid.offset_x (state_of r) = cx /\ Grid.offset_y (state_of r) = cy /\
     Forall (reads_only call) (events_of r) /\ read_in_bounds call) /\
  (Map.loaded m ->
     let dims := slide_dimensions (Map.img m) in
     let z := Map.zoom m in
     let view_w := view_size (winfo_width cv) z (fst dims) in
     let view_h := view_size (winfo_height cv) z (snd dims) in
     let cx := clamp_offset (Map.offset_x m) (fst dims) view_w in
     let cy := clamp_offset (Map.offset_y m) (snd dims) view_h in
     let call := read_region_call dims cx cy (inject_Z view_w) (inject_Z view_h) z in
     let r := Map.update_view env cv m in
     Map.offset_x (state_of r) = cx /\ Map.offset_y (state_of r) = cy /\
     Forall (reads_only call) (events_of r) /\ read_in_bounds call) /\
  (Forall read_in_bounds (events_of (Grid.handle env (cv, ga) g)) /\
   Grid.good (state_of (Grid.handle env (cv, ga) g))) /\
  (Forall read_in_bounds (events_of (Map.handle env (cv, ma) m)) /\
   Map.good (state_of (Map.handle env (cv, ma) m))).
Proof.
  intros Henv Hg Hm Hb. split; [|split; [|split]].
  - intros Hl. simpl.
    destruct (grid_update_view_clamps cv g Hl (zoom_in_range_nonzero _ (proj1 Hg)))
      as ((Hx & Hy & _) & Hev).
    split; [done|]. split; [done|]. split; [done|].
    destruct Hg. by apply clamped_read_in_bounds.
  - intros Hl. simpl.
    destruct (map_update_view_clamps env cv m Hl (zoom_in_range_nonzero _ (proj1 Hm)))
      as ((Hx & Hy & _) & Hev).
    split; [done|]. split; [done|]. split; [done|].
    destruct Hm. by apply clamped_read_in_bounds.
  - destruct (grid_handle_good env (cv, ga) Henv g Hg) as (H1 & H2 & _). done.
  - destruct (map_handle_good env (cv, ma) Henv Hb m Hm) as (H1 & H2 & _). done.
Qed.

Lemma examples_env_ok : env_ok Examples.env.
Proof.
  repeat split; simpl in *; repeat case_match; simplify_eq; simpl; lia.
Qed.

Lemma read_rectangle_within_image_witness :
  Forall (reads_only (read_region_call (20000, 15000) 19200 7200 800 600 1.0))
    (events_of (Grid.update_view Examples.cv800
                  (Grid.with_offset_x 30000 (Grid.with_offset_y 7200 Examples.grid_photo)))) /\
  Forall read_in_bounds
    (events_of (Map.handle Examples.env (Examples.cv800, Map.QuickZoom 40)
                  Examples.map_slide)).
Proof.
  assert (Hg : Grid.good (Grid.with_offset_x 30000 (Grid.with_offset_y 7200 Examples.grid_photo))).
  { by vm_compute. }
  assert (Hm : Map.good Examples.map_slide) by (by vm_compute).
  assert (Hb : Map.button_exists (Examples.cv800, Map.QuickZoom 40)).
  { simpl. unfold Map.tracking_levels. set_solver. }
  destruct (read_rectangle_within_image Examples.env Examples.cv800 _ _
              Grid.ZoomIn (Map.QuickZoom 40) examples_env_ok Hg Hm Hb)
    as (H1 & _ & _ & H4 & _).
  split; [|exact H4].
  destruct H1 as (_ & _ & H & _); [by vm_compute|]. exact H.
Defined.

(** X28.  Every call of [read_region] made during a session of either viewer
    from its initial state, the quick zooms being those of the four buttons
    and the images of the environment having sizes that are not negative, asks
    for a rectangle inside the image that is loaded at that moment. *)
Corollary session_reads_within_image env grid_steps map_steps :
  env_ok env -> Forall Map.button_exists map_steps ->
  Forall read_in_bounds (events_of (run (Grid.handle env) grid_steps Grid.init)) /\
  Forall read_in_bounds (events_of (run (Map.handle env) map_steps Map.init)).
Proof.
  intros Henv Hb. split.
  - apply (at_run (I:=Grid.good) (Grid.handle env) (fun _ => True)).
    + by vm_compute.
    + intros a _. by apply grid_handle_good.
    + by apply Forall_forall.
  - apply (at_run (I:=Map.good) (Map.handle env) Map.button_exists).
    + by vm_compute.
    + intros a Ha. by apply map_handle_good.
    + done.
Qed.

(** ** Zoom steps *)

Lemma grid_zoom_in_zoom cv st :
  Grid.loaded st ->
  Grid.zoom (state_of (Grid.zoom_in cv st)) = Qmin (Grid.zoom st * 1.5) 10.0 /\
  Grid.img (state_of (Grid.zoom_in cv st)) = Grid.img st.
Proof.
  intros Hl.
  destruct (fun H => proj1 (H : holds_at
              (fun s => Grid.zoom s = Qmin (Grid.zoom st * 1.5) 10.0 /\
                        Grid.img s = Grid.img st)
              any_event any_exn (Grid.zoom_in cv) st)) as [H1 H2]; [|done].
  unfold Grid.zoom_in. mstep. mstep.
  { apply Z.eqb_eq in Heqb. contradiction. }
  do 2 mstep. apply (at_bind (fun s => Grid.zoom s = Qmin (Grid.zoom st * 1.5) 10.0 /\
                        Grid.img s = Grid.img st)); [|done|].
  { mstep; msteps. }
  intros _ s Hs. by apply grid_update_view_holds.
Qed.

Lemma grid_zoom_out_zoom cv st :
  Grid.loaded st ->
  Grid.zoom (state_of (Grid.zoom_out cv st)) = Qmax (Grid.zoom st / 1.5) 0.05 /\
  Grid.img (state_of (Grid.zoom_out cv st)) = Grid.img st.
Proof.
  intros Hl.
  destruct (fun H => proj1 (H : holds_at
              (fun s => Grid.zoom s = Qmax (Grid.zoom st / 1.5) 0.05 /\
                        Grid.img s = Grid.img st)
              any_event any_exn (Grid.zoom_out cv) st)) as [H1 H2]; [|done].
  unfold Grid.zoom_out. mstep. mstep.
  { apply Z.eqb_eq in Heqb. contradiction. }
  do 2 mstep. apply (at_bind (fun s => Grid.zoom s = Qmax (Grid.zoom st / 1.5) 0.05 /\
                        Grid.img s = Grid.img st)); [|done|].
  { mstep; msteps. }
  intros _ s Hs. by apply grid_update_view_holds.
Qed.

Lemma map_zoom_in_zoom env cv st :
  Map.loaded st ->
  Map.zoom (state_of (Map.zoom_in env cv st)) = Qmin (Map.zoom st * 1.5) 10.0 /\
  Map.img (state_of (Map.zoom_in env cv st)) = Map.img st.
Proof.
  intros Hl.
  destruct (fun H => proj1 (H : holds_at
              (fun s => Map.zoom s = Qmin (Map.zoom st * 1.5) 10.0 /\
                        Map.img s = Map.img st)
              any_event any_exn (Map.zoom_in env cv) st)) as [H1 H2]; [|done].
  unfold Map.zoom_in. mstep. mstep.
  { apply Z.eqb_eq in Heqb. contradiction. }
  mstep. by apply map_update_view_holds.
Qed.

Lemma map_zoom_out_zoom env cv st :
  Map.loaded st ->
  Map.zoom (state_of (Map.zoom_out env cv st)) = Qmax (Map.zoom st / 1.5) 0.05 /\
  Map.img (state_of (Map.zoom_out env cv st)) = Map.img st.
Proof.
  intros Hl.
  destruct (fun H => proj1 (H : holds_at
              (fun s => Map.zoom s = Qmax (Map.zoom st / 1.5) 0.05 /\
                        Map.img s = Map.img st)
              any_event any_exn (Map.zoom_out env cv) st)) as [H1 H2]; [|done].
  unfold Map.zoom_out. mstep. mstep.
  { apply Z.eqb_eq in Heqb. contradiction. }
  mstep. by apply map_update_view_holds.
Qed.

Lemma Qmin_left a b : (a <= b)%Q -> Qmin a b = a.
Proof.
  intros H. unfold Qmin, GenericMinMax.gmin.
  destruct (a ?= b)%Q eqn:E; try done; apply Qgt_alt in E; lra.
Qed.

Lemma Qmin_right a b : (b < a)%Q -> Qmin a b = b.
Proof.
  intros H. unfold Qmin, GenericMinMax.gmin.
  assert (E : (a ?= b)%Q = Gt) by (by apply Qgt_alt). by rewrite E.
Qed.

Lemma Qmax_left a b : (b <= a)%Q -> Qmax a b = a.
Proof.
  intros H. unfold Qmax, GenericMinMax.gmax.
  destruct (a ?= b)%Q eqn:E; try done; apply Qlt_alt in E; lra.
Qed.

Lemma Qmax_right a b : (a < b)%Q -> Qmax a b = b.
Proof.
  intros H. unfold Qmax, GenericMinMax.gmax.
  assert (E : (a ?= b)%Q = Lt) by (by apply Qlt_alt). by rewrite E.
Qed.

(** Six steps in from 1.0 reach the upper bound, and it is kept. *)
Lemma zoom_in_saturates z n :
  (z == 1.0)%Q -> (6 <= n)%nat ->
  Nat.iter n (fun z => Qmin (z * 1.5) 10.0) z = 10.0%Q.
Proof.
  intros Hz Hn. replace n with ((n - 6) + 6)%nat by lia.
  rewrite Nat.iter_add. generalize (n - 6)%nat as k. intros k.
  assert (H6 : Nat.iter 6 (fun z => Qmin (z * 1.5) 10.0) z = 10.0%Q).
  { simpl. rewrite (Qmin_left (z * 1.5)) by lra.
    rewrite (Qmin_left (z * 1.5 * 1.5)) by lra.
    rewrite (Qmin_left (z * 1.5 * 1.5 * 1.5)) by lra.
    rewrite (Qmin_left (z * 1.5 * 1.5 * 1.5 * 1.5)) by lra.
    rewrite (Qmin_left (z * 1.5 * 1.5 * 1.5 * 1.5 * 1.5)) by lra.
    apply Qmin_right. lra. }
  rewrite H6. induction k as [|k IH]; [done|].
  simpl. rewrite IH. by vm_compute.
Qed.

(** Eight steps out from 1.0 reach the lower bound, and it is kept. *)
Lemma zoom_out_saturates z n :
  (z == 1.0)%Q -> (8 <= n)%nat ->
  Nat.iter n (fun z => Qmax (z / 1.5) 0.05) z = 0.05%Q.
Proof.
  intros Hz Hn. replace n with ((n - 8) + 8)%nat by lia.
  rewrite Nat.iter_add. generalize (n - 8)%nat as k. intros k.
  assert (H8 : Nat.iter 8 (fun z => Qmax (z / 1.5) 0.05) z = 0.05%Q).
  { simpl. rewrite (Qmax_left (z / 1.5)) by qlra.
    rewrite (Qmax_left (z / 1.5 / 1.5)) by qlra.
    rewrite (Qmax_left (z / 1.5 / 1.5 / 1.5)) by qlra.
    rewrite (Qmax_left (z / 1.5 / 1.5 / 1.5 / 1.5)) by qlra.
    rewrite (Qmax_left (z / 1.5 / 1.5 / 1.5 / 1.5 / 1.5)) by qlra.
    rewrite (Qmax_left (z / 1.5 / 1.5 / 1.5 / 1.5 / 1.5 / 1.5)) by qlra.
    rewrite (Qmax_left (z / 1.5 / 1.5 / 1.5 / 1.5 / 1.5 / 1.5 / 1.5)) by qlra.
    apply Qmax_right. qlra. }
  rewrite H8. induction k as [|k IH]; [done|].
  simpl. rewrite IH. by vm_compute.
Qed.

(** Iterating a handler whose effect on the zoom is [f] and which keeps the
    image loaded iterates [f] on the zoom. *)
Lemma iter_zoom {S} (zoom : S -> Q) (ok : S -> Prop) (step : S -> S) (f : Q -> Q) :
  (forall s, ok s -> zoom (step s) = f (zoom s) /\ ok (step s)) ->
  forall n s, ok s ->
    zoom (Nat.iter n step s) = Nat.iter n f (zoom s) /\ ok (Nat.iter n step s).
Proof.
  intros Hstep n s Hs. induction n as [|n [IH1 IH2]]; [done|].
  simpl. destruct (Hstep _ IH2) as [H1 H2]. by rewrite H1, IH1.
Qed.

Lemma grid_loaded_img st st' :
  Grid.img st' = Grid.img st -> Grid.loaded st -> Grid.loaded st'.
Proof. unfold Grid.loaded. by intros ->. Qed.

Lemma map_loaded_img st st' :
  Map.img st' = Map.img st -> Map.loaded st -> Map.loaded st'.
Proof. unfold Map.loaded. by intros ->. Qed.

Lemma grid_zoom_by_step cv d st :
  Grid.loaded st -> zoom_in_range (Grid.zoom st) ->
  Grid.loaded (after (grid_zoom_by cv d) st) /\
  zoom_in_range (Grid.zoom (after (grid_zoom_by cv d) st)).
Proof.
  intros Hl Hz. unfold after. destruct d; unfold grid_zoom_by.
  - destruct (grid_zoom_in_zoom cv st Hl) as [-> Hi].
    split; [by eapply grid_loaded_img | by apply zoom_in_range_in].
  - destruct (grid_zoom_out_zoom cv st Hl) as [-> Hi].
    split; [by eapply grid_loaded_img | by apply zoom_in_range_out].
Qed.

Lemma map_zoom_by_step env cv d st :
  Map.loaded st -> zoom_in_range (Map.zoom st) ->
  Map.loaded (after (map_zoom_by env cv d) st) /\
  zoom_in_range (Map.zoom (after (map_zoom_by env cv d) st)).
Proof.
  intros Hl Hz. unfold after. destruct d; unfold map_zoom_by.
  - destruct (map_zoom_in_zoom env cv st Hl) as [-> Hi].
    split; [by eapply map_loaded_img | by apply zoom_in_range_in].
  - destruct (map_zoom_out_zoom env cv st Hl) as [-> Hi].
    split; [by eapply map_loaded_img | by apply zoom_in_range_out].
Qed.

Lemma after_run_cons {S A} (handle : A -> M S unit) a l st :
  after (run handle (a :: l)) st = after (run handle l) (after (handle a) st).
Proof. done. Qed.

Lemma grid_zoom_run_in_range cv dirs st :
  Grid.loaded st -> zoom_in_range (Grid.zoom st) ->
  zoom_in_range (Grid.zoom (after (run (grid_zoom_by cv) dirs) st)).
Proof.
  revert st. induction dirs as [|d dirs IH]; intros st Hl Hz; [done|].
  rewrite after_run_cons. by apply IH; apply grid_zoom_by_step.
Qed.

Lemma map_zoom_run_in_range env cv dirs st :
  Map.loaded st -> zoom_in_range (Map.zoom st) ->
  zoom_in_range (Map.zoom (after (run (map_zoom_by env cv) dirs) st)).
Proof.
  revert st. induction dirs as [|d dirs IH]; intros st Hl Hz; [done|].
  rewrite after_run_cons. by apply IH; apply map_zoom_by_step.
Qed.

Lemma grid_zoom_in_iter cv n g :
  Grid.loaded g ->
  Grid.zoom (Nat.iter n (after (Grid.zoom_in cv)) g)
    = Nat.iter n (fun z => Qmin (z * 1.5) 10.0) (Grid.zoom g).
Proof.
  intros Hg. apply (iter_zoom Grid.zoom Grid.loaded (after (Grid.zoom_in cv)));
    [|done].
  intros s Hs. destruct (grid_zoom_in_zoom cv s Hs).
  split; [done | by eapply grid_loaded_img].
Qed.

Lemma grid_zoom_out_iter cv n g :
  Grid.loaded g ->
  Grid.zoom (Nat.iter n (after (Grid.zoom_out cv)) g)
    = Nat.iter n (fun z => Qmax (z / 1.5) 0.05) (Grid.zoom g).
Proof.
  intros Hg. apply (iter_zoom Grid.zoom Grid.loaded (after (Grid.zoom_out cv)));
    [|done].
  intros s Hs. destruct (grid_zoom_out_zoom cv s Hs).
  split; [done | by eapply grid_loaded_img].
Qed.

Lemma map_zoom_in_iter env cv n m :
  Map.loaded m ->
  Map.zoom (Nat.iter n (after (Map.zoom_in env cv)) m)
    = Nat.iter n (fun z => Qmin (z * 1.5) 10.0) (Map.zoom m).
Proof.
  intros Hm. apply (iter_zoom Map.zoom Map.loaded (after (Map.zoom_in env cv)));
    [|done].
  intros s Hs. destruct (map_zoom_in_zoom env cv s Hs).
  split; [done | by eapply map_loaded_img].
Qed.

Lemma map_zoom_out_iter env cv n m :
  Map.loaded m ->
  Map.zoom (Nat.iter n (after (Map.zoom_out env cv)) m)
    = Nat.iter n (fun z => Qmax (z / 1.5) 0.05) (Map.zoom m).
Proof.
  intros Hm. apply (iter_zoom Map.zoom Map.loaded (after (Map.zoom_out env cv)));
    [|done].
  intros s Hs. destruct (map_zoom_out_zoom env cv s Hs).
  split; [done | by eapply map_loaded_img].
Qed.

(** C3.  In both viewers, with an image loaded, [zoom_in] stores
    min(zoom * 1.5, 10.0) and [zoom_out] stores max(zoom / 1.5, 0.05); from a
    zoom of 1.0 every sequence of zoom steps keeps the zoom within
    [0.05, 10.0], six or more steps in leave exactly 10.0 and eight or more
    steps out leave exactly 0.05. *)
Theorem zoom_steps_saturate env cv (g0 g : Grid.viewer) (m0 m : Map.viewer)
    (dirs : list direction) (n_in n_out : nat) :
  Grid.loaded g0 -> Map.loaded m0 ->
  Grid.loaded g -> Map.loaded m ->
  (Grid.zoom g == 1.0)%Q -> (Map.zoom m == 1.0)%Q ->
  (6 <= n_in)%nat -> (8 <= n_out)%nat ->
  (Grid.zoom (after (Grid.zoom_in cv) g0) = Qmin (Grid.zoom g0 * 1.5) 10.0 /\
   Grid.zoom (after (Grid.zoom_out cv) g0) = Qmax (Grid.zoom g0 / 1.5) 0.05 /\
   Map.zoom (after (Map.zoom_in env cv) m0) = Qmin (Map.zoom m0 * 1.5) 10.0 /\
   Map.zoom (after (Map.zoom_out env cv) m0) = Qmax (Map.zoom m0 / 1.5) 0.05) /\
  (zoom_in_range (Grid.zoom (after (run (grid_zoom_by cv) dirs) g)) /\
   zoom_in_range (Map.zoom (after (run (map_zoom_by env cv) dirs) m))) /\
  (Grid.zoom (Nat.iter n_in (after (Grid.zoom_in cv)) g) = 10.0%Q /\
   Map.zoom (Nat.iter n_in (after (Map.zoom_in env cv)) m) = 10.0%Q) /\
  (Grid.zoom (Nat.iter n_out (after (Grid.zoom_out cv)) g) = 0.05%Q /\
   Map.zoom (Nat.iter n_out (after (Map.zoom_out env cv)) m) = 0.05%Q).
Proof.
  intros Hg0 Hm0 Hg Hm Hzg Hzm Hin Hout.
  assert (Hrg : zoom_in_range (Grid.zoom g)) by (unfold zoom_in_range; lra).
  assert (Hrm : zoom_in_range (Map.zoom m)) by (unfold zoom_in_range; lra).
  split; [|split; [|split]].
  - unfold after. split; [by apply grid_zoom_in_zoom|].
    split; [by apply grid_zoom_out_zoom|].
    split; [by apply map_zoom_in_zoom | by apply map_zoom_out_zoom].
  - split; [by apply grid_zoom_run_in_range | by apply map_zoom_run_in_range].
  - split.
    + rewrite grid_zoom_in_iter by done. by apply zoom_in_saturates.
    + rewrite map_zoom_in_iter by done. by apply zoom_in_saturates.
  - split.
    + rewrite grid_zoom_out_iter by done. by apply zoom_out_saturates.
    + rewrite map_zoom_out_iter by done. by apply zoom_out_saturates.
Qed.

Lemma zoom_steps_saturate_witness :
  Grid.zoom (Nat.iter 7 (after (Grid.zoom_in Examples.cv800)) Examples.grid_photo)
    = 10.0%Q /\
  Map.zoom (Nat.iter 9 (after (Map.zoom_out Examples.env Examples.cv800))
              Examples.map_slide) = 0.05%Q.
Proof.
  assert (H1 : Grid.loaded Examples.grid_photo) by (by vm_compute).
  assert (H2 : Map.loaded Examples.map_slide) by (by vm_compute).
  assert (H3 : (Grid.zoom Examples.grid_photo == 1.0)%Q) by (by vm_compute).
  assert (H4 : (Map.zoom Examples.map_slide == 1.0)%Q) by (by vm_compute).
  pose proof (zoom_steps_saturate Examples.env Examples.cv800
              Examples.grid_photo Examples.grid_photo
              Examples.map_slide Examples.map_slide
              [zoom_inwards; zoom_outwards] 7 9 H1 H2 H1 H2 H3 H4
              ltac:(lia) ltac:(lia)) as H.
  destruct H as (_ & _ & [H _] & [_ H']).
  split; [exact H | exact H'].
Defined.

(** ** Which exceptions can be raised *)

Lemma py_truediv_raises a b : raises_only lookup_errors (py_truediv a b).
Proof.
  intros e. unfold py_truediv. destruct (Qeq_bool b 0); [|done].
  intros [= <-]. set_solver.
Qed.

Lemma py_floordiv_float_raises a b : raises_only lookup_errors (py_floordiv_float a b).
Proof.
  intros e. unfold py_floordiv_float. destruct (Qeq_bool b 0); [|done].
  intros [= <-]. set_solver.
Qed.

Lemma py_getitem_raises {A} (l : list A) i : raises_only lookup_errors (py_getitem l i).
Proof.
  intros e. unfold py_getitem.
  repeat case_match; try done; intros [= <-]; set_solver.
Qed.

Lemma not_None_raises {A} (o : option A) : raises_only lookup_errors (not_None o).
Proof. intros e. destruct o; [done|]. intros [= <-]. set_solver. Qed.

Lemma bind_raises {A B} allowed (o : outcome A) (k : A -> outcome B) :
  raises_only allowed o -> (forall a, raises_only allowed (k a)) ->
  raises_only allowed (o ≫= k).
Proof.
  intros Ho Hk e. destruct o as [a|e']; unfold mbind, outcome_bind.
  - apply Hk.
  - intros [= <-]. by apply Ho.
Qed.

Lemma get_best_level_raises iv zoom : raises_only lookup_errors (get_best_level iv zoom).
Proof.
  unfold get_best_level. destruct (negb (use_openslide iv)); [done|].
  apply bind_raises; [apply py_truediv_raises|]. intros t.
  apply bind_raises; [apply py_getitem_raises|]. done.
Qed.

Lemma read_region_raises iv x y w h z :
  raises_only lookup_errors (read_region iv x y w h z).
Proof.
  unfold read_region. destruct (use_openslide iv).
  - apply bind_raises; [apply get_best_level_raises|]. intros level.
    apply bind_raises; [apply py_getitem_raises|]. intros d.
    apply bind_raises; [apply py_truediv_raises|]. intros lw.
    apply bind_raises; [apply py_truediv_raises|]. intros lh.
    apply bind_raises; [apply not_None_raises|]. done.
  - apply bind_raises; [apply not_None_raises|]. done.
Qed.

(** A step through [lift o], the exceptions of [o] being known by [lem]. *)
Ltac mlift_with lem :=
  cbv beta zeta iota; apply at_bind_lift;
  lazymatch goal with
  | |- match ?o with _ => _ end =>
      destruct o eqn:?; [|split; [done | by eapply lem]]
  end.

(** [update_view] of the grid viewer raises no [ValueError]. *)
Lemma grid_update_view_raises cv st e :
  outcome_of (Grid.update_view cv st) = Raise e -> e ∈ lookup_errors.
Proof.
  assert (H : holds_at (fun _ => True) any_event (fun e => e ∈ lookup_errors)
                (Grid.update_view cv) st).
  { unfold Grid.update_view. mstep. mstep; [by mstep|].
    mlift_with py_truediv_raises. mlift_with py_truediv_raises.
    do 3 mstep. apply (at_bind (fun _ => True)); [|done|].
    { unfold call_read_region. mstep. mstep; [done|].
      apply at_lift; [done|]. apply read_region_raises. }
    intros r s _. mstep; [done|].
    mlift_with py_floordiv_float_raises. mlift_with py_floordiv_float_raises.
    by mstep. }
  destruct H as (_ & _ & H). intros E. by rewrite E in H.
Qed.

(** ** Equations for running a method *)

Lemma result_eta {S A} (r : result S A) :
  Result (outcome_of r) (state_of r) (events_of r) = r.
Proof. by destruct r. Qed.

Lemma run_bind_get {S B} (k : S -> M S B) st : (get ≫= k) st = k st st.
Proof. unfold mbind, M_bind. simpl. apply result_eta. Qed.

Lemma run_bind_modify {S B} (f : S -> S) (k : unit -> M S B) st :
  (modify f ≫= k) st = k tt (f st).
Proof. unfold mbind, M_bind. simpl. apply result_eta. Qed.

Lemma run_bind_lift_ok {S A B} (a : A) (k : A -> M S B) st :
  (lift (Ok a) ≫= k) st = k a st.
Proof. unfold mbind, M_bind. simpl. apply result_eta. Qed.

Lemma run_try_pass {S A} (body : M S A) catches handler (st : S) :
  (forall e, outcome_of (body st) = Raise e -> catches e = false) ->
  try_except body catches handler st = body st.
Proof.
  intros H. unfold try_except. destruct (outcome_of (body st)) as [a|e] eqn:E; [done|].
  by rewrite (H e).
Qed.

Lemma grid_loaded_guard st :
  Grid.loaded st -> (fst (slide_dimensions (Grid.img st)) =? 0) = false.
Proof. intros H. by apply Z.eqb_neq. Qed.



(** C5.  With an image loaded, a sector outside the grid makes [goto_sector]
    show the out-of-bounds error, a text that is not a number makes it show
    the invalid-values error, and in both cases the viewer is left exactly
    as it was. *)
Theorem goto_sector_refuses env cv (v : Grid.viewer) spin_col spin_row msg :
  Grid.loaded v ->
  Grid.refused env v spin_col spin_row msg ->
  Grid.goto_sector env cv spin_col spin_row v = Result (Ok tt) v [showerror msg].
Proof.
  intros Hl Href. unfold Grid.goto_sector.
  rewrite run_bind_get, (grid_loaded_guard _ Hl).
  destruct Href as [col row Hcol Hrow Hout|Hcol|col Hcol Hrow].
  - rewrite run_try_pass.
    + rewrite Hcol, run_bind_lift_ok, Hrow, run_bind_lift_ok.
      replace ((col <? 0) || (Grid.max_cols v <=? col) || (row <? 0)
               || (Grid.max_rows v <=? row)) with true; [done|].
      symmetry. rewrite !orb_true_iff. lia.
    + intros e. rewrite Hcol, run_bind_lift_ok, Hrow, run_bind_lift_ok.
      replace ((col <? 0) || (Grid.max_cols v <=? col) || (row <? 0)
               || (Grid.max_rows v <=? row)) with true; [done|].
      symmetry. rewrite !orb_true_iff. lia.
  - unfold try_except. by rewrite Hcol.
  - unfold try_except. by rewrite Hcol, run_bind_lift_ok, Hrow.
Qed.

Lemma goto_sector_refuses_witness :
  Grid.goto_sector Examples.env Examples.cv800 "4" "1" Examples.grid_photo
    = Result (Ok tt) Examples.grid_photo [showerror (OutOfBounds 4 3)] /\
  Grid.goto_sector Examples.env Examples.cv800 "2" "one" Examples.grid_photo
    = Result (Ok tt) Examples.grid_photo [showerror InvalidValues].
Proof.
  assert (Hl : Grid.loaded Examples.grid_photo) by (by vm_compute).
  split.
  - apply (goto_sector_refuses Examples.env Examples.cv800 Examples.grid_photo
             "4" "1" _ Hl).
    apply (Grid.refused_out_of_range Examples.env Examples.grid_photo "4" "1" 4 1);
      [done | done |]. right. left. by vm_compute.
  - apply (goto_sector_refuses Examples.env Examples.cv800 Examples.grid_photo
             "2" "one" _ Hl).
    by apply (Grid.refused_row_not_numeric Examples.env Examples.grid_photo
                "2" "one" 2).
Defined.

(** ** Level selection *)


Lemma example_vars_loaded :
  Map.img Examples.map_slide = Examples.slide_vars /\
  Map.img Examples.map_photo = Examples.photo_vars /\
  Grid.img Examples.grid_photo = Examples.photo_vars.
Proof. repeat split; vm_compute; reflexivity. Qed.

Lemma slide_vars_increasing : increasing (level_downsamples Examples.slide_vars).
Proof.
  intros j k dj dk Hjk Hj Hk.
  destruct j as [|[|[|j]]]; destruct k as [|[|[|k]]];
    try lia; vm_compute in Hj, Hk; simplify_eq; reflexivity.
Qed.



(** ** The size of a region *)

Lemma py_getitem_lookup {A} (l : list A) i a :
  l !! i = Some a -> py_getitem l (Z.of_nat i) = Ok a.
Proof.
  intros H. unfold py_getitem.
  assert (E : (Z.of_nat i <? 0) = false) by (apply Z.ltb_ge; lia).
  by rewrite !E, Nat2Z.id, H.
Qed.




(** ** Tracking grids *)

Lemma run_bind_ok {S A B} (m : M S A) (k : A -> M S B) st a st' :
  m st = Result (Ok a) st' [] -> (m ≫= k) st = k a st'.
Proof. intros E. unfold mbind, M_bind. rewrite E. simpl. apply result_eta. Qed.

Lemma np_zeros_ok rows cols :
  0 <= rows -> 0 <= cols ->
  np.zeros rows cols =
    Ok {| np.shape := (rows, cols);
          np.cells := replicate (Z.to_nat rows) (replicate (Z.to_nat cols) false) |}.
Proof.
  intros Hr Hc. unfold np.zeros.
  replace ((rows <? 0) || (cols <? 0)) with false; [done|].
  symmetry. apply orb_false_intro; lia.
Qed.

Lemma np_zeros_wf rows cols :
  0 <= rows -> 0 <= cols ->
  np.wf {| np.shape := (rows, cols);
           np.cells := replicate (Z.to_nat rows) (replicate (Z.to_nat cols) false) |}.
Proof.
  intros Hr Hc. split; simpl.
  - rewrite length_replicate. lia.
  - apply Forall_replicate. rewrite length_replicate. lia.
Qed.

(** The grids that [initialize_tracking] installs for an image of the given
    dimensions. *)
Lemma initialize_tracking_run v :
  dims_ok (slide_dimensions (Map.img v)) ->
  let rows := snd (slide_dimensions (Map.img v)) `div` Map.grid_cell_size + 1 in
  let cols := fst (slide_dimensions (Map.img v)) `div` Map.grid_cell_size + 1 in
  let g := {| np.shape := (rows, cols);
              np.cells := replicate (Z.to_nat rows) (replicate (Z.to_nat cols) false) |} in
  Map.initialize_tracking v =
    Result (Ok tt)
      (Map.with_tracking_grids
         (<[80 := Some g]> (<[60 := Some g]> (<[40 := Some g]>
            (<[10 := Some g]> (Map.tracking_grids v))))) v) [].
Proof.
  intros [Hw Hh] rows cols g.
  assert (Hrows : 0 <= rows).
  { unfold rows, Map.grid_cell_size. pose proof (Z.div_pos _ 100 Hh ltac:(lia)). lia. }
  assert (Hcols : 0 <= cols).
  { unfold cols, Map.grid_cell_size. pose proof (Z.div_pos _ 100 Hw ltac:(lia)). lia. }
  unfold Map.initialize_tracking. rewrite run_bind_get.
  unfold Map.tracking_levels. cbn [for_each].
  fold rows cols. rewrite (np_zeros_ok rows cols Hrows Hcols). fold g.
  rewrite (run_bind_ok _ _ _ tt
             (Map.with_tracking_grids (<[10 := Some g]> (Map.tracking_grids v)) v)).
  2: { by rewrite run_bind_lift_ok, run_bind_get. }
  rewrite (run_bind_ok _ _ _ tt
             (Map.with_tracking_grids (<[40 := Some g]> (<[10 := Some g]> (Map.tracking_grids v))) v)).
  2: { by rewrite run_bind_lift_ok, run_bind_get. }
  rewrite (run_bind_ok _ _ _ tt
             (Map.with_tracking_grids (<[60 := Some g]> (<[40 := Some g]> (<[10 := Some g]> (Map.tracking_grids v)))) v)).
  2: { by rewrite run_bind_lift_ok, run_bind_get. }
  rewrite (run_bind_ok _ _ _ tt
             (Map.with_tracking_grids (<[80 := Some g]> (<[60 := Some g]> (<[40 := Some g]> (<[10 := Some g]> (Map.tracking_grids v))))) v)).
  2: { by rewrite run_bind_lift_ok, run_bind_get. }
  done.
Qed.

Lemma ceil_div_not_multiple a b :
  0 < b -> a `mod` b <> 0 -> a `div` b + 1 = ceil_div a b.
Proof.
  intros Hb Hm. unfold ceil_div.
  pose proof (Z.div_mod a b ltac:(lia)) as Ha.
  pose proof (Z.mod_pos_bound a b Hb) as Hr.
  apply (Z.div_unique _ _ _ (a `mod` b - 1)); lia.
Qed.

Lemma ceil_div_multiple a b :
  0 < b -> a `mod` b = 0 -> a `div` b + 1 = ceil_div a b + 1.
Proof.
  intros Hb Hm. unfold ceil_div.
  pose proof (Z.div_mod a b ltac:(lia)) as Ha.
  f_equal. apply (Z.div_unique _ _ _ (b - 1)); lia.
Qed.

(** C9, as the code has it.  [initialize_tracking] gives each of the buckets 10, 40, 60
    and 80 an all-false grid of (height // cell + 1) rows by
    (width // cell + 1) columns, for every image width and height; each of
    these numbers is the ceiling of the dimension over the cell size when
    the dimension is not a multiple of the cell size, and one more than the
    ceiling when it is. *)
Theorem initialize_tracking_allocates (v : Map.viewer) percent :
  dims_ok (slide_dimensions (Map.img v)) ->
  percent ∈ Map.tracking_levels ->
  let width := fst (slide_dimensions (Map.img v)) in
  let height := snd (slide_dimensions (Map.img v)) in
  let rows := height `div` Map.grid_cell_size + 1 in
  let cols := width `div` Map.grid_cell_size + 1 in
  outcome_of (Map.initialize_tracking v) = Ok tt /\
  Map.tracking_grids (after Map.initialize_tracking v) !! percent =
    Some (Some {| np.shape := (rows, cols);
                  np.cells := replicate (Z.to_nat rows)
                                (replicate (Z.to_nat cols) false) |}) /\
  Map.tracking_allocated (after Map.initialize_tracking v) /\
  (width `mod` Map.grid_cell_size <> 0 -> cols = ceil_div width Map.grid_cell_size) /\
  (width `mod` Map.grid_cell_size = 0 -> cols = ceil_div width Map.grid_cell_size + 1) /\
  (height `mod` Map.grid_cell_size <> 0 -> rows = ceil_div height Map.grid_cell_size) /\
  (height `mod` Map.grid_cell_size = 0 -> rows = ceil_div height Map.grid_cell_size + 1).
Proof.
  intros Hd Hp width height rows cols.
  pose proof (initialize_tracking_run v Hd) as Hrun. simpl in Hrun.
  fold width height in Hrun. fold rows cols in Hrun.
  assert (Hrows : 0 <= rows).
  { unfold rows, height, Map.grid_cell_size.
    pose proof (Z.div_pos _ 100 (proj2 Hd) ltac:(lia)). lia. }
  assert (Hcols : 0 <= cols).
  { unfold cols, width, Map.grid_cell_size.
    pose proof (Z.div_pos _ 100 (proj1 Hd) ltac:(lia)). lia. }
  assert (Hlook : forall p, p ∈ Map.tracking_levels ->
            Map.tracking_grids (after Map.initialize_tracking v) !! p =
              Some (Some {| np.shape := (rows, cols);
                            np.cells := replicate (Z.to_nat rows)
                                          (replicate (Z.to_nat cols) false) |})).
  { intros p Hin. unfold after. rewrite Hrun. simpl.
    unfold Map.tracking_levels in Hin.
    repeat (apply elem_of_cons in Hin as [->|Hin]; [by simplify_map_eq|]).
    by apply elem_of_nil in Hin. }
  split; [by rewrite Hrun|]. split; [by apply Hlook|]. split.
  { intros p Hin. eexists. split; [by apply Hlook|].
    split; [by apply np_zeros_wf|]. unfold after. by rewrite Hrun. }
  unfold rows, cols, Map.grid_cell_size.
  repeat split; intros Hm;
    first [by apply ceil_div_not_multiple | by apply ceil_div_multiple].
Qed.

Lemma initialize_tracking_allocates_witness :
  exists g, Map.tracking_grids (after Map.initialize_tracking Examples.map_opened) !! 40
              = Some (Some g) /\ np.shape g = (151, 201).
Proof.
  assert (Hd : dims_ok (slide_dimensions (Map.img Examples.map_opened))).
  { by vm_compute. }
  assert (Hp : 40 ∈ Map.tracking_levels).
  { unfold Map.tracking_levels. set_solver. }
  destruct (initialize_tracking_allocates Examples.map_opened 40 Hd Hp)
    as (_ & H & _).
  eexists. split; [exact H|]. reflexivity.
Defined.

(** C9 as the specification words it: an image of 20000 x 15000 pixels is cut into 200 x 150 cells
    of 100 pixels, but the grids have 201 columns and 151 rows. *)
Lemma grids_sized_by_ceiling_counterexample : ~ grids_sized_by_ceiling.
Proof.
  intros H.
  assert (Hd : dims_ok (slide_dimensions (Map.img Examples.map_opened))).
  { by vm_compute. }
  assert (Hp : 40 ∈ Map.tracking_levels).
  { unfold Map.tracking_levels. set_solver. }
  destruct (H Examples.map_opened 40 Hd Hp) as (g & Hg & Hshape).
  unfold after in Hg. rewrite (initialize_tracking_run _ Hd) in Hg.
  simpl in Hg. rewrite lookup_insert_ne, lookup_insert_ne, lookup_insert_eq in Hg by done.
  injection Hg as <-. vm_compute in Hshape. discriminate Hshape.
Qed.

(** ** Recording a visit *)

Lemma py_min_key_loop_spec {A} (key : A -> Z) (l rest : list A) : forall pre i b,
  l = pre ++ rest ->
  l !! i = Some b ->
  (forall j y, (j < length pre)%nat -> l !! j = Some y -> key b <= key y) ->
  (forall j y, (j < i)%nat -> l !! j = Some y -> key b < key y) ->
  exists i' b', py_min_key_loop key rest b = b' /\ first_min_key key l i' b'.
Proof.
  induction rest as [|x rest IH]; intros pre i b Hl Hi Hle Hlt.
  - exists i, b. split; [done|]. split; [done|]. split; [|done].
    intros j y Hj. apply (Hle j y); [|done].
    apply lookup_lt_Some in Hj. rewrite Hl, length_app in Hj. simpl in Hj. lia.
  - cbn [py_min_key_loop].
    assert (Hx : l !! length pre = Some x).
    { rewrite Hl. by rewrite list_lookup_middle. }
    assert (Hl' : l = (pre ++ [x]) ++ rest) by (by rewrite <- app_assoc).
    destruct (key x <? key b) eqn:E.
    + apply Z.ltb_lt in E.
      apply (IH (pre ++ [x]) (length pre) x Hl' Hx).
      * intros j y Hj Hy. rewrite length_app in Hj. simpl in Hj.
        destruct (decide (j = length pre)) as [->|Hne].
        -- rewrite Hx in Hy. injection Hy as <-. lia.
        -- pose proof (Hle j y ltac:(lia) Hy). lia.
      * intros j y Hj Hy. pose proof (Hle j y Hj Hy). lia.
    + apply Z.ltb_ge in E.
      apply (IH (pre ++ [x]) i b Hl' Hi); [|done].
      intros j y Hj Hy. rewrite length_app in Hj. simpl in Hj.
      destruct (decide (j = length pre)) as [->|Hne].
      * rewrite Hx in Hy. by injection Hy as <-.
      * apply (Hle j y); [lia | done].
Qed.

Lemma py_min_key_spec {A} (key : A -> Z) (l : list A) :
  l <> [] -> exists i b, py_min_key key l = Ok b /\ first_min_key key l i b.
Proof.
  destruct l as [|x rest]; [done|]. intros _.
  destruct (py_min_key_loop_spec key (x :: rest) rest [x] 0%nat x)
    as (i' & b' & Hb' & Hmin); try done.
  - intros j y Hj Hy. simpl in Hj. assert (j = 0%nat) as -> by lia.
    simpl in Hy. injection Hy as <-. lia.
  - intros; lia.
  - exists i', b'. split; [|done]. simpl. by rewrite Hb'.
Qed.

Lemma get_tracking_level_spec p :
  exists i level,
    Map.get_tracking_level p = Ok level /\
    first_min_key (fun x => Z.abs (x - p)) Map.tracking_levels i level.
Proof. by apply py_min_key_spec. Qed.

(** The rectangle of cells that [mark_visited] computes. *)
Lemma visited_cells_in_grid dim ox extent cells :
  0 <= dim -> cells = dim `div` Map.grid_cell_size + 1 ->
  (0 <= ox)%Q -> (ox <= inject_Z dim)%Q -> (0 <= extent)%Q ->
  let c1 := Z.max 0 (py_int ox `div` Map.grid_cell_size) in
  let c2 := Z.min (cells - 1) (py_int (ox + extent) `div` Map.grid_cell_size) in
  c1 = py_int ox `div` Map.grid_cell_size /\ 0 <= c1 /\ c1 <= c2 /\ c2 < cells.
Proof.
  intros Hdim -> Hox Hdx Hext c1 c2. unfold Map.grid_cell_size in *.
  assert (H1 : 0 <= py_int ox) by (by apply py_int_nonneg).
  assert (H2 : py_int ox <= dim).
  { rewrite <- (py_int_inject dim). by apply py_int_mono. }
  assert (H3 : py_int ox <= py_int (ox + extent)) by (apply py_int_mono; lra).
  pose proof (Z.div_pos (py_int ox) 100 H1 ltac:(lia)) as H4.
  pose proof (Z.div_le_mono _ _ 100 ltac:(lia) H2) as H5.
  pose proof (Z.div_le_mono _ _ 100 ltac:(lia) H3) as H6.
  unfold c1, c2. lia.
Qed.

Lemma slice_bound_inside n i : 0 <= i <= n -> np.slice_bound n i = i.
Proof.
  intros H. unfold np.slice_bound.
  assert (E : (i <? 0) = false) by (apply Z.ltb_ge; lia). rewrite E. lia.
Qed.

Lemma in_slice_inside n a b i :
  0 <= a -> a <= b -> b < n ->
  np.in_slice n a (b + 1) i = true <-> a <= i <= b.
Proof.
  intros Ha Hab Hb. unfold np.in_slice.
  rewrite !slice_bound_inside by lia.
  rewrite andb_true_iff, Z.leb_le, Z.ltb_lt. lia.
Qed.

Lemma np_get_set_slice_true g r0 r1 c0 c1 i j b :
  np.get g i j = Some b ->
  np.get (np.set_slice_true g r0 r1 c0 c1) i j =
    Some (if np.in_slice (fst (np.shape g)) r0 r1 (Z.of_nat i) &&
             np.in_slice (snd (np.shape g)) c0 c1 (Z.of_nat j)
          then true else b).
Proof.
  unfold np.get, np.set_slice_true. simpl.
  destruct (np.cells g !! i) as [row|] eqn:Erow; [|done]. simpl.
  intros Hb. rewrite list_lookup_imap, Erow. simpl.
  destruct (np.in_slice _ r0 r1 _); simpl; [|done].
  rewrite list_lookup_imap, Hb. simpl. by destruct (np.in_slice _ c0 c1 _).
Qed.

Lemma np_wf_get g i j :
  np.wf g -> 0 <= i < fst (np.shape g) -> 0 <= j < snd (np.shape g) ->
  exists b, np.get g (Z.to_nat i) (Z.to_nat j) = Some b.
Proof.
  intros [Hrows Hcols] Hi Hj. unfold np.get.
  destruct (lookup_lt_is_Some_2 (np.cells g) (Z.to_nat i) ltac:(lia)) as [row Hrow].
  rewrite Hrow. simpl.
  rewrite Forall_forall in Hcols.
  pose proof (Hcols row (list_elem_of_lookup_2 _ _ _ Hrow)) as Hlen.
  destruct (lookup_lt_is_Some_2 row (Z.to_nat j) ltac:(lia)) as [b Hb].
  by exists b.
Qed.

(** What [mark_visited] does when the offsets have been clamped and the
    grids are allocated. *)
Lemma mark_visited_run cv (v : Map.viewer) :
  Map.loaded v -> Map.good v -> Map.tracking_allocated v ->
  (0 <= Map.offset_x v /\
   Map.offset_x v <= inject_Z (fst (slide_dimensions (Map.img v))))%Q ->
  (0 <= Map.offset_y v /\
   Map.offset_y v <= inject_Z (snd (slide_dimensions (Map.img v))))%Q ->
  exists level g,
    bucket_of_zoom (Map.zoom v) = Ok level /\
    level ∈ Map.tracking_levels /\
    Map.tracking_grids v !! level = Some (Some g) /\ np.wf g /\
    let view_w := (inject_Z (Z.max (winfo_width cv) 1) / Map.zoom v)%Q in
    let view_h := (inject_Z (Z.max (winfo_height cv) 1) / Map.zoom v)%Q in
    let grid_x1 := Z.max 0 (py_int (Map.offset_x v) `div` Map.grid_cell_size) in
    let grid_y1 := Z.max 0 (py_int (Map.offset_y v) `div` Map.grid_cell_size) in
    let grid_x2 := Z.min (snd (np.shape g) - 1)
                     (py_int (Map.offset_x v + view_w) `div` Map.grid_cell_size) in
    let grid_y2 := Z.min (fst (np.shape g) - 1)
                     (py_int (Map.offset_y v + view_h) `div` Map.grid_cell_size) in
    (grid_x1 = py_int (Map.offset_x v) `div` Map.grid_cell_size /\
     0 <= grid_x1 /\ grid_x1 <= grid_x2 /\ grid_x2 < snd (np.shape g)) /\
    (grid_y1 = py_int (Map.offset_y v) `div` Map.grid_cell_size /\
     0 <= grid_y1 /\ grid_y1 <= grid_y2 /\ grid_y2 < fst (np.shape g)) /\
    Map.mark_visited cv v =
      Result (Ok tt)
        (Map.with_tracking_grids
           (<[level := Some (np.set_slice_true g grid_y1 (grid_y2 + 1)
                               grid_x1 (grid_x2 + 1))]> (Map.tracking_grids v)) v)
        [].
Proof.
  intros Hl [Hz [Hw Hh]] Halloc [Hx0 Hx1] [Hy0 Hy1].
  destruct (get_tracking_level_spec (py_int (Map.zoom v * 100)))
    as (i & level & Hlevel & Hin & _).
  apply list_elem_of_lookup_2 in Hin.
  destruct (Halloc level Hin) as (g & Hg & Hwf & Hshape).
  exists level, g. split; [done|]. split; [done|]. split; [done|]. split; [done|].
  intros view_w view_h grid_x1 grid_y1 grid_x2 grid_y2.
  pose proof (zoom_in_range_pos _ Hz) as Hzpos.
  assert (Hvw : (0 <= view_w)%Q).
  { apply Qdiv_nonneg; [|done]. change 0%Q with (inject_Z 0). apply inject_Z_le. lia. }
  assert (Hvh : (0 <= view_h)%Q).
  { apply Qdiv_nonneg; [|done]. change 0%Q with (inject_Z 0). apply inject_Z_le. lia. }
  split; [|split].
  - apply (visited_cells_in_grid (fst (slide_dimensions (Map.img v)))); try done.
    by rewrite Hshape.
  - apply (visited_cells_in_grid (snd (slide_dimensions (Map.img v)))); try done.
    by rewrite Hshape.
  - unfold Map.mark_visited. rewrite run_bind_get.
    replace (fst (slide_dimensions (Map.img v)) =? 0) with false
      by (symmetry; by apply Z.eqb_neq).
    rewrite Hlevel, run_bind_lift_ok, Hg.
    rewrite !(py_truediv_ok _ _ (zoom_in_range_nonzero _ Hz)).
    rewrite !run_bind_lift_ok. simpl not_None. rewrite run_bind_lift_ok. done.
Qed.

(** C10.  With an image loaded, the zoom in its range, the offsets clamped by
    [update_view] and the grids allocated by [initialize_tracking], the
    rectangle of cell indices that [mark_visited] computes lies within the
    grid of the bucket: its lower indices are not negative, its upper
    indices are below the shape, and the slice it assigns is exactly that
    rectangle, nothing being clipped or wrapped. *)
Theorem mark_visited_within_grid cv (v : Map.viewer) :
  Map.loaded v -> Map.good v -> Map.tracking_allocated v ->
  let dims := slide_dimensions (Map.img v) in
  let view_w := view_size (winfo_width cv) (Map.zoom v) (fst dims) in
  let view_h := view_size (winfo_height cv) (Map.zoom v) (snd dims) in
  (0 <= Map.offset_x v)%Q -> (Map.offset_x v + inject_Z view_w <= inject_Z (fst dims))%Q ->
  (0 <= Map.offset_y v)%Q -> (Map.offset_y v + inject_Z view_h <= inject_Z (snd dims))%Q ->
  exists level g x1 x2 y1 y2,
    Map.tracking_grids v !! level = Some (Some g) /\
    x1 = Z.max 0 (py_int (Map.offset_x v) `div` Map.grid_cell_size) /\
    y1 = Z.max 0 (py_int (Map.offset_y v) `div` Map.grid_cell_size) /\
    x2 = Z.min (snd (np.shape g) - 1)
           (py_int (Map.offset_x v + inject_Z (Z.max (winfo_width cv) 1) / Map.zoom v)
              `div` Map.grid_cell_size) /\
    y2 = Z.min (fst (np.shape g) - 1)
           (py_int (Map.offset_y v + inject_Z (Z.max (winfo_height cv) 1) / Map.zoom v)
              `div` Map.grid_cell_size) /\
    (0 <= x1 /\ x1 <= x2 /\ x2 < snd (np.shape g)) /\
    (0 <= y1 /\ y1 <= y2 /\ y2 < fst (np.shape g)) /\
    (forall i, np.in_slice (fst (np.shape g)) y1 (y2 + 1) i = true <-> y1 <= i <= y2) /\
    (forall j, np.in_slice (snd (np.shape g)) x1 (x2 + 1) j = true <-> x1 <= j <= x2) /\
    Map.mark_visited cv v =
      Result (Ok tt)
        (Map.with_tracking_grids
           (<[level := Some (np.set_slice_true g y1 (y2 + 1) x1 (x2 + 1))]>
              (Map.tracking_grids v)) v)
        [].
Proof.
  intros Hl Hgood Halloc dims view_w view_h Hx0 Hx1 Hy0 Hy1.
  pose proof Hgood as [Hz Hd].
  pose proof (view_size_bounds (winfo_width cv) _ _ (proj1 Hd) (zoom_in_range_pos _ Hz)) as Hvw.
  pose proof (view_size_bounds (winfo_height cv) _ _ (proj2 Hd) (zoom_in_range_pos _ Hz)) as Hvh.
  assert (Hx : (Map.offset_x v <= inject_Z (fst dims))%Q).
  { pose proof (inject_Z_le 0 view_w ltac:(unfold view_w, dims; lia)) as H.
    change (inject_Z 0) with 0%Q in H. lra. }
  assert (Hy : (Map.offset_y v <= inject_Z (snd dims))%Q).
  { pose proof (inject_Z_le 0 view_h ltac:(unfold view_h, dims; lia)) as H.
    change (inject_Z 0) with 0%Q in H. lra. }
  destruct (mark_visited_run cv v Hl Hgood Halloc (conj Hx0 Hx) (conj Hy0 Hy))
    as (level & g & _ & _ & Hg & _ & Hrect).
  simpl in Hrect. destruct Hrect as ((_ & Hx1' & Hx2' & Hx3') & (_ & Hy1' & Hy2' & Hy3') & Hrun).
  exists level, g. do 4 eexists.
  split; [exact Hg|]. do 4 (split; [reflexivity|]).
  split; [done|]. split; [done|].
  split; [intros i; by apply in_slice_inside|].
  split; [intros j; by apply in_slice_inside|].
  exact Hrun.
Qed.

(** The tracking grids of the small examples, checked by computation. *)
Ltac allocated_by_computation :=
  let p := fresh "p" in
  let Hp := fresh "Hp" in
  intros p Hp; unfold Map.tracking_levels in Hp;
  repeat (apply elem_of_cons in Hp as [->|Hp];
          [eexists; split; [vm_compute; reflexivity|];
           split; [split; [vm_compute; reflexivity|];
                   vm_compute; repeat (constructor; [reflexivity|]); constructor|];
           vm_compute; reflexivity|]);
  by apply elem_of_nil in Hp.

Lemma map_small_allocated : Map.tracking_allocated Examples.map_small.
Proof. allocated_by_computation. Defined.

Lemma map_small_zoomed_allocated : Map.tracking_allocated Examples.map_small_zoomed.
Proof. allocated_by_computation. Defined.

Lemma mark_visited_within_grid_witness :
  outcome_of (Map.mark_visited Examples.cv800 Examples.map_small) = Ok tt.
Proof.
  assert (Hl : Map.loaded Examples.map_small) by (by vm_compute).
  assert (Hg : Map.good Examples.map_small) by (by vm_compute).
  assert (Hx0 : (0 <= Map.offset_x Examples.map_small)%Q) by (by vm_compute).
  assert (Hy0 : (0 <= Map.offset_y Examples.map_small)%Q) by (by vm_compute).
  destruct (mark_visited_within_grid Examples.cv800 Examples.map_small
              Hl Hg map_small_allocated Hx0 ltac:(by vm_compute)
              Hy0 ltac:(by vm_compute))
    as (level & g & x1 & x2 & y1 & y2 & H).
  destruct H as (_ & _ & _ & _ & _ & _ & _ & _ & _ & Hrun).
  by rewrite Hrun.
Defined.

(** With the offsets clamped and the grids allocated, [mark_visited] marks
    the cell under the top left corner of the view in the grid of the
    bucket of the truncated percentage. *)
Lemma visit_marks_truncated_bucket : visit_marks bucket_of_zoom.
Proof.
  intros cv v Hl Hgood Halloc Hx Hy.
  destruct (mark_visited_run cv v Hl Hgood Halloc Hx Hy)
    as (level & g & Hlevel & _ & Hg & Hwf & Hrect).
  simpl in Hrect.
  destruct Hrect as ((Ex & Hx1 & Hx2 & Hx3) & (Ey & Hy1 & Hy2 & Hy3) & Hrun).
  destruct (np_wf_get g (py_int (Map.offset_y v) `div` Map.grid_cell_size)
              (py_int (Map.offset_x v) `div` Map.grid_cell_size) Hwf
              ltac:(lia) ltac:(lia)) as [b Hb].
  exists level. eexists. split; [done|].
  unfold after. rewrite Hrun. simpl.
  split; [by rewrite lookup_insert_eq|].
  rewrite (np_get_set_slice_true _ _ _ _ _ _ _ b Hb).
  rewrite !Z2Nat.id by lia.
  rewrite (proj2 (in_slice_inside _ _ _ _ Hy1 Hy2 Hy3)) by lia.
  rewrite (proj2 (in_slice_inside _ _ _ _ Hx1 Hx2 Hx3)) by lia.
  done.
Qed.

(** C6, as the code has it.  [mark_visited] computes the zoom percentage as
    int(zoom * 100), truncated and not rounded, and takes the bucket whose
    distance to it is minimal, the first such bucket in the declared order
    [10, 40, 60, 80]; with the offsets clamped and the grids allocated it
    marks the cell under the top left corner of the view in the grid of
    that bucket and leaves the grids of the other buckets as they were.  A
    zoom of 0.42 gives 42% and bucket 40; a zoom of 0.5 gives 50%, which is
    as far from 40 as from 60, and bucket 40. *)
Theorem mark_visited_bucket cv (v : Map.viewer) :
  Map.loaded v -> Map.good v -> Map.tracking_allocated v ->
  (0 <= Map.offset_x v /\
   Map.offset_x v <= inject_Z (fst (slide_dimensions (Map.img v))))%Q ->
  (0 <= Map.offset_y v /\
   Map.offset_y v <= inject_Z (snd (slide_dimensions (Map.img v))))%Q ->
  (exists i level g,
     bucket_of_zoom (Map.zoom v) = Ok level /\
     first_min_key (fun x => Z.abs (x - py_int (Map.zoom v * 100)))
       Map.tracking_levels i level /\
     Map.tracking_grids (after (Map.mark_visited cv) v) !! level = Some (Some g) /\
     np.get g (Z.to_nat (py_int (Map.offset_y v) `div` Map.grid_cell_size))
              (Z.to_nat (py_int (Map.offset_x v) `div` Map.grid_cell_size))
       = Some true /\
     forall other, other <> level ->
       Map.tracking_grids (after (Map.mark_visited cv) v) !! other
         = Map.tracking_grids v !! other) /\
  bucket_of_zoom 0.42 = Ok 40 /\
  bucket_of_zoom 0.5 = Ok 40.
Proof.
  intros Hl Hgood Halloc Hx Hy. split; [|by vm_compute].
  destruct (mark_visited_run cv v Hl Hgood Halloc Hx Hy)
    as (level & g & Hlevel & _ & Hg & Hwf & Hrect).
  simpl in Hrect.
  destruct Hrect as ((Ex & Hx1 & Hx2 & Hx3) & (Ey & Hy1 & Hy2 & Hy3) & Hrun).
  destruct (get_tracking_level_spec (py_int (Map.zoom v * 100)))
    as (i & level' & Hlevel' & Hmin).
  unfold bucket_of_zoom in Hlevel. rewrite Hlevel in Hlevel'.
  injection Hlevel' as <-.
  destruct (np_wf_get g (py_int (Map.offset_y v) `div` Map.grid_cell_size)
              (py_int (Map.offset_x v) `div` Map.grid_cell_size) Hwf
              ltac:(lia) ltac:(lia)) as [b Hb].
  exists i, level. eexists. split; [done|]. split; [done|].
  unfold after. rewrite Hrun. simpl.
  split; [by rewrite lookup_insert_eq|]. split.
  - rewrite (np_get_set_slice_true _ _ _ _ _ _ _ b Hb).
    rewrite !Z2Nat.id by lia.
    rewrite (proj2 (in_slice_inside _ _ _ _ Hy1 Hy2 Hy3)) by lia.
    rewrite (proj2 (in_slice_inside _ _ _ _ Hx1 Hx2 Hx3)) by lia.
    done.
  - intros other Hne. by rewrite lookup_insert_ne.
Qed.

Lemma mark_visited_bucket_witness :
  exists g,
    Map.tracking_grids (after (Map.mark_visited Examples.cv800) Examples.map_small_zoomed)
      !! 40 = Some (Some g) /\
    np.get g 0 0 = Some true.
Proof.
  assert (Hl : Map.loaded Examples.map_small_zoomed) by (by vm_compute).
  assert (Hg : Map.good Examples.map_small_zoomed) by (by vm_compute).
  destruct (mark_visited_bucket Examples.cv800 Examples.map_small_zoomed
              Hl Hg map_small_zoomed_allocated ltac:(by vm_compute)
              ltac:(by vm_compute))
    as ((i & level & g & Hlevel & _ & Hgrid & Hcell & _) & _).
  assert (E : level = 40).
  { vm_compute in Hlevel. by injection Hlevel as <-. }
  subst level. exists g. split; [exact Hgrid|].
  replace (Z.to_nat (py_int (Map.offset_y Examples.map_small_zoomed)
                       `div` Map.grid_cell_size)) with 0%nat in Hcell
    by (vm_compute; reflexivity).
  replace (Z.to_nat (py_int (Map.offset_x Examples.map_small_zoomed)
                       `div` Map.grid_cell_size)) with 0%nat in Hcell
    by (vm_compute; reflexivity).
  exact Hcell.
Defined.

(** C6 as the specification words it: after the quick zoom to 10% and four zoom steps in, the
    zoom is 0.50625, which rounds to 51%, nearest to bucket 60; the visit
    recorded at that zoom leaves the grid of bucket 60 untouched, since
    int(50.625) = 50 and the tie between 40 and 60 goes to 40. *)
Lemma rounded_bucket_counterexample : ~ visit_marks rounded_bucket_of_zoom.
Proof.
  intros H.
  assert (Hl : Map.loaded Examples.map_small_zoomed) by (by vm_compute).
  assert (Hg : Map.good Examples.map_small_zoomed) by (by vm_compute).
  destruct (H Examples.cv800 Examples.map_small_zoomed Hl Hg
              map_small_zoomed_allocated ltac:(by vm_compute) ltac:(by vm_compute))
    as (level & g & Hlevel & Hgrid & Hcell).
  vm_compute in Hlevel. injection Hlevel as <-.
  vm_compute in Hgrid. injection Hgrid as <-.
  vm_compute in Hcell. discriminate Hcell.
Qed.

(** ** A load that fails *)

Lemma run_bind_result {S A B} (m : M S A) (k : A -> M S B) st a st' evs :
  m st = Result (Ok a) st' evs -> (m ≫= k) st = prepend evs (k a st').
Proof. intros E. unfold mbind, M_bind. by rewrite E. Qed.

Lemma run_bind_raise {S A B} (m : M S A) (k : A -> M S B) st e st' evs :
  m st = Result (Raise e) st' evs -> (m ≫= k) st = Result (Raise e) st' evs.
Proof. intros E. unfold mbind, M_bind. by rewrite E. Qed.

(** The image variables once [load_image] has released the previous source
    and every decoder has failed: the handles and the backend flag are
    cleared, the dimensions and the pyramid levels are those of the
    previous image. *)
Lemma open_source_fails env path iv e1 e2 e3 :
  OpenSlide env path = Raise e1 ->
  Image_open env path = Raise e2 ->
  tifffile_imread env path = Raise e3 ->
  exists e evs,
    open_source env path iv =
      Result (Raise e) (with_use_openslide false (with_image None (with_slide None iv))) evs.
Proof.
  intros H1 H2 H3. unfold open_source. rewrite run_bind_get.
  set (closing := match slide iv with Some s => [slide_close s] | None => [] end).
  rewrite (run_bind_result _ _ _ tt iv closing) by (unfold closing; by destruct (slide iv)).
  rewrite !run_bind_modify.
  set (cleared := with_use_openslide false (with_image None (with_slide None iv))).
  assert (Hfallback : exists e,
    (get ≫= (fun iv0 : image_vars =>
       if negb (use_openslide iv0)
       then (if endswith_any path tiff_extensions
             then lift (tifffile_imread env path)
             else lift (Image_open env path))
            ≫= (fun img => modify (with_image (Some img));;
                  modify (with_slide_dimensions (PIL.width img, PIL.height img)))
       else mret tt)) cleared = Result (Raise e) cleared []).
  { rewrite run_bind_get. simpl negb. cbv iota. rewrite H2, H3.
    destruct (endswith_any path tiff_extensions); eexists; by apply run_bind_raise. }
  destruct Hfallback as [e Hfallback].
  destruct (OPENSLIDE_AVAILABLE env && endswith_any (lower path) wsi_extensions).
  - destruct (is_OpenSlideError e1) eqn:Ecatch.
    + rewrite (run_bind_result _ _ _ tt cleared []).
      * rewrite Hfallback. by eexists _, _.
      * unfold try_except.
        rewrite (run_bind_raise _ _ _ e1 cleared []) by (by rewrite H1).
        simpl. by rewrite Ecatch.
    + rewrite (run_bind_raise _ _ _ e1 cleared []).
      * by eexists _, _.
      * unfold try_except.
        rewrite (run_bind_raise _ _ _ e1 cleared []) by (by rewrite H1).
        simpl. by rewrite Ecatch.
  - rewrite (run_bind_result _ _ _ tt cleared []) by done.
    rewrite Hfallback. by eexists _, _.
Qed.

Lemma grid_load_fails env cv path (g : Grid.viewer) e1 e2 e3 :
  path <> ""%string ->
  OpenSlide env path = Raise e1 ->
  Image_open env path = Raise e2 ->
  tifffile_imread env path = Raise e3 ->
  exists e evs,
    Grid.load_image env cv path g =
      Result (Ok tt)
        (Grid.with_img (with_use_openslide false (with_image None (with_slide None (Grid.img g)))) g)
        (evs ++ [showerror (CouldNotLoad e)]).
Proof.
  intros Hpath H1 H2 H3.
  destruct (open_source_fails env path (Grid.img g) e1 e2 e3 H1 H2 H3) as (e & evs & Hopen).
  exists e, evs. unfold Grid.load_image.
  replace (String.eqb path "") with false by (symmetry; by apply String.eqb_neq).
  unfold try_except.
  rewrite (run_bind_raise _ _ _ e
             (Grid.with_img (with_use_openslide false (with_image None (with_slide None (Grid.img g)))) g)
             evs).
  - done.
  - unfold zoom_state. by rewrite Hopen.
Qed.

Lemma map_load_fails env cv path (m : Map.viewer) e1 e2 e3 :
  path <> ""%string ->
  OpenSlide env path = Raise e1 ->
  Image_open env path = Raise e2 ->
  tifffile_imread env path = Raise e3 ->
  exists e evs,
    Map.load_image env cv path m =
      Result (Ok tt)
        (Map.with_img (with_use_openslide false (with_image None (with_slide None (Map.img m)))) m)
        (evs ++ [showerror (CouldNotLoad e)]).
Proof.
  intros Hpath H1 H2 H3.
  destruct (open_source_fails env path (Map.img m) e1 e2 e3 H1 H2 H3) as (e & evs & Hopen).
  exists e, evs. unfold Map.load_image.
  replace (String.eqb path "") with false by (symmetry; by apply String.eqb_neq).
  unfold try_except.
  rewrite (run_bind_raise _ _ _ e
             (Map.with_img (with_use_openslide false (with_image None (with_slide None (Map.img m)))) m)
             evs).
  - done.
  - unfold zoom_state. by rewrite Hopen.
Qed.

Lemma run_bind_tell {S B} e (k : unit -> M S B) st :
  (tell e ≫= k) st = prepend [e] (k tt st).
Proof. by apply run_bind_result. Qed.

Lemma outcome_prepend {S A} evs (r : result S A) :
  outcome_of (prepend evs r) = outcome_of r.
Proof. done. Qed.

Lemma read_region_no_image iv x y w h z :
  use_openslide iv = false -> image iv = None ->
  read_region iv x y w h z = Raise AttributeError.
Proof. intros Hu Hi. unfold read_region. by rewrite Hu, Hi. Qed.

Lemma call_read_region_no_image {S} (img : S -> image_vars) x y w h z st :
  use_openslide (img st) = false -> image (img st) = None ->
  outcome_of (call_read_region img x y w h z st) = Raise AttributeError.
Proof.
  intros Hu Hi. unfold call_read_region.
  rewrite run_bind_get, run_bind_tell. simpl.
  by rewrite read_region_no_image.
Qed.

Lemma outcome_bind_raise {S A B} (m : M S A) (k : A -> M S B) st e :
  outcome_of (m st) = Raise e -> outcome_of ((m ≫= k) st) = Raise e.
Proof. intros E. unfold mbind, M_bind. by rewrite E. Qed.

(** With the backend flag cleared and no decoded image, a refresh of the
    grid viewer fails on [self.image.width]. *)
Lemma grid_update_view_no_image cv st :
  Grid.loaded st -> ~ (Grid.zoom st == 0)%Q ->
  use_openslide (Grid.img st) = false -> image (Grid.img st) = None ->
  outcome_of (Grid.update_view cv st) = Raise AttributeError.
Proof.
  intros Hl Hz Hu Hi. unfold Grid.update_view.
  rewrite run_bind_get, (grid_loaded_guard _ Hl).
  rewrite !(py_truediv_ok _ _ Hz).
  rewrite !run_bind_lift_ok, !run_bind_modify, run_bind_get.
  apply outcome_bind_raise. by apply call_read_region_no_image.
Qed.

Lemma grid_zoom_in_no_image cv st :
  Grid.loaded st -> (0 < Grid.zoom st)%Q ->
  use_openslide (Grid.img st) = false -> image (Grid.img st) = None ->
  outcome_of (Grid.zoom_in cv st) = Raise AttributeError.
Proof.
  intros Hl Hz Hu Hi. unfold Grid.zoom_in.
  rewrite run_bind_get, (grid_loaded_guard _ Hl), run_bind_modify, run_bind_get.
  simpl Grid.img. rewrite Hu.
  rewrite (run_bind_result _ _ _ tt _ []) by done. rewrite outcome_prepend.
  apply grid_update_view_no_image; try done.
  simpl. destruct (Q.min_spec (Grid.zoom st * 1.5) 10.0) as [[_ E]|[_ E]];
    rewrite E; intros E0; lra.
Qed.

Lemma map_loaded_guard st :
  Map.loaded st -> (fst (slide_dimensions (Map.img st)) =? 0) = false.
Proof. intros H. by apply Z.eqb_neq. Qed.

(** [mark_visited] returns, or fails on the [shape] of a grid that is
    [None]; it assigns nothing but the grids. *)
Lemma map_mark_visited_outcome cv st :
  ~ (Map.zoom st == 0)%Q ->
  (outcome_of (Map.mark_visited cv st) = Ok tt \/
   outcome_of (Map.mark_visited cv st) = Raise AttributeError) /\
  Map.img (state_of (Map.mark_visited cv st)) = Map.img st /\
  Map.zoom (state_of (Map.mark_visited cv st)) = Map.zoom st.
Proof.
  intros Hz. unfold Map.mark_visited. rewrite run_bind_get.
  destruct (fst (slide_dimensions (Map.img st)) =? 0); [by split; [left|]|].
  destruct (get_tracking_level_spec (py_int (Map.zoom st * 100)))
    as (i & level & Hlevel & _).
  rewrite Hlevel, run_bind_lift_ok.
  destruct (Map.tracking_grids st !! level) as [[g|]|]; [| |by split; [left|]].
  - rewrite !(py_truediv_ok _ _ Hz), !run_bind_lift_ok. simpl not_None.
    rewrite run_bind_lift_ok. by split; [left|].
  - rewrite !(py_truediv_ok _ _ Hz), !run_bind_lift_ok. simpl not_None.
    rewrite (run_bind_raise _ _ _ AttributeError st []) by done. by split; [right|].
Qed.

Lemma map_update_view_no_image env cv st :
  Map.loaded st -> ~ (Map.zoom st == 0)%Q ->
  use_openslide (Map.img st) = false -> image (Map.img st) = None ->
  outcome_of (Map.update_view env cv st) = Raise AttributeError.
Proof.
  intros Hl Hz Hu Hi. unfold Map.update_view.
  rewrite run_bind_get, (map_loaded_guard _ Hl).
  rewrite !(py_truediv_ok _ _ Hz).
  rewrite !run_bind_lift_ok, !run_bind_modify.
  match goal with
  | |- outcome_of ((Map.mark_visited cv ≫= _) ?s) = _ => set (st2 := s)
  end.
  destruct (map_mark_visited_outcome cv st2 Hz) as ([Ho|Ho] & Himg & Hzoom).
  - destruct (Map.mark_visited cv st2) as [o st3 evs] eqn:E. simpl in *. subst o.
    rewrite (run_bind_result _ _ _ tt st3 evs E), outcome_prepend.
    rewrite run_bind_get. apply outcome_bind_raise.
    apply call_read_region_no_image; by rewrite Himg.
  - by apply outcome_bind_raise.
Qed.

Lemma map_zoom_in_no_image env cv st :
  Map.loaded st -> (0 < Map.zoom st)%Q ->
  use_openslide (Map.img st) = false -> image (Map.img st) = None ->
  outcome_of (Map.zoom_in env cv st) = Raise AttributeError.
Proof.
  intros Hl Hz Hu Hi. unfold Map.zoom_in.
  rewrite run_bind_get, (map_loaded_guard _ Hl), run_bind_modify.
  apply map_update_view_no_image; try done.
  simpl. destruct (Q.min_spec (Map.zoom st * 1.5) 10.0) as [[_ E]|[_ E]];
    rewrite E; intros E0; lra.
Qed.

(** C8, as the code has it.  When every decoder fails on the chosen file,
    [load_image] of both viewers reports the error and clears the source
    handle, the decoded image and the backend flag, but it leaves the
    dimensions and the pyramid levels of the previous image in place: the
    viewer still counts as loaded, and the next zoom step, instead of doing
    nothing, runs into the missing image and raises [AttributeError]. *)
Theorem failed_load_keeps_dimensions env cv path (g : Grid.viewer) (m : Map.viewer)
    e1 e2 e3 :
  path <> ""%string ->
  OpenSlide env path = Raise e1 ->
  Image_open env path = Raise e2 ->
  tifffile_imread env path = Raise e3 ->
  Grid.loaded g -> (0 < Grid.zoom g)%Q ->
  Map.loaded m -> (0 < Map.zoom m)%Q ->
  let g' := after (Grid.load_image env cv path) g in
  let m' := after (Map.load_image env cv path) m in
  (outcome_of (Grid.load_image env cv path g) = Ok tt /\
   slide (Grid.img g') = None /\ image (Grid.img g') = None /\
   use_openslide (Grid.img g') = false /\
   slide_dimensions (Grid.img g') = slide_dimensions (Grid.img g) /\
   level_downsamples (Grid.img g') = level_downsamples (Grid.img g) /\
   Grid.loaded g' /\
   outcome_of (Grid.zoom_in cv g') = Raise AttributeError) /\
  (outcome_of (Map.load_image env cv path m) = Ok tt /\
   slide (Map.img m') = None /\ image (Map.img m') = None /\
   use_openslide (Map.img m') = false /\
   slide_dimensions (Map.img m') = slide_dimensions (Map.img m) /\
   level_downsamples (Map.img m') = level_downsamples (Map.img m) /\
   Map.loaded m' /\
   outcome_of (Map.zoom_in env cv m') = Raise AttributeError).
Proof.
  intros Hpath H1 H2 H3 Hgl Hgz Hml Hmz g' m'.
  destruct (grid_load_fails env cv path g e1 e2 e3 Hpath H1 H2 H3) as (eg & evg & Hg).
  destruct (map_load_fails env cv path m e1 e2 e3 Hpath H1 H2 H3) as (em & evm & Hm).
  unfold g', m', after. rewrite Hg, Hm. cbn [outcome_of state_of].
  split.
  - do 6 (split; [done|]). split; [exact Hgl|].
    by apply grid_zoom_in_no_image.
  - do 6 (split; [done|]). split; [exact Hml|].
    by apply map_zoom_in_no_image.
Qed.

Lemma failed_load_keeps_dimensions_witness :
  slide_dimensions
    (Grid.img (after (Grid.load_image Examples.env Examples.cv800 "missing.svs")
                 Examples.grid_photo)) = (20000, 15000) /\
  outcome_of
    (Map.zoom_in Examples.env Examples.cv800
       (after (Map.load_image Examples.env Examples.cv800 "missing.svs")
          Examples.map_slide)) = Raise AttributeError.
Proof.
  assert (Hgl : Grid.loaded Examples.grid_photo) by (by vm_compute).
  assert (Hml : Map.loaded Examples.map_slide) by (by vm_compute).
  assert (Hgz : (0 < Grid.zoom Examples.grid_photo)%Q) by (by vm_compute).
  assert (Hmz : (0 < Map.zoom Examples.map_slide)%Q) by (by vm_compute).
  destruct (failed_load_keeps_dimensions Examples.env Examples.cv800 "missing.svs"
              Examples.grid_photo Examples.map_slide
              OpenSlideError OSError OSError ltac:(done) eq_refl eq_refl eq_refl
              Hgl Hgz Hml Hmz) as [(_ & _ & _ & _ & Hd & _) (_ & _ & _ & _ & _ & _ & _ & Hz)].
  split; [|exact Hz]. rewrite Hd. vm_compute. reflexivity.
Defined.

(** * Further properties of the viewers *)

(** ** The sector label and [goto_sector] *)

Lemma py_floordiv_float_ok a b :
  ~ (b == 0)%Q -> py_floordiv_float a b = Ok (inject_Z (Qfloor (a / b))).
Proof.
  intros H. unfold py_floordiv_float. destruct (Qeq_bool b 0) eqn:E; [|done].
  apply Qeq_bool_eq in E. contradiction.
Qed.

Lemma inject_Z_nonzero z : z <> 0 -> ~ (inject_Z z == 0)%Q.
Proof.
  intros Hz E. apply Hz. change 0%Q with (inject_Z 0) in E.
  by apply inject_Z_injective.
Qed.

(** What [update_view] of the grid viewer does when [read_region] returns. *)
Lemma grid_update_view_run cv (v : Grid.viewer) r :
  Grid.loaded v -> ~ (Grid.zoom v == 0)%Q -> Grid.grid_size v <> 0 ->
  let dims := slide_dimensions (Grid.img v) in
  let z := Grid.zoom v in
  let view_w := view_size (winfo_width cv) z (fst dims) in
  let view_h := view_size (winfo_height cv) z (snd dims) in
  let cx := clamp_offset (Grid.offset_x v) (fst dims) view_w in
  let cy := clamp_offset (Grid.offset_y v) (snd dims) view_h in
  read_region (Grid.img v) cx cy (inject_Z view_w) (inject_Z view_h) z = Ok r ->
  Grid.update_view cv v =
    Result (Ok tt)
      (Grid.with_lbl_sector
         (Some (sector_of (cx + inject_Z view_w / 2) (Grid.grid_size v),
                sector_of (cy + inject_Z view_h / 2) (Grid.grid_size v)))
         (Grid.with_offset_y cy (Grid.with_offset_x cx v)))
      [read_region_call dims cx cy (inject_Z view_w) (inject_Z view_h) z;
       canvas_create_image r].
Proof.
  intros Hl Hz Hg dims z view_w view_h cx cy Hr.
  unfold Grid.update_view.
  rewrite run_bind_get, (grid_loaded_guard _ Hl).
  rewrite !(py_truediv_ok _ _ Hz).
  rewrite !run_bind_lift_ok, !run_bind_modify, run_bind_get.
  unfold call_read_region.
  cbn [Grid.img Grid.with_offset_x Grid.with_offset_y Grid.offset_x Grid.offset_y
       Grid.zoom Grid.grid_size].
  fold dims z. fold (view_size (winfo_width cv) z (fst dims)).
  fold (view_size (winfo_height cv) z (snd dims)). fold view_w view_h.
  fold (clamp_offset (Grid.offset_x v) (fst dims) view_w).
  fold (clamp_offset (Grid.offset_y v) (snd dims) view_h). fold cx cy.
  rewrite (run_bind_result _ _ _ r (Grid.with_offset_y cy (Grid.with_offset_x cx v))
             [read_region_call dims cx cy (inject_Z view_w) (inject_Z view_h) z]).
  2: { rewrite run_bind_get, run_bind_tell. cbn [Grid.img Grid.with_offset_x Grid.with_offset_y].
       fold dims. by rewrite Hr. }
  rewrite run_bind_tell.
  rewrite !(py_floordiv_float_ok _ _ (inject_Z_nonzero _ Hg)).
  rewrite !run_bind_lift_ok. rewrite !py_int_inject. done.
Qed.

Lemma read_region_ready iv x y width height zoom :
  source_ready iv -> ~ (zoom == 0)%Q ->
  exists r, read_region iv x y width height zoom = Ok r.
Proof.
  unfold source_ready. intros Hready Hz. unfold read_region.
  destruct (use_openslide iv) eqn:Hu.
  - destruct Hready as (Hs & Hne & Hds).
    destruct (get_best_level_pyramid iv zoom Hu Hne Hz) as (k & Hk & d & Hd & _).
    assert (Hd0 : ~ (d == 0)%Q).
    { rewrite Forall_forall in Hds. apply Hds. by eapply list_elem_of_lookup_2. }
    rewrite Hk. simpl. rewrite (py_getitem_lookup _ _ _ Hd). simpl.
    rewrite !(py_truediv_ok _ _ Hd0). simpl.
    destruct (slide iv); [|done]. simpl. by eexists.
  - destruct (image iv); [|done]. simpl. by eexists.
Qed.

Lemma sector_of_spec c gs :
  0 < gs ->
  (inject_Z (sector_of c gs * gs) <= c /\ c < inject_Z ((sector_of c gs + 1) * gs))%Q.
Proof.
  intros Hgs. unfold sector_of.
  assert (HG : (0 < inject_Z gs)%Q).
  { change 0%Q with (inject_Z 0). by rewrite <- Zlt_Qlt. }
  set (q := (c / inject_Z gs)%Q).
  assert (Hc : (c == q * inject_Z gs)%Q).
  { unfold q. field. intros E. rewrite E in HG. by apply Qlt_irrefl in HG. }
  pose proof (Qfloor_le q) as Hlo. pose proof (Qlt_floor q) as Hhi.
  rewrite !inject_Z_mult. split.
  - rewrite Hc. apply Qmult_le_compat_r; [done | by apply Qlt_le_weak].
  - rewrite Hc at 1. by apply Qmult_lt_compat_r.
Qed.

Lemma sector_of_range c gs w :
  0 < gs -> (0 <= c)%Q -> (c < inject_Z w)%Q ->
  0 <= sector_of c gs /\ sector_of c gs * gs < w.
Proof.
  intros Hgs Hc Hw. destruct (sector_of_spec c gs Hgs) as [Hlo Hhi].
  split.
  - assert (H : (inject_Z 0 < inject_Z ((sector_of c gs + 1) * gs))%Q).
    { change (inject_Z 0) with 0%Q. lra. }
    rewrite <- Zlt_Qlt in H. nia.
  - rewrite Zlt_Qlt. lra.
Qed.

Lemma sector_of_unique c gs k :
  0 < gs ->
  (inject_Z (k * gs) <= c)%Q -> (c < inject_Z ((k + 1) * gs))%Q ->
  sector_of c gs = k.
Proof.
  intros Hgs Hlo Hhi. destruct (sector_of_spec c gs Hgs) as [Hlo' Hhi'].
  assert (H1 : (inject_Z (sector_of c gs * gs) < inject_Z ((k + 1) * gs))%Q) by lra.
  assert (H2 : (inject_Z (k * gs) < inject_Z ((sector_of c gs + 1) * gs))%Q) by lra.
  rewrite <- Zlt_Qlt in H1, H2. nia.
Qed.

(** [goto_sector] on a sector inside the grid: the offsets are set and the
    view is refreshed. *)
Lemma grid_goto_sector_run env cv (v : Grid.viewer) spin_col spin_row col row :
  Grid.loaded v -> ~ (Grid.zoom v == 0)%Q ->
  int_str env spin_col = Ok col -> int_str env spin_row = Ok row ->
  0 <= col < Grid.max_cols v -> 0 <= row < Grid.max_rows v ->
  let size := inject_Z (Grid.grid_size v) in
  let w := inject_Z (Z.max (winfo_width cv) 1) in
  let h := inject_Z (Z.max (winfo_height cv) 1) in
  let ox := (inject_Z (col * Grid.grid_size v) + size / 2 - w / Grid.zoom v / 2)%Q in
  let oy := (inject_Z (row * Grid.grid_size v) + size / 2 - h / Grid.zoom v / 2)%Q in
  Grid.goto_sector env cv spin_col spin_row v
    = Grid.update_view cv (Grid.with_offset_y oy (Grid.with_offset_x ox v)).
Proof.
  intros Hl Hz Hcol Hrow Hc Hr size w h ox oy.
  assert (Hin : (col <? 0) || (Grid.max_cols v <=? col) || (row <? 0)
                || (Grid.max_rows v <=? row) = false).
  { repeat (apply orb_false_intro); lia. }
  unfold Grid.goto_sector. rewrite run_bind_get, (grid_loaded_guard _ Hl).
  rewrite run_try_pass.
  - rewrite Hcol, run_bind_lift_ok, Hrow, run_bind_lift_ok, Hin.
    rewrite !(py_truediv_ok _ _ Hz).
    by rewrite run_bind_lift_ok, run_bind_modify, run_bind_lift_ok, run_bind_modify.
  - intros e. rewrite Hcol, run_bind_lift_ok, Hrow, run_bind_lift_ok, Hin.
    rewrite !(py_truediv_ok _ _ Hz).
    rewrite run_bind_lift_ok, run_bind_modify, run_bind_lift_ok, run_bind_modify.
    intros E. apply grid_update_view_raises in E.
    unfold lookup_errors in E.
    repeat (apply elem_of_cons in E as [->|E]; [done|]).
    by apply elem_of_nil in E.
Qed.

Lemma clamp_offset_inside o px v :
  (0 <= o)%Q -> (o + inject_Z v <= inject_Z px)%Q -> (clamp_offset o px v == o)%Q.
Proof.
  intros H0 H1. unfold clamp_offset.
  assert (Hle : (o <= inject_Z (px - v))%Q).
  { unfold Z.sub. rewrite inject_Z_plus, inject_Z_opp. lra. }
  rewrite (Qmin_left _ _ Hle).
  destruct (Q.max_spec 0 o) as [[L E]|[L E]]; rewrite E; lra.
Qed.

(** The centre of a view of [int(size)] pixels whose offset puts the centre
    of a view of [size] pixels on the middle of cell [k] still lies in
    cell [k]. *)
Lemma centred_view_in_cell k gs size :
  0 < gs -> (0 <= size)%Q ->
  let o := (inject_Z (k * gs) + inject_Z gs / 2 - size / 2)%Q in
  (inject_Z (k * gs) <= o + inject_Z (py_int size) / 2 /\
   o + inject_Z (py_int size) / 2 < inject_Z ((k + 1) * gs))%Q.
Proof.
  intros Hgs Hsize o. unfold o.
  rewrite py_int_floor by done.
  pose proof (Qfloor_le size) as Hlo. pose proof (Qlt_floor size) as Hhi.
  rewrite inject_Z_plus in Hhi. change (inject_Z 1) with 1%Q in Hhi.
  assert (HG : (1 <= inject_Z gs)%Q).
  { change 1%Q with (inject_Z 1). apply inject_Z_le. lia. }
  rewrite !inject_Z_mult, inject_Z_plus. change (inject_Z 1) with 1%Q.
  split; qlra.
Qed.





Lemma py_floordiv_ok a b : b <> 0 -> py_floordiv a b = Ok (a `div` b).
Proof.
  intros H. unfold py_floordiv.
  by replace (b =? 0) with false by (symmetry; by apply Z.eqb_neq).
Qed.

Lemma ceil_div_spec a b :
  0 < b -> (ceil_div a b - 1) * b < a <= ceil_div a b * b.
Proof.
  intros Hb. unfold ceil_div.
  pose proof (Z.div_mod (a + b - 1) b ltac:(lia)) as Hdm.
  pose proof (Z.mod_pos_bound (a + b - 1) b Hb) as Hr.
  nia.
Qed.

(** What [update_info] of the grid viewer does on a loaded image. *)
Lemma grid_update_info_run (v : Grid.viewer) :
  Grid.loaded v -> Grid.grid_size v <> 0 ->
  (use_openslide (Grid.img v) = true -> slide (Grid.img v) <> None) ->
  Grid.update_info v =
    Result (Ok tt)
      (Grid.with_max_rows
         (ceil_div (snd (slide_dimensions (Grid.img v))) (Grid.grid_size v))
         (Grid.with_max_cols
            (ceil_div (fst (slide_dimensions (Grid.img v))) (Grid.grid_size v)) v))
      [].
Proof.
  intros Hl Hg Hs. unfold Grid.update_info.
  rewrite run_bind_get, (grid_loaded_guard _ Hl).
  rewrite !(py_floordiv_ok _ _ Hg).
  rewrite run_bind_lift_ok, run_bind_modify, run_bind_lift_ok, run_bind_modify.
  destruct (use_openslide (Grid.img v)); [|done].
  destruct (slide (Grid.img v)) as [s|]; [done|]. by destruct Hs.
Qed.

(** X3.  With an image loaded and a positive grid size (and the slide handle
    there when OpenSlide is in use), [update_info] returns and sets [max_cols]
    and [max_rows] to the least numbers of cells that cover the width and the
    height: (max_cols - 1) * grid_size < width <= max_cols * grid_size, and
    likewise for the rows.  It assigns nothing else. *)
Theorem update_info_counts_sectors (v : Grid.viewer) :
  Grid.loaded v -> 0 < Grid.grid_size v ->
  (use_openslide (Grid.img v) = true -> slide (Grid.img v) <> None) ->
  let v' := after Grid.update_info v in
  let gs := Grid.grid_size v in
  outcome_of (Grid.update_info v) = Ok tt /\
  (Grid.max_cols v' - 1) * gs < fst (slide_dimensions (Grid.img v))
    <= Grid.max_cols v' * gs /\
  (Grid.max_rows v' - 1) * gs < snd (slide_dimensions (Grid.img v))
    <= Grid.max_rows v' * gs /\
  v' = Grid.with_max_rows (Grid.max_rows v') (Grid.with_max_cols (Grid.max_cols v') v).
Proof.
  intros Hl Hg Hs v' gs. unfold v', after.
  rewrite (grid_update_info_run v Hl ltac:(lia) Hs). cbn [outcome_of state_of].
  split; [done|]. cbn [Grid.max_cols Grid.max_rows Grid.with_max_rows Grid.with_max_cols].
  split; [by apply ceil_div_spec|]. split; [by apply ceil_div_spec|]. done.
Qed.

Lemma update_info_counts_sectors_witness :
  outcome_of (Grid.update_info (Grid.with_grid_size 2000 Examples.grid_photo)) = Ok tt.
Proof.
  unshelve epose proof
    (update_info_counts_sectors (Grid.with_grid_size 2000 Examples.grid_photo) _ _ _)
    as H; [by vm_compute .. |].
  exact (proj1 H).
Defined.

(** ** Opening a file *)

Lemma prepend_nil {S A} (r : result S A) : prepend [] r = r.
Proof. by destruct r. Qed.

Lemma prepend_result {S A} evs (o : outcome A) (st : S) evs' :
  prepend evs (Result o st evs') = Result o st (evs ++ evs').
Proof. done. Qed.

(** [open_source] follows its decision table. *)
Lemma open_source_run env path iv :
  open_source env path iv = open_source_table env path iv.
Proof.
  unfold open_source, open_source_table. rewrite run_bind_get.
  rewrite (run_bind_result _ _ _ tt iv (closing iv))
    by (unfold closing; by destruct (slide iv)).
  rewrite !run_bind_modify. fold (released iv).
  assert (Hfallback :
    (get ≫= (fun iv0 : image_vars =>
       if negb (use_openslide iv0)
       then (if endswith_any path tiff_extensions
             then lift (tifffile_imread env path)
             else lift (Image_open env path))
            ≫= (fun img => modify (with_image (Some img));;
                  modify (with_slide_dimensions (PIL.width img, PIL.height img)))
       else mret tt)) (released iv) =
    match fallback_decoder env path with
    | Ok i => Result (Ok tt) (opened_image i iv) []
    | Raise e => Result (Raise e) (released iv) []
    end).
  { rewrite run_bind_get. cbn [released use_openslide with_use_openslide negb].
    unfold fallback_decoder.
    destruct (endswith_any path tiff_extensions).
    - destruct (tifffile_imread env path) as [i|e].
      + by rewrite run_bind_lift_ok, run_bind_modify.
      + by apply run_bind_raise.
    - destruct (Image_open env path) as [i|e].
      + by rewrite run_bind_lift_ok, run_bind_modify.
      + by apply run_bind_raise. }
  fold (tries_openslide env path).
  destruct (tries_openslide env path).
  - destruct (OpenSlide env path) as [s|e] eqn:Eopen.
    + rewrite (run_bind_result _ _ _ tt (opened_slide s iv) []).
      * rewrite run_bind_get. simpl. rewrite prepend_nil.
        unfold mret, M_ret. by rewrite prepend_result, app_nil_r.
      * unfold try_except. rewrite run_bind_lift_ok, !run_bind_modify. done.
    + destruct (is_OpenSlideError e) eqn:Ecatch.
      * rewrite (run_bind_result _ _ _ tt (released iv) []).
        -- rewrite Hfallback. destruct (fallback_decoder env path);
             by rewrite !prepend_result, ?app_nil_r.
        -- unfold try_except.
           rewrite (run_bind_raise _ _ _ e (released iv) []) by done.
           simpl. by rewrite Ecatch.
      * rewrite (run_bind_raise _ _ _ e (released iv) []).
        -- by rewrite prepend_result, app_nil_r.
        -- unfold try_except.
           rewrite (run_bind_raise _ _ _ e (released iv) []) by done.
           simpl. by rewrite Ecatch.
  - rewrite (run_bind_result _ _ _ tt (released iv) []) by done.
    rewrite Hfallback. destruct (fallback_decoder env path);
      by rewrite !prepend_result, ?app_nil_r.
Qed.

(** ** Further rules of the program logic *)

Lemma at_bind_result {S A B} (I : S -> Prop) ev_ok ex_ok
    (m : M S A) (k : A -> M S B) st a st' evs :
  m st = Result (Ok a) st' evs -> Forall ev_ok evs ->
  holds_at I ev_ok ex_ok (k a) st' ->
  holds_at I ev_ok ex_ok (m ≫= k) st.
Proof.
  intros E Hevs (HI & Hev & Hex). unfold holds_at.
  rewrite (run_bind_result _ _ _ _ _ _ E). simpl.
  repeat split; [done | by apply Forall_app | done].
Qed.

Lemma at_bind_raise {S A B} (I : S -> Prop) ev_ok (ex_ok : exn -> Prop)
    (m : M S A) (k : A -> M S B) st e st' evs :
  m st = Result (Raise e) st' evs -> Forall ev_ok evs ->
  I st' -> ex_ok e ->
  holds_at I ev_ok ex_ok (m ≫= k) st.
Proof.
  intros E Hevs HI Hex. unfold holds_at.
  rewrite (run_bind_raise _ _ _ _ _ _ E). simpl. done.
Qed.

Lemma Forall_any_event evs : Forall any_event evs.
Proof. by apply Forall_forall. Qed.

#[local] Hint Resolve Forall_any_event : core.

(** The handlers of the grid viewer other than [load_image] and
    [set_grid_size] keep every property of the object that does not depend
    on the view (zoom, offsets, label, grid switch, drag origin). *)
Lemma grid_handle_frame (I : Grid.viewer -> Prop) ev_ok env cv a :
  (forall x st, I st -> I (Grid.with_offset_x x st)) ->
  (forall x st, I st -> I (Grid.with_offset_y x st)) ->
  (forall x st, I st -> I (Grid.with_lbl_sector x st)) ->
  (forall x st, I st -> I (Grid.with_zoom x st)) ->
  (forall x st, I st -> I (Grid.with_show_grid x st)) ->
  (forall x st, I st -> I (Grid.with_pan_start x st)) ->
  (forall e, ev_ok e) ->
  grid_view_action a ->
  maintains I ev_ok any_exn (Grid.handle env (cv, a)).
Proof.
  intros Hx Hy Hl Hz Hs Hp Hev Ha.
  assert (Hview : forall cv', maintains I ev_ok any_exn (Grid.update_view cv')).
  { intros cv' st HI. apply grid_update_view_at; auto. }
  unfold Grid.handle. simpl.
  destruct a as [path| |size|spin_col spin_row| | |e_x e_y|e_x e_y|]; try done.
  - intros st HI. unfold Grid.toggle_grid. do 2 mstep. apply Hview. auto.
  - intros st HI. unfold Grid.goto_sector. mstep. mstep; [mstep; auto|].
    apply (at_try any_exn); [| |done].
    + mstep_lift. mstep_lift. mstep; [mstep; auto|].
      mstep_lift. mstep. mstep_lift; [|auto]. mstep. apply Hview. auto.
    + intros e st' Hst' _ _. mstep; auto.
  - intros st HI. unfold Grid.zoom_in. mstep. mstep; [by mstep|].
    do 2 mstep. apply (at_bind I); [|done|].
    { mstep; [|mstep; auto]. msteps; auto. }
    intros _ st' Hst'. by apply Hview.
  - intros st HI. unfold Grid.zoom_out. mstep. mstep; [by mstep|].
    do 2 mstep. apply (at_bind I); [|done|].
    { mstep; [|mstep; auto]. msteps; auto. }
    intros _ st' Hst'. by apply Hview.
  - intros st HI. unfold Grid.button_press. mstep. auto.
  - intros st HI. unfold Grid.pan. mstep.
    destruct (Grid.pan_start st) as [[sx sy]|]; [|by mstep].
    mstep; [by mstep|].
    mstep_lift. mstep_lift. do 3 mstep. apply Hview. auto.
  - intros st HI. unfold Grid.reset. do 3 mstep. apply Hview. auto.
Qed.

Lemma open_source_cases env path iv :
  (exists iv', opened env path iv iv' /\
     open_source env path iv = Result (Ok tt) iv' (closing iv)) \/
  (exists e, open_source env path iv = Result (Raise e) (released iv) (closing iv)).
Proof.
  rewrite open_source_run. unfold open_source_table, opened.
  destruct (tries_openslide env path).
  - destruct (OpenSlide env path) as [s|e].
    + left. eexists. split; [left; by eexists|done].
    + destruct (is_OpenSlideError e).
      * destruct (fallback_decoder env path) as [i|e'].
        -- left. eexists. split; [right; by eexists|done].
        -- right. by eexists.
      * right. by eexists.
  - destruct (fallback_decoder env path) as [i|e'].
    + left. eexists. split; [right; by eexists|done].
    + right. by eexists.
Qed.

Lemma grid_update_info_unloaded (v : Grid.viewer) :
  ~ Grid.loaded v -> Grid.update_info v = Result (Ok tt) v [].
Proof.
  intros Hl. unfold Grid.update_info. rewrite run_bind_get.
  replace (fst (slide_dimensions (Grid.img v)) =? 0) with true; [done|].
  symmetry. apply Z.eqb_eq. unfold Grid.loaded in Hl. lia.
Qed.

Lemma grid_sizes_positive size : size ∈ grid_sizes -> 0 < size.
Proof.
  unfold grid_sizes. intros H.
  repeat (apply elem_of_cons in H as [->|H]; [lia|]).
  by apply elem_of_nil in H.
Qed.

(** [update_info] makes the sector counts current, whatever they were. *)
Lemma grid_update_info_settles (v : Grid.viewer) :
  0 < Grid.grid_size v ->
  (use_openslide (Grid.img v) = true -> slide (Grid.img v) <> None) ->
  exists v', Grid.update_info v = Result (Ok tt) v' [] /\ grid_settled v'.
Proof.
  intros Hg Hs. destruct (decide (fst (slide_dimensions (Grid.img v)) = 0)) as [E|E].
  - exists v. split; [apply grid_update_info_unloaded; by intros H|].
    split; [done|]. split; [|done]. by intros H.
  - eexists. split; [apply grid_update_info_run; [done | lia | done]|].
    split; [done|]. split; [|done]. by intros _.
Qed.

Lemma grid_settled_view env cv a :
  grid_view_action a ->
  maintains grid_settled any_event any_exn (Grid.handle env (cv, a)).
Proof. intros Ha. by apply grid_handle_frame. Qed.

Lemma grid_settled_handle env step :
  grid_button_exists step ->
  maintains grid_settled any_event any_exn (Grid.handle env step).
Proof.
  destruct step as [cv a]. intros Hb st Hst.
  destruct a as [path| |size|spin_col spin_row| | |e_x e_y|e_x e_y|];
    try (by apply grid_settled_view).
  - unfold Grid.handle. simpl. unfold Grid.load_image.
    destruct (String.eqb path ""); [by mstep|].
    apply (at_try any_exn); [| |done].
    + destruct Hst as (Hg & Hcur & Hs).
      destruct (open_source_cases env path (Grid.img st))
        as [(iv' & Hopen & E)|(e & E)].
      * apply (at_bind_result _ _ _ _ _ _ tt (Grid.with_img iv' st)
                 (closing (Grid.img st))); [|done|].
        { unfold zoom_state. by rewrite E. }
        destruct (grid_update_info_settles (Grid.with_img iv' st)) as (v' & E' & Hv').
        { done. }
        { simpl. by destruct Hopen as [(s & _ & ->)|(i & _ & ->)]. }
        apply (at_bind_result _ _ _ _ _ _ tt v' []); [done | done |].
        apply (at_bind grid_settled); [|done|].
        { by apply (grid_settled_view env cv Grid.Reset). }
        intros _ st' Hst'. msteps.
      * apply (at_bind_raise _ _ _ _ _ _ e (Grid.with_img (released (Grid.img st)) st)
                 (closing (Grid.img st))); [|done| |done].
        { unfold zoom_state. by rewrite E. }
        split; [done|]. split; [|done]. exact Hcur.
    + intros e st' Hst' _ _. msteps.
  - unfold Grid.handle. simpl. unfold Grid.set_grid_size. mstep.
    destruct Hst as (Hg & Hcur & Hs).
    destruct (grid_update_info_settles (Grid.with_grid_size size st)) as (v' & E' & Hv').
    { simpl. by apply grid_sizes_positive. }
    { done. }
    apply (at_bind_result _ _ _ _ _ _ tt v' []); [done | done |].
    by apply grid_update_view_holds.
Qed.

Lemma grid_init_settled : grid_settled Grid.init.
Proof. split; [done|]. split; [|done]. intros H. by destruct H. Qed.

(** X4.  After any sequence of user actions on the grid viewer from its
    initial state, the grid sizes being those of the four buttons, the grid
    size is positive and, whenever an image is loaded, [max_cols] and
    [max_rows] are the numbers of cells of the current grid size that cover
    the image, also after a load that failed. *)
Theorem sector_counts_stay_current env steps :
  Forall grid_button_exists steps ->
  let v := after (run (Grid.handle env) steps) Grid.init in
  let gs := Grid.grid_size v in
  0 < gs /\
  (Grid.loaded v ->
     (Grid.max_cols v - 1) * gs < fst (slide_dimensions (Grid.img v))
       <= Grid.max_cols v * gs /\
     (Grid.max_rows v - 1) * gs < snd (slide_dimensions (Grid.img v))
       <= Grid.max_rows v * gs).
Proof.
  intros Hsteps. cbv zeta. unfold after.
  destruct (at_run (I:=grid_settled) (ev_ok:=any_event) (Grid.handle env)
              grid_button_exists steps Grid.init grid_init_settled)
    as ((Hg & Hcur & _) & _); [|done|].
  { intros a Ha. by apply grid_settled_handle. }
  split; [done|]. intros Hl.
  destruct (Hcur Hl) as [-> ->]. split; by apply ceil_div_spec.
Qed.

Lemma sector_counts_stay_current_witness :
  0 < Grid.grid_size
        (after (run (Grid.handle Examples.env)
                  [(Examples.cv800, Grid.LoadImage "photo.png");
                   (Examples.cv800, Grid.SetGridSize 2000)]) Grid.init).
Proof.
  unshelve epose proof
    (sector_counts_stay_current Examples.env
       [(Examples.cv800, Grid.LoadImage "photo.png");
        (Examples.cv800, Grid.SetGridSize 2000)] _) as H.
  { repeat constructor. }
  exact (proj1 H).
Defined.

Lemma grid_goto_sector_refused_run env cv (v : Grid.viewer) spin_col spin_row col row :
  Grid.loaded v ->
  int_str env spin_col = Ok col -> int_str env spin_row = Ok row ->
  col < 0 \/ Grid.max_cols v <= col \/ row < 0 \/ Grid.max_rows v <= row ->
  Grid.goto_sector env cv spin_col spin_row v =
    Result (Ok tt) v [showerror (OutOfBounds (Grid.max_cols v) (Grid.max_rows v))].
Proof.
  intros Hl Hcol Hrow Hout. unfold Grid.goto_sector.
  rewrite run_bind_get, (grid_loaded_guard _ Hl).
  assert (Hc : (col <? 0) || (Grid.max_cols v <=? col) || (row <? 0)
               || (Grid.max_rows v <=? row) = true).
  { rewrite !orb_true_iff. lia. }
  rewrite run_try_pass.
  - by rewrite Hcol, run_bind_lift_ok, Hrow, run_bind_lift_ok, Hc.
  - intros e. by rewrite Hcol, run_bind_lift_ok, Hrow, run_bind_lift_ok, Hc.
Qed.

Lemma below_ceil_div col a b : 0 < b -> col < ceil_div a b <-> col * b < a.
Proof. intros Hb. pose proof (ceil_div_spec a b Hb). nia. Qed.



(** ** Refreshing the view twice *)

Lemma clamp_offset_idem o px v :
  clamp_offset (clamp_offset o px v) px v = clamp_offset o px v.
Proof.
  unfold clamp_offset. set (b := inject_Z (px - v)). set (m := Qmin o b).
  assert (Hm : (m <= b)%Q) by apply Q.le_min_r.
  destruct (Qlt_le_dec 0 m) as [Hpos|Hneg].
  - rewrite (Qmax_right 0 m Hpos). rewrite (Qmin_left m b Hm).
    by rewrite (Qmax_right 0 m Hpos).
  - rewrite (Qmax_left 0 m Hneg).
    destruct (Qlt_le_dec b 0) as [Hb|Hb].
    + rewrite (Qmin_right 0 b Hb). apply Qmax_left. lra.
    + rewrite (Qmin_left 0 b Hb). by apply Qmax_left.
Qed.

Lemma py_floordiv_float_zero a b :
  Qeq_bool b 0 = true -> py_floordiv_float a b = Raise ZeroDivisionError.
Proof. intros E. unfold py_floordiv_float. by rewrite E. Qed.

Lemma run_bind_lift_raise {S A B} e (k : A -> M S B) (st : S) :
  (lift (Raise e) ≫= k) st = Result (Raise e) st [].
Proof. done. Qed.

(** [update_view] of the grid viewer on a loaded image, case by case. *)
Lemma grid_update_view_cases cv (v : Grid.viewer) :
  Grid.loaded v -> ~ (Grid.zoom v == 0)%Q ->
  let dims := slide_dimensions (Grid.img v) in
  let z := Grid.zoom v in
  let view_w := view_size (winfo_width cv) z (fst dims) in
  let view_h := view_size (winfo_height cv) z (snd dims) in
  let cx := clamp_offset (Grid.offset_x v) (fst dims) view_w in
  let cy := clamp_offset (Grid.offset_y v) (snd dims) view_h in
  let clamped := Grid.with_offset_y cy (Grid.with_offset_x cx v) in
  let call := read_region_call dims cx cy (inject_Z view_w) (inject_Z view_h) z in
  Grid.update_view cv v =
    match read_region (Grid.img v) cx cy (inject_Z view_w) (inject_Z view_h) z with
    | Raise e => Result (Raise e) clamped [call]
    | Ok r =>
        if Qeq_bool (inject_Z (Grid.grid_size v)) 0
        then Result (Raise ZeroDivisionError) clamped [call; canvas_create_image r]
        else Result (Ok tt)
               (Grid.with_lbl_sector
                  (Some (sector_of (cx + inject_Z view_w / 2) (Grid.grid_size v),
                         sector_of (cy + inject_Z view_h / 2) (Grid.grid_size v)))
                  clamped)
               [call; canvas_create_image r]
    end.
Proof.
  intros Hl Hz dims z view_w view_h cx cy clamped call.
  assert (Hunfold : Grid.update_view cv v =
    ((v0 ← get;
      tell (read_region_call (slide_dimensions (Grid.img v0)) cx cy
              (inject_Z view_w) (inject_Z view_h) z);;
      lift (read_region (Grid.img v0) cx cy (inject_Z view_w) (inject_Z view_h) z))
     ≫= (fun region =>
        tell (canvas_create_image region);;
        col ← lift (py_floordiv_float (cx + inject_Z view_w / 2)
                      (inject_Z (Grid.grid_size v)));
        row ← lift (py_floordiv_float (cy + inject_Z view_h / 2)
                      (inject_Z (Grid.grid_size v)));
        modify (Grid.with_lbl_sector (Some (py_int col, py_int row))))) clamped).
  { unfold Grid.update_view.
    rewrite run_bind_get, (grid_loaded_guard _ Hl).
    rewrite !(py_truediv_ok _ _ Hz).
    rewrite !run_bind_lift_ok, !run_bind_modify, run_bind_get. reflexivity. }
  destruct (read_region (Grid.img v) cx cy (inject_Z view_w) (inject_Z view_h) z)
    as [r|e] eqn:Hr.
  - destruct (Qeq_bool (inject_Z (Grid.grid_size v)) 0) eqn:Eg.
    + rewrite Hunfold.
      rewrite (run_bind_result _ _ _ r clamped [call]).
      2: { rewrite run_bind_get, run_bind_tell.
           unfold clamped. cbn [Grid.img Grid.with_offset_x Grid.with_offset_y].
           fold dims. by rewrite Hr. }
      rewrite run_bind_tell.
      rewrite !(py_floordiv_float_zero _ _ Eg).
      rewrite run_bind_lift_raise. done.
    + apply grid_update_view_run; try done.
      intros E. rewrite E in Eg. by vm_compute in Eg.
  - rewrite Hunfold.
    rewrite (run_bind_raise _ _ _ e clamped [call]); [done|].
    rewrite run_bind_get, run_bind_tell.
    unfold clamped. cbn [Grid.img Grid.with_offset_x Grid.with_offset_y].
    fold dims. by rewrite Hr.
Qed.

Lemma grid_update_view_unloaded cv (v : Grid.viewer) :
  ~ Grid.loaded v -> Grid.update_view cv v = Result (Ok tt) v [].
Proof.
  intros Hl. unfold Grid.update_view. rewrite run_bind_get.
  replace (fst (slide_dimensions (Grid.img v)) =? 0) with true; [done|].
  symmetry. apply Z.eqb_eq. unfold Grid.loaded in Hl. lia.
Qed.

Lemma py_truediv_zero a b : (b == 0)%Q -> py_truediv a b = Raise ZeroDivisionError.
Proof.
  intros E. unfold py_truediv.
  by replace (Qeq_bool b 0) with true by (symmetry; by apply Qeq_bool_iff).
Qed.

Lemma grid_update_view_zoom_zero cv (v : Grid.viewer) :
  Grid.loaded v -> (Grid.zoom v == 0)%Q ->
  Grid.update_view cv v = Result (Raise ZeroDivisionError) v [].
Proof.
  intros Hl Hz. unfold Grid.update_view.
  rewrite run_bind_get, (grid_loaded_guard _ Hl).
  rewrite !(py_truediv_zero _ _ Hz). by rewrite run_bind_lift_raise.
Qed.

(** A second refresh does what the first one did. *)
Lemma grid_update_view_twice cv (v : Grid.viewer) :
  Grid.update_view cv (after (Grid.update_view cv) v) = Grid.update_view cv v.
Proof.
  unfold after.
  destruct (decide (Grid.loaded v)) as [Hl|Hl].
  2: { rewrite (grid_update_view_unloaded cv v Hl). cbn [state_of].
       by apply grid_update_view_unloaded. }
  destruct (Qeq_dec (Grid.zoom v) 0) as [Hz|Hz].
  { rewrite (grid_update_view_zoom_zero cv v Hl Hz). cbn [state_of].
    by apply grid_update_view_zoom_zero. }
  rewrite (grid_update_view_cases cv v Hl Hz). cbv zeta.
  set (dims := slide_dimensions (Grid.img v)).
  set (z := Grid.zoom v).
  set (view_w := view_size (winfo_width cv) z (fst dims)).
  set (view_h := view_size (winfo_height cv) z (snd dims)).
  set (cx := clamp_offset (Grid.offset_x v) (fst dims) view_w).
  set (cy := clamp_offset (Grid.offset_y v) (snd dims) view_h).
  assert (Ex : clamp_offset cx (fst dims) view_w = cx) by apply clamp_offset_idem.
  assert (Ey : clamp_offset cy (snd dims) view_h = cy) by apply clamp_offset_idem.
  destruct (read_region (Grid.img v) cx cy (inject_Z view_w) (inject_Z view_h) z)
    as [r|e] eqn:Hr.
  - destruct (Qeq_bool (inject_Z (Grid.grid_size v)) 0) eqn:Eg; cbn [state_of];
      rewrite grid_update_view_cases by done; cbv zeta;
      cbn [Grid.img Grid.zoom Grid.offset_x Grid.offset_y Grid.grid_size
           Grid.with_offset_x Grid.with_offset_y Grid.with_lbl_sector];
      fold dims z view_w view_h; rewrite !Ex, !Ey, Hr, Eg; reflexivity.
  - cbn [state_of]. rewrite grid_update_view_cases by done. cbv zeta.
    cbn [Grid.img Grid.zoom Grid.offset_x Grid.offset_y Grid.grid_size
         Grid.with_offset_x Grid.with_offset_y Grid.with_lbl_sector].
    fold dims z view_w view_h. rewrite !Ex, !Ey, Hr. reflexivity.
Qed.

(** X6.  With a positive zoom and grid size, [update_view] of the grid viewer
    run on the state that it has just left has the outcome, the final state
    and the region read that it had the first time: a second refresh changes
    nothing. *)
Theorem update_view_idempotent cv (v : Grid.viewer) :
  (0 < Grid.zoom v)%Q -> 0 < Grid.grid_size v ->
  Grid.update_view cv (after (Grid.update_view cv) v) = Grid.update_view cv v.
Proof. intros _ _. apply grid_update_view_twice. Qed.

Lemma update_view_idempotent_witness :
  Grid.update_view Examples.cv800
    (after (Grid.update_view Examples.cv800)
       (Grid.with_offset_x 19900 Examples.grid_photo))
  = Grid.update_view Examples.cv800 (Grid.with_offset_x 19900 Examples.grid_photo).
Proof.
  apply (update_view_idempotent Examples.cv800
           (Grid.with_offset_x 19900 Examples.grid_photo)); by vm_compute.
Defined.

(** ** Reset and pan *)

Lemma py_int_comp a b : (0 <= a)%Q -> (a == b)%Q -> py_int a = py_int b.
Proof.
  intros Ha E. rewrite !py_int_floor; [by rewrite E | by rewrite <- E | done].
Qed.

Lemma view_size_full c px : view_size c 1.0 px = Z.min (Z.max c 1) px.
Proof.
  unfold view_size. f_equal.
  rewrite <- (py_int_inject (Z.max c 1)) at 2.
  apply py_int_comp.
  - apply Qdiv_nonneg; [|done]. change 0%Q with (inject_Z 0). apply inject_Z_le. lia.
  - field.
Qed.

Lemma clamp_offset_zero px v : 0 <= v <= px -> clamp_offset 0 px v = 0%Q.
Proof.
  intros H. unfold clamp_offset.
  assert (Hb : (0 <= inject_Z (px - v))%Q).
  { change 0%Q with (inject_Z 0). apply inject_Z_le. lia. }
  rewrite (Qmin_left 0 _ Hb). by apply Qmax_left.
Qed.

(** X7.  In both viewers, with an image loaded whose dimensions are not
    negative (and a positive grid size in the grid viewer), [reset] leaves
    the zoom at 1.0 and both offsets at 0, and the only region it reads is
    the one at (0, 0) with the size of the canvas, capped by the image, at
    zoom 1.0. *)
Theorem reset_shows_top_left env cv (g : Grid.viewer) (m : Map.viewer) :
  Grid.loaded g -> dims_ok (slide_dimensions (Grid.img g)) -> 0 < Grid.grid_size g ->
  Map.loaded m -> dims_ok (slide_dimensions (Map.img m)) ->
  let gdims := slide_dimensions (Grid.img g) in
  let mdims := slide_dimensions (Map.img m) in
  let width dims := Z.min (Z.max (winfo_width cv) 1) (fst dims) in
  let height dims := Z.min (Z.max (winfo_height cv) 1) (snd dims) in
  let g' := after (Grid.reset cv) g in
  let m' := after (Map.reset env cv) m in
  (Grid.zoom g' = 1.0%Q /\ Grid.offset_x g' = 0%Q /\ Grid.offset_y g' = 0%Q /\
   Forall (reads_only (read_region_call gdims 0 0 (inject_Z (width gdims))
                         (inject_Z (height gdims)) 1.0))
     (events_of (Grid.reset cv g))) /\
  (Map.zoom m' = 1.0%Q /\ Map.offset_x m' = 0%Q /\ Map.offset_y m' = 0%Q /\
   Forall (reads_only (read_region_call mdims 0 0 (inject_Z (width mdims))
                         (inject_Z (height mdims)) 1.0))
     (events_of (Map.reset env cv m))).
Proof.
  intros Hgl [Hgw Hgh] _ Hml [Hmw Hmh] gdims mdims width height g' m'.
  assert (H1 : ~ (1.0 == 0)%Q) by (by vm_compute).
  assert (Hpos : (0 < 1.0)%Q) by (by vm_compute).
  split.
  - set (g0 := Grid.with_offset_y 0 (Grid.with_offset_x 0 (Grid.with_zoom 1.0 g))).
    assert (E : Grid.reset cv g = Grid.update_view cv g0).
    { unfold Grid.reset. by rewrite !run_bind_modify. }
    destruct (grid_update_view_clamps cv g0 Hgl H1) as ((Hx & Hy & Hz & _) & Hev).
    cbn [g0 Grid.img Grid.zoom Grid.offset_x Grid.offset_y Grid.with_offset_x
         Grid.with_offset_y Grid.with_zoom] in Hx, Hy, Hz, Hev.
    fold gdims in Hx, Hy, Hev.
    rewrite (view_size_full (winfo_width cv)) in Hx, Hev.
    rewrite (view_size_full (winfo_height cv)) in Hy, Hev.
    fold (width gdims) (height gdims) in Hx, Hy, Hev.
    assert (Ex : clamp_offset 0 (fst gdims) (width gdims) = 0%Q).
    { apply clamp_offset_zero. unfold width, gdims. lia. }
    assert (Ey : clamp_offset 0 (snd gdims) (height gdims) = 0%Q).
    { apply clamp_offset_zero. unfold height, gdims. lia. }
    rewrite Ex in Hx, Hev. rewrite Ey in Hy, Hev.
    unfold g', after. by rewrite E.
  - set (m0 := Map.with_offset_y 0 (Map.with_offset_x 0 (Map.with_zoom 1.0 m))).
    assert (E : Map.reset env cv m = Map.update_view env cv m0).
    { unfold Map.reset. by rewrite !run_bind_modify. }
    destruct (map_update_view_clamps env cv m0 Hml H1) as ((Hx & Hy & Hz & _) & Hev).
    cbn [m0 Map.img Map.zoom Map.offset_x Map.offset_y Map.with_offset_x
         Map.with_offset_y Map.with_zoom] in Hx, Hy, Hz, Hev.
    fold mdims in Hx, Hy, Hev.
    rewrite (view_size_full (winfo_width cv)) in Hx, Hev.
    rewrite (view_size_full (winfo_height cv)) in Hy, Hev.
    fold (width mdims) (height mdims) in Hx, Hy, Hev.
    assert (Ex : clamp_offset 0 (fst mdims) (width mdims) = 0%Q).
    { apply clamp_offset_zero. unfold width, mdims. lia. }
    assert (Ey : clamp_offset 0 (snd mdims) (height mdims) = 0%Q).
    { apply clamp_offset_zero. unfold height, mdims. lia. }
    rewrite Ex in Hx, Hev. rewrite Ey in Hy, Hev.
    unfold m', after. by rewrite E.
Qed.

Lemma reset_shows_top_left_witness :
  Forall (reads_only (read_region_call (20000, 15000) 0 0 800 600 1.0))
    (events_of (Grid.reset Examples.cv800
                  (Grid.with_offset_x 12100 Examples.grid_photo))).
Proof.
  unshelve epose proof
    (reset_shows_top_left Examples.env Examples.cv800
       (Grid.with_offset_x 12100 Examples.grid_photo) Examples.map_slide _ _ _ _ _) as H;
    [by vm_compute .. |].
  exact (proj2 (proj2 (proj2 (proj1 H)))).
Defined.

(** X8.  In both viewers, with an image loaded and a zoom that is not zero
    (positive, with a positive grid size, in the grid viewer), a drag from the
    pressed point to (x, y) adds (pressed - (x, y)) / zoom to the offsets,
    which the refresh clamps, keeps the zoom and makes (x, y) the start of the
    next drag step; a motion without a recorded press does nothing. *)
Theorem pan_translates_view env cv (g : Grid.viewer) (m : Map.viewer)
    start_x start_y e_x e_y :
  Grid.loaded g -> (0 < Grid.zoom g)%Q -> 0 < Grid.grid_size g ->
  Map.loaded m -> ~ (Map.zoom m == 0)%Q ->
  let gdims := slide_dimensions (Grid.img g) in
  let mdims := slide_dimensions (Map.img m) in
  let gp := after (Grid.button_press start_x start_y) g in
  let mp := after (Map.button_press start_x start_y) m in
  let g' := after (Grid.pan cv e_x e_y) gp in
  let m' := after (Map.pan env cv e_x e_y) mp in
  (Grid.offset_x g' =
     clamp_offset (Grid.offset_x g + inject_Z (start_x - e_x) / Grid.zoom g)
       (fst gdims) (view_size (winfo_width cv) (Grid.zoom g) (fst gdims)) /\
   Grid.offset_y g' =
     clamp_offset (Grid.offset_y g + inject_Z (start_y - e_y) / Grid.zoom g)
       (snd gdims) (view_size (winfo_height cv) (Grid.zoom g) (snd gdims)) /\
   Grid.zoom g' = Grid.zoom g /\ Grid.pan_start g' = Some (e_x, e_y)) /\
  (Map.offset_x m' =
     clamp_offset (Map.offset_x m + inject_Z (start_x - e_x) / Map.zoom m)
       (fst mdims) (view_size (winfo_width cv) (Map.zoom m) (fst mdims)) /\
   Map.offset_y m' =
     clamp_offset (Map.offset_y m + inject_Z (start_y - e_y) / Map.zoom m)
       (snd mdims) (view_size (winfo_height cv) (Map.zoom m) (snd mdims)) /\
   Map.zoom m' = Map.zoom m /\ Map.pan_start m' = Some (e_x, e_y)) /\
  (Grid.pan_start g = None -> Grid.pan cv e_x e_y g = Result (Ok tt) g []) /\
  (Map.pan_start m = None -> Map.pan env cv e_x e_y m = Result (Ok tt) m []).
Proof.
  intros Hgl Hgzpos _ Hml Hmz gdims mdims gp mp g' m'.
  assert (Hgz : ~ (Grid.zoom g == 0)%Q) by lra.
  split; [|split; [|split]].
  - set (g1 := Grid.with_pan_start (Some (e_x, e_y))
                 (Grid.with_offset_y
                    (Grid.offset_y g + inject_Z (start_y - e_y) / Grid.zoom g)
                    (Grid.with_offset_x
                       (Grid.offset_x g + inject_Z (start_x - e_x) / Grid.zoom g)
                       gp))).
    assert (E : Grid.pan cv e_x e_y gp = Grid.update_view cv g1).
    { unfold Grid.pan. rewrite run_bind_get. unfold gp, after, Grid.button_press.
      cbn [modify state_of Grid.pan_start Grid.with_pan_start Grid.img].
      rewrite (grid_loaded_guard _ Hgl).
      cbn [Grid.zoom Grid.offset_x Grid.offset_y].
      rewrite !(py_truediv_ok _ _ Hgz).
      by rewrite !run_bind_lift_ok, !run_bind_modify. }
    pose proof (grid_update_view_at
                  (fun s => Grid.pan_start s = Some (e_x, e_y)) any_event cv g1) as Hp.
    destruct Hp as (Hp & _); try done.
    destruct (grid_update_view_clamps cv g1 Hgl Hgz) as ((Hx & Hy & Hz & _) & _).
    unfold g', after. rewrite E. done.
  - set (m1 := Map.with_pan_start (Some (e_x, e_y))
                 (Map.with_offset_y
                    (Map.offset_y m + inject_Z (start_y - e_y) / Map.zoom m)
                    (Map.with_offset_x
                       (Map.offset_x m + inject_Z (start_x - e_x) / Map.zoom m)
                       mp))).
    assert (E : Map.pan env cv e_x e_y mp = Map.update_view env cv m1).
    { unfold Map.pan. rewrite run_bind_get. unfold mp, after, Map.button_press.
      cbn [modify state_of Map.pan_start Map.with_pan_start Map.img].
      rewrite (map_loaded_guard _ Hml).
      cbn [Map.zoom Map.offset_x Map.offset_y].
      rewrite !(py_truediv_ok _ _ Hmz).
      by rewrite !run_bind_lift_ok, !run_bind_modify. }
    pose proof (map_update_view_at
                  (fun s => Map.pan_start s = Some (e_x, e_y)) any_event env cv m1) as Hp.
    destruct Hp as (Hp & _); try done.
    destruct (map_update_view_clamps env cv m1 Hml Hmz) as ((Hx & Hy & Hz & _) & _).
    unfold m', after. rewrite E. done.
  - intros E. unfold Grid.pan. by rewrite run_bind_get, E.
  - intros E. unfold Map.pan. by rewrite run_bind_get, E.
Qed.

Lemma pan_translates_view_witness :
  (Grid.offset_x
     (after (Grid.pan Examples.cv800 100 50)
        (after (Grid.button_press 400 300) Examples.grid_photo)) == 300)%Q.
Proof.
  unshelve epose proof
    (pan_translates_view Examples.env Examples.cv800 Examples.grid_photo
       Examples.map_slide 400 300 100 50 _ _ _ _ _) as H;
    [by vm_compute .. |].
  destruct H as ((Hx & _) & _). rewrite Hx. vm_compute. reflexivity.
Defined.

(** ** Handlers that return *)

Lemma holds_at_weaken {S A} (I : S -> Prop) ev_ok (ex_ok ex_ok' : exn -> Prop)
    (m : M S A) st :
  holds_at I ev_ok ex_ok m st -> (forall e, ex_ok e -> ex_ok' e) ->
  holds_at I ev_ok ex_ok' m st.
Proof.
  intros (HI & Hev & Hex) Hw. repeat split; [done | done |].
  destruct (outcome_of (m st)); [done | by apply Hw].
Qed.

Lemma holds_at_result {S A} (I : S -> Prop) ev_ok ex_ok (m : M S A) st a st' evs :
  m st = Result (Ok a) st' evs -> I st' -> Forall ev_ok evs ->
  holds_at I ev_ok ex_ok m st.
Proof. intros E HI Hev. unfold holds_at. by rewrite E. Qed.

Lemma holds_at_returns {S} (I : S -> Prop) ev_ok (m : M S unit) st :
  holds_at I ev_ok no_exn m st -> outcome_of (m st) = Ok tt.
Proof.
  intros (_ & _ & H). destruct (outcome_of (m st)) as [[]|e]; [done | by destruct H].
Qed.

Lemma open_source_outcome env path iv :
  outcome_of (open_source env path iv) = outcome_of (open_source env path no_image).
Proof.
  rewrite !open_source_run. unfold open_source_table.
  destruct (tries_openslide env path).
  - destruct (OpenSlide env path) as [s|e]; [done|].
    destruct (is_OpenSlideError e); [|done].
    by destruct (fallback_decoder env path).
  - by destruct (fallback_decoder env path).
Qed.

Lemma fallback_decoder_dims env path i :
  env_ok env -> fallback_decoder env path = Ok i ->
  dims_ok (PIL.width i, PIL.height i).
Proof.
  intros (_ & Hi & Ht). unfold fallback_decoder.
  destruct (endswith_any path tiff_extensions); intros E; [by eapply Ht | by eapply Hi].
Qed.

(** What a source that opens leaves in the image variables. *)
Lemma opened_ready env path iv iv' :
  env_ok env -> slides_ok env -> opened env path iv iv' ->
  dims_ok (slide_dimensions iv') /\ source_ready iv'.
Proof.
  intros Henv Hslides [(s & E & ->)|(i & E & ->)].
  - split; [by apply (proj1 Henv path)|].
    destruct (Hslides path s E) as (Hne & Hds). by repeat split.
  - split; [by eapply fallback_decoder_dims|]. done.
Qed.

Lemma grid_update_view_returns cv (v : Grid.viewer) :
  grid_ready v -> holds_at grid_ready any_event no_exn (Grid.update_view cv) v.
Proof.
  intros Hready. pose proof Hready as ([Hz Hd] & Hg & Hs).
  destruct (decide (Grid.loaded v)) as [Hl|Hl].
  - pose proof (zoom_in_range_nonzero _ Hz) as Hz0.
    edestruct (read_region_ready (Grid.img v)) as [r Hr]; [by apply Hs | exact Hz0 |].
    eapply holds_at_result;
      [apply (grid_update_view_run cv v r Hl Hz0 ltac:(lia) Hr) | exact Hready | done].
  - eapply holds_at_result; [by apply grid_update_view_unloaded | done | done].
Qed.

Lemma grid_update_info_returns (v : Grid.viewer) :
  grid_ready v -> holds_at grid_ready any_event no_exn Grid.update_info v.
Proof.
  intros Hready. pose proof Hready as ([Hz Hd] & Hg & Hs).
  destruct (decide (Grid.loaded v)) as [Hl|Hl].
  - eapply holds_at_result; [apply grid_update_info_run | exact Hready | done];
      [done | lia |].
    intros Hu. specialize (Hs Hl). unfold source_ready in Hs. rewrite Hu in Hs.
    apply Hs.
  - eapply holds_at_result; [by apply grid_update_info_unloaded | done | done].
Qed.

Lemma grid_ready_zoom z (v : Grid.viewer) :
  zoom_in_range z -> grid_ready v -> grid_ready (Grid.with_zoom z v).
Proof.
  intros Hz ([_ Hd] & Hg & Hs).
  split; [split; [exact Hz | exact Hd]|]. split; [exact Hg | exact Hs].
Qed.

Lemma get_best_level_ready iv zoom :
  source_ready iv -> ~ (zoom == 0)%Q -> exists level, get_best_level iv zoom = Ok level.
Proof.
  intros Hready Hz. destruct (use_openslide iv) eqn:Hu.
  - unfold source_ready in Hready. rewrite Hu in Hready.
    destruct Hready as (_ & Hne & _).
    destruct (get_best_level_pyramid iv zoom Hu Hne Hz) as (i & Hi & _). by eexists.
  - eexists. by apply get_best_level_flat.
Qed.

Lemma grid_view_action_returns env cv a :
  int_str_ok env -> grid_view_action a ->
  maintains grid_ready any_event no_exn (Grid.handle env (cv, a)).
Proof.
  intros Hint Ha st Hready. pose proof Hready as ([Hz Hd] & Hg & Hs).
  pose proof (zoom_in_range_nonzero _ Hz) as Hz0.
  unfold Grid.handle. simpl.
  destruct a as [path| |size|spin_col spin_row| | |e_x e_y|e_x e_y|]; try done.
  - unfold Grid.toggle_grid. do 2 mstep. by apply grid_update_view_returns.
  - unfold Grid.goto_sector. mstep. mstep; [by mstep|].
    apply (at_try (fun e => e = ValueError)).
    + apply at_bind_lift. destruct (int_str env spin_col) as [col|e] eqn:Ecol.
      2: { split; [done | by eapply Hint]. }
      apply at_bind_lift. destruct (int_str env spin_row) as [row|e] eqn:Erow.
      2: { split; [done | by eapply Hint]. }
      mstep; [by mstep|].
      rewrite !(py_truediv_ok _ _ Hz0). do 4 mstep.
      eapply holds_at_weaken; [by apply grid_update_view_returns | by intros e He].
    + intros e st' Hst' _ _. by mstep.
    + by intros e ->.
  - unfold Grid.zoom_in. mstep. mstep; [by mstep|]. do 2 mstep.
    assert (Hr1 : grid_ready (Grid.with_zoom (Qmin (Grid.zoom st * 1.5) 10.0) st)).
    { by apply grid_ready_zoom; [apply zoom_in_range_in|]. }
    apply (at_bind grid_ready); [|done|].
    { mstep; [|by mstep].
      edestruct (get_best_level_ready (Grid.img st)) as [level ->];
        [apply Hs; by apply Z.eqb_neq| |by msteps].
      apply zoom_in_range_nonzero. by apply zoom_in_range_in. }
    intros _ st' Hst'. by apply grid_update_view_returns.
  - unfold Grid.zoom_out. mstep. mstep; [by mstep|]. do 2 mstep.
    assert (Hr1 : grid_ready (Grid.with_zoom (Qmax (Grid.zoom st / 1.5) 0.05) st)).
    { by apply grid_ready_zoom; [apply zoom_in_range_out|]. }
    apply (at_bind grid_ready); [|done|].
    { mstep; [|by mstep].
      edestruct (get_best_level_ready (Grid.img st)) as [level ->];
        [apply Hs; by apply Z.eqb_neq| |by msteps].
      apply zoom_in_range_nonzero. by apply zoom_in_range_out. }
    intros _ st' Hst'. by apply grid_update_view_returns.
  - unfold Grid.pan. mstep.
    destruct (Grid.pan_start st) as [[sx sy]|]; [|by mstep].
    mstep; [by mstep|].
    rewrite !(py_truediv_ok _ _ Hz0). do 5 mstep.
    by apply grid_update_view_returns.
  - unfold Grid.reset. do 3 mstep. apply grid_update_view_returns.
    apply (grid_ready_zoom 1.0 _ zoom_in_range_1). done.
Qed.

Lemma grid_set_grid_size_returns cv size :
  0 < size -> maintains grid_ready any_event no_exn (Grid.set_grid_size cv size).
Proof.
  intros Hsize st ([Hz Hd] & Hg & Hs). unfold Grid.set_grid_size. mstep.
  assert (Hr1 : grid_ready (Grid.with_grid_size size st)).
  { split; [split; [exact Hz | exact Hd]|]. split; [exact Hsize | exact Hs]. }
  apply (at_bind grid_ready); [by apply grid_update_info_returns | done |].
  intros _ st' Hst'. by apply grid_update_view_returns.
Qed.

Lemma grid_reset_returns cv :
  maintains grid_ready any_event no_exn (Grid.reset cv).
Proof.
  intros st Hready. unfold Grid.reset. do 3 mstep. apply grid_update_view_returns.
  apply (grid_ready_zoom 1.0 _ zoom_in_range_1). exact Hready.
Qed.

Lemma try_except_all_outcome {S} (body : M S unit) handler (st : S) :
  (forall e st', outcome_of (handler e st') = Ok tt) ->
  outcome_of (try_except body is_Exception handler st) = Ok tt.
Proof.
  intros H. unfold try_except.
  destruct (outcome_of (body st)) as [[]|e] eqn:E; [by rewrite E|].
  simpl. apply H.
Qed.

(** [load_image] catches whatever is raised. *)
Lemma grid_load_image_outcome env cv path (v : Grid.viewer) :
  outcome_of (Grid.load_image env cv path v) = Ok tt.
Proof.
  unfold Grid.load_image. destruct (String.eqb path ""); [done|].
  by apply try_except_all_outcome.
Qed.

Lemma grid_load_image_ready env cv path (v : Grid.viewer) :
  env_ok env -> slides_ok env -> grid_ready v ->
  file_opens env path \/ ~ Grid.loaded v ->
  grid_ready (after (Grid.load_image env cv path) v).
Proof.
  intros Henv Hslides Hready Hopens. pose proof Hready as ([Hz Hd] & Hg & Hs).
  assert (H : holds_at grid_ready any_event any_exn (Grid.load_image env cv path) v);
    [|apply H].
  unfold Grid.load_image. destruct (String.eqb path "") eqn:Epath; [by mstep|].
  apply (at_try any_exn); [| |done].
  - destruct (open_source_cases env path (Grid.img v)) as [(iv' & Hopen & E)|(e & E)].
    + destruct (opened_ready env path _ _ Henv Hslides Hopen) as [Hd' Hs'].
      apply (at_bind_result _ _ _ _ _ _ tt (Grid.with_img iv' v)
               (closing (Grid.img v))); [|done|].
      { unfold zoom_state. by rewrite E. }
      assert (Hr1 : grid_ready (Grid.with_img iv' v)).
      { split; [split; [exact Hz | exact Hd']|].
        split; [exact Hg | intros _; exact Hs']. }
      apply (at_bind grid_ready); [|done|].
      { eapply holds_at_weaken; [by apply grid_update_info_returns | done]. }
      intros _ st1 Hst1. apply (at_bind grid_ready); [|done|].
      { eapply holds_at_weaken;
          [by apply grid_reset_returns | done]. }
      intros _ st2 Hst2. msteps.
    + apply (at_bind_raise _ _ _ _ _ _ e (Grid.with_img (released (Grid.img v)) v)
               (closing (Grid.img v))); [|done| |done].
      { unfold zoom_state. by rewrite E. }
      destruct Hopens as [[->|Hok]|Hl]; [done | |].
      * rewrite <- (open_source_outcome env path (Grid.img v)), E in Hok. done.
      * split; [done|]. split; [done|]. intros Hl'. by destruct Hl.
  - intros e st' Hst' _ _. msteps.
Qed.

(** A handler of the grid viewer returns and keeps the viewer ready: always
    when no image was loaded before, and otherwise when the chosen file
    opens. *)
Lemma grid_handle_returns env (step : canvas * Grid.action) (v : Grid.viewer) :
  env_ok env -> slides_ok env -> int_str_ok env ->
  grid_ready v -> grid_button_exists step ->
  outcome_of (Grid.handle env step v) = Ok tt /\
  (grid_load_opens env step \/ ~ Grid.loaded v ->
   grid_ready (after (Grid.handle env step) v)).
Proof.
  intros Henv Hslides Hint Hready Hb. destruct step as [cv a].
  destruct a as [path| |size|spin_col spin_row| | |e_x e_y|e_x e_y|];
    try (match goal with
         | |- context [Grid.handle env (cv, ?a)] =>
             pose proof (grid_view_action_returns env cv a Hint Logic.I v Hready) as H
         end;
         split; [by eapply holds_at_returns | intros _; apply H]).
  - split; [apply grid_load_image_outcome|].
    intros Hopens. by apply grid_load_image_ready.
  - pose proof (grid_set_grid_size_returns cv size
                  (grid_sizes_positive _ Hb) v Hready) as H.
    split; [by eapply holds_at_returns | intros _; apply H].
Qed.


Lemma digits_value_raises s acc e :
  Examples.digits_value s acc = Raise e -> e = ValueError.
Proof.
  revert acc. induction s as [|c s IH]; intros acc; simpl; [done|].
  destruct (_ && _); [apply IH | by intros [= <-]].
Qed.

Lemma examples_int_str_ok : int_str_ok Examples.env.
Proof.
  intros s e. simpl. unfold Examples.decimal_int.
  destruct s as [|c s]; [by intros [= <-]|].
  destruct (Ascii.eqb c _); [|apply digits_value_raises].
  destruct s as [|c' s']; [by intros [= <-]|].
  destruct (Examples.digits_value (String c' s') 0) as [n|e'] eqn:E; [done|].
  simpl. intros [= <-]. by eapply digits_value_raises.
Qed.

Lemma examples_slides_ok : slides_ok Examples.env.
Proof.
  intros path s. simpl. destruct (String.eqb path "slide.svs"); [|done].
  intros [= <-]. simpl. split; [done|].
  repeat constructor; by vm_compute.
Qed.

Lemma grid_photo_ready : grid_ready Examples.grid_photo.
Proof.
  split; [by vm_compute|]. split; [by vm_compute|]. intros _. by vm_compute.
Qed.


(** ** The tracking viewer: handlers that return *)

Lemma length_imap' {A B} (f : nat -> A -> B) (l : list A) : length (imap f l) = length l.
Proof. revert f. induction l as [|x l IH]; intros f; simpl; [done|]. by rewrite IH. Qed.

Lemma np_wf_set_slice_true g r0 r1 c0 c1 :
  np.wf g -> np.wf (np.set_slice_true g r0 r1 c0 c1).
Proof.
  intros [Hrows Hcols]. split; simpl.
  - by rewrite length_imap'.
  - rewrite Forall_forall in Hcols. apply Forall_forall. intros row Hrow.
    apply list_elem_of_lookup_1 in Hrow as [i Hi].
    rewrite list_lookup_imap in Hi.
    destruct (np.cells g !! i) as [row0|] eqn:E; [|done]. simpl in Hi.
    pose proof (Hcols row0 (list_elem_of_lookup_2 _ _ _ E)) as Hlen.
    destruct (np.in_slice _ r0 r1 _); injection Hi as <-; [|done].
    by rewrite length_imap'.
Qed.

Lemma np_wf_fill b g : np.wf g -> np.wf (np.fill b g).
Proof.
  intros [Hrows Hcols]. split; simpl.
  - by rewrite length_map.
  - apply Forall_map. eapply Forall_impl; [exact Hcols|].
    intros row Hrow. simpl. by rewrite length_map.
Qed.

(** Replacing the grid of a bucket by one of the same shape keeps the grids
    allocated. *)
Lemma tracking_allocated_insert (v : Map.viewer) level g g' :
  Map.tracking_allocated v ->
  Map.tracking_grids v !! level = Some (Some g) ->
  np.wf g' -> np.shape g' = np.shape g ->
  Map.tracking_allocated
    (Map.with_tracking_grids (<[level := Some g']> (Map.tracking_grids v)) v).
Proof.
  intros Halloc Hg Hwf Hshape p Hp. simpl.
  destruct (decide (p = level)) as [->|Hne].
  - rewrite lookup_insert_eq. exists g'. split; [done|]. split; [done|].
    destruct (Halloc level Hp) as (g0 & Hg0 & _ & Hs). rewrite Hg in Hg0.
    injection Hg0 as <-. by rewrite Hshape.
  - rewrite lookup_insert_ne by done. apply Halloc, Hp.
Qed.

Lemma map_ready_loaded (v : Map.viewer) :
  map_ready v -> Map.loaded v ->
  zoom_in_range (Map.zoom v) /\ dims_ok (slide_dimensions (Map.img v)) /\
  source_ready (Map.img v) /\ thumbnail_source_ready (Map.img v) /\
  snd (slide_dimensions (Map.img v)) <> 0 /\ Map.tracking_allocated v.
Proof. intros ([Hz Hd] & Hs & _) Hl. destruct (Hs Hl) as (? & ? & ? & ?). done. Qed.

Lemma map_mark_visited_returns cv (v : Map.viewer) :
  map_ready v ->
  (0 <= Map.offset_x v /\
   Map.offset_x v <= inject_Z (fst (slide_dimensions (Map.img v))))%Q ->
  (0 <= Map.offset_y v /\
   Map.offset_y v <= inject_Z (snd (slide_dimensions (Map.img v))))%Q ->
  exists G,
    Map.mark_visited cv v = Result (Ok tt) (Map.with_tracking_grids G v) [] /\
    map_ready (Map.with_tracking_grids G v).
Proof.
  intros Hready Hx Hy.
  destruct (decide (Map.loaded v)) as [Hl|Hl].
  - destruct (map_ready_loaded v Hready Hl) as (Hz & Hd & Hs & Ht & Hh & Halloc).
    destruct (mark_visited_run cv v Hl (conj Hz Hd) Halloc Hx Hy)
      as (level & g & _ & Hin & Hg & Hwf & Hrect).
    simpl in Hrect. destruct Hrect as (_ & _ & Hrun).
    eexists. split; [exact Hrun|].
    destruct Hready as (Hgood & _ & Hscale).
    split; [exact Hgood|]. split; [|exact Hscale].
    intros _. split; [exact Hs|]. split; [exact Ht|]. split; [exact Hh|].
    apply (tracking_allocated_insert v level g); try done.
    by apply np_wf_set_slice_true.
  - exists (Map.tracking_grids v).
    assert (E : Map.with_tracking_grids (Map.tracking_grids v) v = v) by (by destruct v).
    rewrite E. split; [|done].
    unfold Map.mark_visited. rewrite run_bind_get.
    replace (fst (slide_dimensions (Map.img v)) =? 0) with true; [done|].
    symmetry. apply Z.eqb_eq. unfold Map.loaded in Hl. lia.
Qed.

Lemma Qdiv_nonzero a b : ~ (a == 0)%Q -> ~ (b == 0)%Q -> ~ (a / b == 0)%Q.
Proof.
  intros Ha Hb E. apply Ha.
  assert (Hab : (a == a / b * b)%Q) by (by field).
  rewrite Hab, E. ring.
Qed.

Lemma map_update_viewport_rect_returns (I : Map.viewer -> Prop) cv (v : Map.viewer) :
  I v -> ~ (Map.zoom v == 0)%Q ->
  holds_at I any_event no_exn (Map.update_viewport_rect cv) v.
Proof.
  intros HI Hz. unfold Map.update_viewport_rect. mstep. mstep; [by mstep|].
  destruct (Map.map_thumbnail v); [|by mstep].
  rewrite !(py_truediv_ok _ _ Hz). by do 3 mstep.
Qed.

Lemma map_update_map_returns env cv (v : Map.viewer) :
  thumbnail_ok env -> map_ready v ->
  holds_at map_ready any_event no_exn (Map.update_map env cv) v.
Proof.
  intros Hthumb Hready. unfold Map.update_map. mstep. mstep; [by mstep|].
  assert (Hl : Map.loaded v) by (by apply Z.eqb_neq).
  destruct (map_ready_loaded v Hready Hl) as (Hz & Hd & Hs & Ht & Hh & Halloc).
  apply at_bind_lift.
  match goal with
  | |- match ?o with _ => _ end =>
      assert (Ho : exists thumb, o = Ok thumb /\ 0 < fst thumb /\ 0 < snd thumb)
  end.
  { unfold thumbnail_source_ready, source_ready in Ht, Hs.
    destruct (use_openslide (Map.img v)).
    - destruct Ht as (size & -> & Hw & Hh'). destruct Hs as (Hslide & _).
      destruct (slide (Map.img v)); [|done]. simpl.
      eexists. split; [done|]. by apply Hthumb.
    - destruct Ht as (i & -> & Hw & Hh'). simpl.
      eexists. split; [done|]. by apply Hthumb. }
  destruct Ho as (thumb & -> & Htw & Hth).
  assert (HW : ~ (inject_Z (fst (slide_dimensions (Map.img v))) == 0)%Q).
  { by apply inject_Z_nonzero. }
  assert (HH : ~ (inject_Z (snd (slide_dimensions (Map.img v))) == 0)%Q).
  { by apply inject_Z_nonzero. }
  rewrite !(py_truediv_ok _ _ HW), !(py_truediv_ok _ _ HH). do 5 mstep.
  apply map_update_viewport_rect_returns; [|by apply zoom_in_range_nonzero].
  destruct Hready as (Hgood & Hload & _).
  split; [exact Hgood|]. split; [exact Hload|]. intros _. simpl. split.
  - apply Qdiv_nonzero; [apply inject_Z_nonzero; lia | done].
  - apply Qdiv_nonzero; [apply inject_Z_nonzero; lia | done].
Qed.

Lemma map_ready_offsets x y (v : Map.viewer) :
  map_ready v -> map_ready (Map.with_offset_y y (Map.with_offset_x x v)).
Proof. intros H. exact H. Qed.

Lemma map_update_view_returns env cv (v : Map.viewer) :
  thumbnail_ok env -> map_ready v ->
  holds_at map_ready any_event no_exn (Map.update_view env cv) v.
Proof.
  intros Hthumb Hready. unfold Map.update_view. mstep. mstep; [by mstep|].
  assert (Hl : Map.loaded v) by (by apply Z.eqb_neq).
  destruct (map_ready_loaded v Hready Hl) as (Hz & Hd & Hs & Ht & Hh & Halloc).
  pose proof (zoom_in_range_nonzero _ Hz) as Hz0.
  rewrite !(py_truediv_ok _ _ Hz0). do 4 mstep.
  fold (view_size (winfo_width cv) (Map.zoom v) (fst (slide_dimensions (Map.img v)))).
  fold (view_size (winfo_height cv) (Map.zoom v) (snd (slide_dimensions (Map.img v)))).
  set (vw := view_size (winfo_width cv) (Map.zoom v) (fst (slide_dimensions (Map.img v)))).
  set (vh := view_size (winfo_height cv) (Map.zoom v) (snd (slide_dimensions (Map.img v)))).
  fold (clamp_offset (Map.offset_x v) (fst (slide_dimensions (Map.img v))) vw).
  fold (clamp_offset (Map.offset_y v) (snd (slide_dimensions (Map.img v))) vh).
  set (cx := clamp_offset (Map.offset_x v) (fst (slide_dimensions (Map.img v))) vw).
  set (cy := clamp_offset (Map.offset_y v) (snd (slide_dimensions (Map.img v))) vh).
  set (v1 := Map.with_offset_y cy (Map.with_offset_x cx v)).
  pose proof (view_size_bounds (winfo_width cv) _ _ (proj1 Hd) (zoom_in_range_pos _ Hz))
    as Hbw.
  pose proof (view_size_bounds (winfo_height cv) _ _ (proj2 Hd) (zoom_in_range_pos _ Hz))
    as Hbh.
  destruct (clamp_offset_bounds (Map.offset_x v) _ _ Hbw) as [Hx0 Hx1].
  destruct (clamp_offset_bounds (Map.offset_y v) _ _ Hbh) as [Hy0 Hy1].
  fold vw cx in Hx0, Hx1. fold vh cy in Hy0, Hy1.
  pose proof (inject_Z_le 0 vw ltac:(unfold vw; lia)) as Hvw0.
  pose proof (inject_Z_le 0 vh ltac:(unfold vh; lia)) as Hvh0.
  change (inject_Z 0) with 0%Q in Hvw0, Hvh0.
  destruct (map_mark_visited_returns cv v1) as (G & Hrun & HreadyG).
  { exact Hready. }
  { simpl. split; [done | lra]. }
  { simpl. split; [done | lra]. }
  apply (at_bind_result _ _ _ _ _ _ tt (Map.with_tracking_grids G v1) []);
    [exact Hrun | done |].
  mstep. apply (at_bind map_ready); [|done|].
  { unfold call_read_region. mstep. mstep; [done|].
    edestruct (read_region_ready (Map.img v)) as [r Hr]; [exact Hs | exact Hz0 |].
    simpl. rewrite Hr. by apply at_lift. }
  intros r st' Hst'. mstep; [done|]. by apply map_update_map_returns.
Qed.

Lemma map_ready_zoom z (v : Map.viewer) :
  zoom_in_range z -> map_ready v -> map_ready (Map.with_zoom z v).
Proof.
  intros Hz ([_ Hd] & Hl & Hs).
  split; [split; [exact Hz | exact Hd]|]. split; [exact Hl | exact Hs].
Qed.

Lemma map_reset_returns env cv :
  thumbnail_ok env -> maintains map_ready any_event no_exn (Map.reset env cv).
Proof.
  intros Hthumb st Hready. unfold Map.reset. do 3 mstep.
  apply map_update_view_returns; [done|].
  apply (map_ready_zoom 1.0 _ zoom_in_range_1). exact Hready.
Qed.

Lemma tracking_allocated_fill (v : Map.viewer) :
  Map.tracking_allocated v ->
  Map.tracking_allocated
    (Map.with_tracking_grids
       (fmap (M:=gmap Z) (fmap (M:=option) (np.fill false)) (Map.tracking_grids v)) v).
Proof.
  intros Halloc p Hp. destruct (Halloc p Hp) as (g & Hg & Hwf & Hshape).
  exists (np.fill false g). simpl. rewrite lookup_fmap, Hg. simpl.
  split; [done|]. split; [by apply np_wf_fill | done].
Qed.

Lemma map_view_action_returns env cv a :
  thumbnail_ok env -> Map.button_exists (cv, a) ->
  (forall path, a <> Map.LoadImage path) ->
  maintains map_ready any_event no_exn (Map.handle env (cv, a)).
Proof.
  intros Hthumb Hb Ha st Hready. pose proof Hready as ([Hz Hd] & Hload & Hscale).
  pose proof (zoom_in_range_nonzero _ Hz) as Hz0.
  unfold Map.handle. simpl.
  destruct a as [path|percent| | |e_x e_y|e_x e_y| | |e_x e_y].
  - by destruct (Ha path).
  - unfold Map.set_zoom_percent. mstep. mstep; [by mstep|]. mstep.
    apply map_update_view_returns; [done|].
    apply map_ready_zoom; [by apply quick_zoom_in_range | exact Hready].
  - unfold Map.zoom_in. mstep. mstep; [by mstep|]. mstep.
    apply map_update_view_returns; [done|].
    apply map_ready_zoom; [by apply zoom_in_range_in | exact Hready].
  - unfold Map.zoom_out. mstep. mstep; [by mstep|]. mstep.
    apply map_update_view_returns; [done|].
    apply map_ready_zoom; [by apply zoom_in_range_out | exact Hready].
  - unfold Map.button_press. mstep. exact Hready.
  - unfold Map.pan. mstep.
    destruct (Map.pan_start st) as [[sx sy]|]; [|by mstep].
    mstep; [by mstep|].
    rewrite !(py_truediv_ok _ _ Hz0). do 5 mstep.
    apply map_update_view_returns; [done | exact Hready].
  - by apply map_reset_returns.
  - unfold Map.clear_tracking. do 2 mstep.
    apply (at_bind map_ready); [|done|].
    + apply map_update_map_returns; [done|].
      split; [exact (conj Hz Hd)|]. split; [|exact Hscale].
      intros Hl. destruct (Hload Hl) as (Hs & Ht & Hh & Halloc).
      split; [exact Hs|]. split; [exact Ht|]. split; [exact Hh|].
      by apply tracking_allocated_fill.
    + intros _ st' Hst'. by mstep.
  - unfold Map.click_map. mstep. mstep; [by mstep|].
    destruct (Map.map_thumbnail st) as [[tw th]|] eqn:Et; [|by mstep].
    destruct Hscale as [Hsx Hsy]; [done|].
    rewrite (py_truediv_ok _ _ Hsx), (py_truediv_ok _ _ Hsy).
    rewrite !(py_truediv_ok _ _ Hz0). do 6 mstep.
    apply map_update_view_returns; [done | exact Hready].
Qed.

Lemma env_positive_ok env : env_positive env -> env_ok env.
Proof.
  intros (Hs & Hi & Ht). split; [|split].
  - intros path s E. destruct (Hs path s E). split; lia.
  - intros path i E. destruct (Hi path i E). split; simpl; lia.
  - intros path i E. destruct (Ht path i E). split; simpl; lia.
Qed.

Lemma fallback_decoder_positive env path i :
  env_positive env -> fallback_decoder env path = Ok i ->
  0 < PIL.width i /\ 0 < PIL.height i.
Proof.
  intros (_ & Hi & Ht). unfold fallback_decoder.
  destruct (endswith_any path tiff_extensions); intros E; [by eapply Ht | by eapply Hi].
Qed.

(** What a source that opens leaves for the tracking viewer. *)
Lemma opened_map_ready env path iv iv' :
  env_positive env -> slides_ok env -> pyramids_ok env -> opened env path iv iv' ->
  (0 < fst (slide_dimensions iv') /\ 0 < snd (slide_dimensions iv')) /\
  source_ready iv' /\ thumbnail_source_ready iv'.
Proof.
  intros Hpos Hslides Hpyr Hopen.
  destruct (opened_ready env path iv iv' (env_positive_ok _ Hpos) Hslides Hopen)
    as [_ Hs].
  split; [|split; [exact Hs|]].
  - destruct Hopen as [(s & E & ->)|(i & E & ->)]; simpl.
    + by apply (proj1 Hpos path).
    + by eapply fallback_decoder_positive.
  - destruct Hopen as [(s & E & ->)|(i & E & ->)];
      unfold thumbnail_source_ready; simpl.
    + by apply (Hpyr path).
    + exists i. split; [done|]. by eapply fallback_decoder_positive.
Qed.

(** [initialize_tracking] allocates the grids of the image. *)
Lemma initialize_tracking_allocated (v : Map.viewer) :
  dims_ok (slide_dimensions (Map.img v)) ->
  exists G,
    Map.initialize_tracking v = Result (Ok tt) (Map.with_tracking_grids G v) [] /\
    Map.tracking_allocated (Map.with_tracking_grids G v).
Proof.
  intros Hd. pose proof (initialize_tracking_run v Hd) as Hrun. simpl in Hrun.
  eexists. split; [exact Hrun|].
  pose proof (Z.div_pos _ 100 (proj1 Hd) ltac:(lia)) as Hc.
  pose proof (Z.div_pos _ 100 (proj2 Hd) ltac:(lia)) as Hr.
  intros p Hp. eexists. simpl. split.
  - unfold Map.tracking_levels in Hp.
    repeat (apply elem_of_cons in Hp as [->|Hp]; [by simplify_map_eq|]).
    by apply elem_of_nil in Hp.
  - split; [apply np_zeros_wf; unfold Map.grid_cell_size; lia | done].
Qed.

Lemma map_load_image_outcome env cv path (v : Map.viewer) :
  outcome_of (Map.load_image env cv path v) = Ok tt.
Proof.
  unfold Map.load_image. destruct (String.eqb path ""); [done|].
  by apply try_except_all_outcome.
Qed.

Lemma map_load_image_ready env cv path (v : Map.viewer) :
  env_positive env -> slides_ok env -> pyramids_ok env -> thumbnail_ok env ->
  map_ready v ->
  file_opens env path \/ ~ Map.loaded v ->
  map_ready (after (Map.load_image env cv path) v).
Proof.
  intros Hpos Hslides Hpyr Hthumb Hready Hopens.
  pose proof Hready as ([Hz Hd] & Hload & Hscale).
  assert (H : holds_at map_ready any_event any_exn (Map.load_image env cv path) v);
    [|apply H].
  unfold Map.load_image. destruct (String.eqb path "") eqn:Epath; [by mstep|].
  apply (at_try any_exn); [| |done].
  - destruct (open_source_cases env path (Map.img v)) as [(iv' & Hopen & E)|(e & E)].
    + destruct (opened_map_ready env path _ _ Hpos Hslides Hpyr Hopen)
        as ([Hw Hh] & Hs' & Ht').
      apply (at_bind_result _ _ _ _ _ _ tt (Map.with_img iv' v)
               (closing (Map.img v))); [|done|].
      { unfold zoom_state. by rewrite E. }
      destruct (initialize_tracking_allocated (Map.with_img iv' v)) as (G & EG & HG).
      { simpl. split; lia. }
      apply (at_bind_result _ _ _ _ _ _ tt _ [] EG); [done|].
      set (v2 := Map.with_tracking_grids G (Map.with_img iv' v)).
      assert (Hr2 : map_ready v2).
      { split; [split; [exact Hz | simpl; split; lia]|]. split; [|exact Hscale].
        intros _. split; [exact Hs'|]. split; [exact Ht'|]. split; [simpl; lia|].
        exact HG. }
      apply (at_bind map_ready); [|done|].
      { unfold Map.update_info. mstep.
        destruct (use_openslide (Map.img v2)) eqn:Hu; [|by mstep].
        unfold source_ready in Hs'. simpl in Hu. rewrite Hu in Hs'.
        destruct Hs' as (Hslide & _). simpl.
        destruct (slide iv'); [|done]. by msteps. }
      intros _ st1 Hst1. apply (at_bind map_ready); [|done|].
      { eapply holds_at_weaken; [by apply map_reset_returns | done]. }
      intros _ st2 Hst2. msteps.
    + apply (at_bind_raise _ _ _ _ _ _ e (Map.with_img (released (Map.img v)) v)
               (closing (Map.img v))); [|done| |done].
      { unfold zoom_state. by rewrite E. }
      destruct Hopens as [[->|Hok]|Hl]; [done | |].
      * rewrite <- (open_source_outcome env path (Map.img v)), E in Hok. done.
      * split; [exact (conj Hz Hd)|]. split; [|exact Hscale].
        intros Hl'. by destruct Hl.
  - intros e st' Hst' _ _. msteps.
Qed.

(** A handler of the tracking viewer returns and keeps the viewer ready:
    always when no image was loaded before, and otherwise when the chosen
    file opens. *)
Lemma map_handle_returns env (step : canvas * Map.action) (v : Map.viewer) :
  env_positive env -> slides_ok env -> pyramids_ok env -> thumbnail_ok env ->
  map_ready v -> Map.button_exists step ->
  outcome_of (Map.handle env step v) = Ok tt /\
  (map_load_opens env step \/ ~ Map.loaded v ->
   map_ready (after (Map.handle env step) v)).
Proof.
  intros Hpos Hslides Hpyr Hthumb Hready Hb. destruct step as [cv a].
  destruct a as [path|percent| | |e_x e_y|e_x e_y| | |e_x e_y];
    try (match goal with
         | |- context [Map.handle env (cv, ?a)] =>
             pose proof (map_view_action_returns env cv a Hthumb Hb
                           ltac:(intros; discriminate) v Hready) as H
         end;
         split; [by eapply holds_at_returns | intros _; apply H]).
  split; [apply map_load_image_outcome|].
  intros Hopens. by apply map_load_image_ready.
Qed.


Lemma outcomes_all_ok {S A} (handle : A -> M S unit) (I : S -> Prop) (P : A -> Prop)
    steps st :
  I st ->
  (forall a st, P a -> I st ->
     outcome_of (handle a st) = Ok tt /\ I (state_of (handle a st))) ->
  Forall P steps ->
  Forall (fun o => o = Ok tt) (outcomes handle steps st).
Proof.
  intros HI Hstep Hsteps. revert st HI.
  induction Hsteps as [|a steps Ha Hsteps IH]; intros st HI; simpl; [done|].
  destruct (Hstep a st Ha HI) as [Ho HI']. constructor; [done | by apply IH].
Qed.

Lemma grid_init_ready : grid_ready Grid.init.
Proof.
  split; [by vm_compute|]. split; [done|]. intros H. by destruct H.
Qed.

Lemma map_init_ready : map_ready Map.init.
Proof.
  split; [by vm_compute|]. split; [intros H; by destruct H | by intros H].
Qed.


Lemma examples_env_positive : env_positive Examples.env.
Proof.
  repeat split; simpl in *; repeat case_match; simplify_eq; simpl; lia.
Qed.
Lemma examples_pyramids_ok : pyramids_ok Examples.env.
Proof.
  intros path s. simpl. destruct (String.eqb path "slide.svs"); [|done].
  intros [= <-]. exists (2500, 1875). by vm_compute.
Qed.
Lemma examples_thumbnail_ok : thumbnail_ok Examples.env.
Proof.
  intros [w h] [bw bh]. simpl. intros Hw Hh Hbw Hbh.
  repeat case_match; simpl; lia.
Qed.
Lemma map_slide_ready :
  map_ready (after (Map.load_image Examples.env Examples.cv800 "slide.svs") Map.init).
Proof.
  apply map_load_image_ready.
  - exact examples_env_positive.
  - exact examples_slides_ok.
  - exact examples_pyramids_ok.
  - exact examples_thumbnail_ok.
  - exact map_init_ready.
  - right. intros H. apply H. reflexivity.
Qed.



(** ** What the handlers of the tracking viewer keep *)

Lemma map_with_tracking_grids_same (v : Map.viewer) :
  Map.with_tracking_grids (Map.tracking_grids v) v = v.
Proof. by destruct v. Qed.

(** [mark_visited] assigns nothing but the grids and opens no dialog. *)
Lemma map_mark_visited_frame cv (v : Map.viewer) :
  exists o G, Map.mark_visited cv v = Result o (Map.with_tracking_grids G v) [].
Proof.
  unfold Map.mark_visited. rewrite run_bind_get.
  destruct (fst (slide_dimensions (Map.img v)) =? 0).
  { exists (Ok tt), (Map.tracking_grids v). by rewrite map_with_tracking_grids_same. }
  destruct (Map.get_tracking_level (py_int (Map.zoom v * 100))) as [level|e].
  2: { exists (Raise e), (Map.tracking_grids v).
       by rewrite map_with_tracking_grids_same, run_bind_lift_raise. }
  rewrite run_bind_lift_ok.
  destruct (Map.tracking_grids v !! level) as [grid|].
  2: { exists (Ok tt), (Map.tracking_grids v). by rewrite map_with_tracking_grids_same. }
  destruct (py_truediv (inject_Z (Z.max (winfo_width cv) 1)) (Map.zoom v)) as [vw|e].
  2: { exists (Raise e), (Map.tracking_grids v).
       by rewrite map_with_tracking_grids_same, run_bind_lift_raise. }
  rewrite run_bind_lift_ok.
  destruct (py_truediv (inject_Z (Z.max (winfo_height cv) 1)) (Map.zoom v)) as [vh|e].
  2: { exists (Raise e), (Map.tracking_grids v).
       by rewrite map_with_tracking_grids_same, run_bind_lift_raise. }
  rewrite run_bind_lift_ok.
  destruct grid as [g|]; simpl not_None.
  - rewrite run_bind_lift_ok. by eexists _, _.
  - exists (Raise AttributeError), (Map.tracking_grids v).
    by rewrite map_with_tracking_grids_same, run_bind_lift_raise.
Qed.

(** [update_view] keeps what [mark_visited] keeps, if it does not depend on
    the offsets and the map. *)
Lemma map_update_view_keeps (I : Map.viewer -> Prop) env cv :
  (forall x s, I s -> I (Map.with_offset_x x s)) ->
  (forall x s, I s -> I (Map.with_offset_y x s)) ->
  (forall x s, I s -> I (Map.with_map_scale_x x s)) ->
  (forall x s, I s -> I (Map.with_map_scale_y x s)) ->
  (forall x s, I s -> I (Map.with_map_thumbnail x s)) ->
  (forall s, I s -> I (state_of (Map.mark_visited cv s))) ->
  maintains I any_event any_exn (Map.update_view env cv).
Proof.
  intros Hx Hy Hsx Hsy Hth Hmark st HI.
  unfold Map.update_view. mstep. mstep; [by mstep|].
  mstep_lift. mstep_lift. do 2 mstep.
  match goal with
  | |- holds_at _ _ _ (_ ≫= _) ?s => set (st1 := s)
  end.
  assert (HI1 : I st1) by (unfold st1; auto).
  destruct (map_mark_visited_frame cv st1) as (o & G & E).
  pose proof (Hmark st1 HI1) as HI2. rewrite E in HI2. simpl in HI2.
  destruct o as [[]|e].
  - apply (at_bind_result _ _ _ _ _ _ tt _ [] E); [done|].
    mstep. apply (at_bind I); [|done|].
    { by apply call_read_region_holds. }
    intros r s' HIs'. mstep; [done|].
    by apply map_update_map_holds.
  - by apply (at_bind_raise _ _ _ _ _ _ e _ [] E).
Qed.

(** The handlers other than [load_image] and [clear_tracking] keep what
    [mark_visited] keeps, if it does not depend on the view and the map. *)
Lemma map_handle_keeps (I : Map.viewer -> Prop) env cv a :
  (forall x s, I s -> I (Map.with_offset_x x s)) ->
  (forall x s, I s -> I (Map.with_offset_y x s)) ->
  (forall x s, I s -> I (Map.with_map_scale_x x s)) ->
  (forall x s, I s -> I (Map.with_map_scale_y x s)) ->
  (forall x s, I s -> I (Map.with_map_thumbnail x s)) ->
  (forall x s, I s -> I (Map.with_zoom x s)) ->
  (forall x s, I s -> I (Map.with_pan_start x s)) ->
  (forall cv' s, I s -> I (state_of (Map.mark_visited cv' s))) ->
  map_view_action a ->
  maintains I any_event any_exn (Map.handle env (cv, a)).
Proof.
  intros Hx Hy Hsx Hsy Hth Hz Hp Hmark Ha.
  assert (Hview : maintains I any_event any_exn (Map.update_view env cv)).
  { apply map_update_view_keeps; auto. }
  unfold Map.handle. simpl.
  destruct a as [path|percent| | |e_x e_y|e_x e_y| | |e_x e_y]; try done.
  - intros st HI. unfold Map.set_zoom_percent. mstep. mstep; [by mstep|]. mstep.
    apply Hview. auto.
  - intros st HI. unfold Map.zoom_in. mstep. mstep; [by mstep|]. mstep.
    apply Hview. auto.
  - intros st HI. unfold Map.zoom_out. mstep. mstep; [by mstep|]. mstep.
    apply Hview. auto.
  - intros st HI. unfold Map.button_press. mstep. auto.
  - intros st HI. unfold Map.pan. mstep.
    destruct (Map.pan_start st) as [[sx sy]|]; [|by mstep].
    mstep; [by mstep|]. mstep_lift. mstep_lift. do 3 mstep. apply Hview. auto.
  - intros st HI. unfold Map.reset. do 3 mstep. apply Hview. auto.
  - intros st HI. unfold Map.click_map. mstep. mstep; [by mstep|].
    destruct (Map.map_thumbnail st) as [[tw th]|]; [|by mstep].
    mstep_lift. mstep_lift. mstep_lift. mstep. mstep_lift; [|auto]. mstep.
    apply Hview. auto.
Qed.

Lemma grids_grow_refl G : grids_grow G G.
Proof. intros p g Hg. by exists g. Qed.

Lemma grids_grow_trans G1 G2 G3 :
  grids_grow G1 G2 -> grids_grow G2 G3 -> grids_grow G1 G3.
Proof.
  intros H12 H23 p g Hg.
  destruct (H12 p g Hg) as (g2 & Hg2 & Hs2 & Hc2).
  destruct (H23 p g2 Hg2) as (g3 & Hg3 & Hs3 & Hc3).
  exists g3. split; [done|]. split; [congruence|]. auto.
Qed.

Lemma np_get_set_slice_true_kept g r0 r1 c0 c1 i j :
  np.get g i j = Some true ->
  np.get (np.set_slice_true g r0 r1 c0 c1) i j = Some true.
Proof.
  intros H. rewrite (np_get_set_slice_true _ _ _ _ _ _ _ true H).
  by destruct (_ && _).
Qed.

(** [mark_visited] only adds visited cells. *)
Lemma map_mark_visited_grows cv (v : Map.viewer) :
  grids_grow (Map.tracking_grids v)
    (Map.tracking_grids (state_of (Map.mark_visited cv v))).
Proof.
  unfold Map.mark_visited. rewrite run_bind_get.
  destruct (fst (slide_dimensions (Map.img v)) =? 0); [apply grids_grow_refl|].
  destruct (Map.get_tracking_level (py_int (Map.zoom v * 100))) as [level|e];
    [|apply grids_grow_refl].
  rewrite run_bind_lift_ok.
  destruct (Map.tracking_grids v !! level) as [grid|] eqn:Hgrid;
    [|apply grids_grow_refl].
  destruct (py_truediv (inject_Z (Z.max (winfo_width cv) 1)) (Map.zoom v)) as [vw|e];
    [|apply grids_grow_refl].
  rewrite run_bind_lift_ok.
  destruct (py_truediv (inject_Z (Z.max (winfo_height cv) 1)) (Map.zoom v)) as [vh|e];
    [|apply grids_grow_refl].
  rewrite run_bind_lift_ok.
  destruct grid as [g|]; simpl not_None; [|apply grids_grow_refl].
  rewrite run_bind_lift_ok. simpl.
  intros p g0 Hg0. destruct (decide (p = level)) as [->|Hne].
  - rewrite Hgrid in Hg0. injection Hg0 as <-.
    rewrite lookup_insert_eq. eexists. split; [done|]. split; [done|].
    intros i j. apply np_get_set_slice_true_kept.
  - rewrite lookup_insert_ne by done. by exists g0.
Qed.

(** X12.  In the tracking viewer no user action other than a load and
    [clear_tracking] removes a grid, reshapes it or unmarks a visited cell:
    every grid that is there before is there after, with the same shape and
    with every visited cell still visited. *)
Theorem tracking_never_unmarked env cv a (v : Map.viewer) :
  map_view_action a ->
  grids_grow (Map.tracking_grids v)
    (Map.tracking_grids (after (Map.handle env (cv, a)) v)).
Proof.
  intros Ha.
  apply (map_handle_keeps
           (fun s => grids_grow (Map.tracking_grids v) (Map.tracking_grids s))
           env cv a); try done.
  - intros cv' s Hs. eapply grids_grow_trans; [exact Hs|].
    apply map_mark_visited_grows.
  - apply grids_grow_refl.
Qed.

Lemma tracking_never_unmarked_witness :
  grids_grow
    (Map.tracking_grids Examples.map_small)
    (Map.tracking_grids
       (after (Map.handle Examples.small_env (Examples.cv800, Map.QuickZoom 10))
          Examples.map_small)).
Proof.
  exact (tracking_never_unmarked Examples.small_env Examples.cv800 (Map.QuickZoom 10)
           Examples.map_small Logic.I).
Defined.

Lemma opened_dims env path iv iv' :
  env_ok env -> opened env path iv iv' -> dims_ok (slide_dimensions iv').
Proof.
  intros Henv [(s & E & ->)|(i & E & ->)].
  - by apply (proj1 Henv path).
  - by eapply fallback_decoder_dims.
Qed.

Lemma map_mark_visited_fits cv (v : Map.viewer) :
  grids_fit v -> grids_fit (state_of (Map.mark_visited cv v)).
Proof.
  intros [Hd Hfit]. unfold Map.mark_visited. rewrite run_bind_get.
  destruct (fst (slide_dimensions (Map.img v)) =? 0) eqn:El; [done|].
  assert (Hl : Map.loaded v) by (by apply Z.eqb_neq).
  destruct (get_tracking_level_spec (py_int (Map.zoom v * 100)))
    as (i & level & -> & Hin & _).
  apply list_elem_of_lookup_2 in Hin.
  rewrite run_bind_lift_ok.
  destruct (Hfit Hl level Hin) as (g & Hg & Hwf & Hshape). rewrite Hg.
  destruct (py_truediv (inject_Z (Z.max (winfo_width cv) 1)) (Map.zoom v)) as [vw|e];
    [|done].
  rewrite run_bind_lift_ok.
  destruct (py_truediv (inject_Z (Z.max (winfo_height cv) 1)) (Map.zoom v)) as [vh|e];
    [|done].
  rewrite run_bind_lift_ok. simpl not_None. rewrite run_bind_lift_ok. simpl.
  split; [done|]. intros _.
  apply (tracking_allocated_insert v level g);
    [by apply Hfit | exact Hg | by apply np_wf_set_slice_true | done].
Qed.

Lemma map_view_action_fits env cv a :
  map_view_action a -> maintains grids_fit any_event any_exn (Map.handle env (cv, a)).
Proof.
  intros Ha. apply map_handle_keeps; try done.
  intros cv' s. apply map_mark_visited_fits.
Qed.

Lemma map_handle_fits env step :
  env_ok env -> maintains grids_fit any_event any_exn (Map.handle env step).
Proof.
  intros Henv. destruct step as [cv a]. intros st Hfit.
  destruct a as [path|percent| | |e_x e_y|e_x e_y| | |e_x e_y];
    try (by apply map_view_action_fits).
  - unfold Map.handle. simpl. unfold Map.load_image.
    destruct (String.eqb path ""); [by mstep|].
    apply (at_try any_exn); [| |done].
    + destruct (open_source_cases env path (Map.img st))
        as [(iv' & Hopen & E)|(e & E)].
      * pose proof (opened_dims env path _ _ Henv Hopen) as Hd'.
        apply (at_bind_result _ _ _ _ _ _ tt (Map.with_img iv' st)
                 (closing (Map.img st))); [|done|].
        { unfold zoom_state. by rewrite E. }
        destruct (initialize_tracking_allocated (Map.with_img iv' st))
          as (G & EG & HG); [exact Hd'|].
        apply (at_bind_result _ _ _ _ _ _ tt _ [] EG); [done|].
        apply (at_bind grids_fit); [|done|].
        { apply map_update_info_holds. split; [exact Hd' | by intros _]. }
        intros _ st1 Hst1. apply (at_bind grids_fit); [|done|].
        { by apply (map_view_action_fits env cv Map.Reset). }
        intros _ st2 Hst2. msteps.
      * apply (at_bind_raise _ _ _ _ _ _ e (Map.with_img (released (Map.img st)) st)
                 (closing (Map.img st))); [|done| |done].
        { unfold zoom_state. by rewrite E. }
        exact Hfit.
    + intros e st' Hst' _ _. msteps.
  - unfold Map.handle. simpl. unfold Map.clear_tracking. do 2 mstep.
    apply (at_bind grids_fit); [|done|].
    + apply map_update_map_holds; try done.
      destruct Hfit as [Hd Hfit]. split; [exact Hd|].
      intros Hl. by apply tracking_allocated_fill, Hfit.
    + intros _ st' Hst'. by mstep.
Qed.

(** X13.  After any sequence of user actions on the tracking viewer from its
    initial state, for an environment whose images have sizes that are not
    negative, whenever an image is loaded every tracking level has a grid of
    shape (height // 100 + 1, width // 100 + 1) for that image, also after a
    load that failed. *)
Theorem tracking_grids_fit_image env steps :
  env_ok env ->
  let v := after (run (Map.handle env) steps) Map.init in
  Map.loaded v -> Map.tracking_allocated v.
Proof.
  intros Henv. cbv zeta. unfold after.
  destruct (at_run (I:=grids_fit) (ev_ok:=any_event) (Map.handle env)
              (fun _ => True) steps Map.init) as ((_ & Hfit) & _).
  - split; [by vm_compute|]. intros H. by destruct H.
  - intros a _. by apply map_handle_fits.
  - by apply Forall_forall.
  - exact Hfit.
Qed.

Lemma tracking_grids_fit_image_witness :
  Map.tracking_allocated
    (after (run (Map.handle Examples.small_env)
              [(Examples.cv800, Map.LoadImage "small.png");
               (Examples.cv800, Map.QuickZoom 10);
               (Examples.cv800, Map.LoadImage "missing.png")]) Map.init).
Proof.
  apply (tracking_grids_fit_image Examples.small_env).
  - repeat split; simpl in *; repeat case_match; simplify_eq; simpl; lia.
  - by vm_compute.
Defined.

Lemma np_get_fill b g i j x : np.get (np.fill b g) i j = Some x -> x = b.
Proof.
  unfold np.get, np.fill. simpl. rewrite list_lookup_fmap.
  destruct (np.cells g !! i) as [row|]; [|done]. simpl.
  rewrite list_lookup_fmap. destruct (row !! j); [|done]. simpl. by intros [= <-].
Qed.

(** What [clear_tracking] leaves: the grids filled with [False], the image
    and the view as they were, and no dialog but its own. *)
Lemma map_clear_tracking_state env cv (v : Map.viewer) :
  let r := Map.clear_tracking env cv v in
  Map.tracking_grids (state_of r) =
    fmap (M:=gmap Z) (fmap (M:=option) (np.fill false)) (Map.tracking_grids v) /\
  (Map.img (state_of r) = Map.img v /\ Map.zoom (state_of r) = Map.zoom v /\
   Map.offset_x (state_of r) = Map.offset_x v /\
   Map.offset_y (state_of r) = Map.offset_y v) /\
  Forall (fun e => e = showinfo TrackingCleared) (events_of r).
Proof.
  intros r.
  set (I := fun s : Map.viewer =>
    Map.tracking_grids s =
      fmap (M:=gmap Z) (fmap (M:=option) (np.fill false)) (Map.tracking_grids v) /\
    Map.img s = Map.img v /\ Map.zoom s = Map.zoom v /\
    Map.offset_x s = Map.offset_x v /\ Map.offset_y s = Map.offset_y v).
  assert (H : holds_at I (fun e => e = showinfo TrackingCleared) any_exn
                (Map.clear_tracking env cv) v).
  { unfold Map.clear_tracking. do 2 mstep.
    apply (at_bind I); [|done|].
    - by apply map_update_map_holds.
    - intros _ st' Hst'. by mstep. }
  destruct H as ((HG & Hv) & Hev & _). done.
Qed.

(** X14.  [clear_tracking] replaces every grid by one of the same shape
    without a visited cell, leaves a level without a grid as it is, keeps the
    image, the zoom and the offsets, and opens no dialog but its own message,
    which it shows once when it returns. *)
Theorem clear_tracking_clears env cv (v : Map.viewer) :
  let r := Map.clear_tracking env cv v in
  let v' := state_of r in
  (forall p g, Map.tracking_grids v !! p = Some (Some g) ->
     exists g', Map.tracking_grids v' !! p = Some (Some g') /\
       np.shape g' = np.shape g /\
       forall i j b, np.get g' i j = Some b -> b = false) /\
  (forall p, Map.tracking_grids v !! p = Some None ->
     Map.tracking_grids v' !! p = Some None) /\
  (Map.img v' = Map.img v /\ Map.zoom v' = Map.zoom v /\
   Map.offset_x v' = Map.offset_x v /\ Map.offset_y v' = Map.offset_y v) /\
  Forall (fun e => e = showinfo TrackingCleared) (events_of r) /\
  (outcome_of r = Ok tt -> events_of r = [showinfo TrackingCleared]).
Proof.
  intros r v'.
  destruct (map_clear_tracking_state env cv v) as (HG & Hv & Hev).
  fold r in HG, Hv, Hev. fold v' in HG, Hv.
  split; [|split; [|split; [exact Hv|split; [exact Hev|]]]].
  - intros p g Hg. exists (np.fill false g). rewrite HG, lookup_fmap, Hg. simpl.
    split; [done|]. split; [done|]. intros i j b. apply np_get_fill.
  - intros p Hp. by rewrite HG, lookup_fmap, Hp.
  - unfold r, Map.clear_tracking. rewrite run_bind_get, run_bind_modify.
    match goal with
    | |- context [(Map.update_map env cv ≫= _) ?s] =>
        destruct (map_update_map_holds (fun _ => True) (fun _ => False) env cv
                    ltac:(done) ltac:(done) ltac:(done) s Logic.I) as (_ & Hno & _);
        destruct (Map.update_map env cv s) as [o s' evs] eqn:E
    end.
    simpl in Hno. destruct evs as [|e evs]; [|by inversion Hno].
    destruct o as [[]|e].
    + rewrite (run_bind_result _ _ _ _ _ _ E). done.
    + rewrite (run_bind_raise _ _ _ _ _ _ E). done.
Qed.

(** The part of [update_view] that follows [mark_visited] leaves the grids
    and the offsets alone. *)
Lemma map_update_view_tail_keeps (I : Map.viewer -> Prop) env cv vw vh st :
  I st ->
  (forall x s, I s -> I (Map.with_map_scale_x x s)) ->
  (forall x s, I s -> I (Map.with_map_scale_y x s)) ->
  (forall x s, I s -> I (Map.with_map_thumbnail x s)) ->
  holds_at I any_event any_exn
    (v ← get;
     region ← call_read_region Map.img (Map.offset_x v) (Map.offset_y v) vw vh
                (Map.zoom v);
     tell (canvas_create_image region);;
     Map.update_map env cv) st.
Proof.
  intros HI Hsx Hsy Hth. mstep. apply (at_bind I); [|done|].
  { by apply call_read_region_holds. }
  intros r s' Hs'. mstep; [done|]. by apply map_update_map_holds.
Qed.

(** What [update_view] of the tracking viewer leaves in the grids. *)
Lemma map_update_view_records env cv (v : Map.viewer) :
  Map.loaded v -> Map.good v -> Map.tracking_allocated v ->
  let dims := slide_dimensions (Map.img v) in
  let cx := clamp_offset (Map.offset_x v) (fst dims)
              (view_size (winfo_width cv) (Map.zoom v) (fst dims)) in
  let cy := clamp_offset (Map.offset_y v) (snd dims)
              (view_size (winfo_height cv) (Map.zoom v) (snd dims)) in
  let v' := after (Map.update_view env cv) v in
  exists level g,
    bucket_of_zoom (Map.zoom v) = Ok level /\
    Map.tracking_grids v' !! level = Some (Some g) /\
    np.get g (Z.to_nat (py_int cy `div` Map.grid_cell_size))
             (Z.to_nat (py_int cx `div` Map.grid_cell_size)) = Some true /\
    Map.offset_x v' = cx /\ Map.offset_y v' = cy /\ Map.zoom v' = Map.zoom v.
Proof.
  intros Hl Hgood Halloc dims cx cy v'. pose proof Hgood as [Hz Hd].
  pose proof (zoom_in_range_nonzero _ Hz) as Hz0.
  set (st1 := Map.with_offset_y cy (Map.with_offset_x cx v)).
  pose proof (view_size_bounds (winfo_width cv) _ _ (proj1 Hd) (zoom_in_range_pos _ Hz))
    as Hbw.
  pose proof (view_size_bounds (winfo_height cv) _ _ (proj2 Hd) (zoom_in_range_pos _ Hz))
    as Hbh.
  destruct (clamp_offset_bounds (Map.offset_x v) _ _ Hbw) as [Hx0 Hx1].
  destruct (clamp_offset_bounds (Map.offset_y v) _ _ Hbh) as [Hy0 Hy1].
  fold dims in Hx0, Hx1, Hy0, Hy1, Hbw, Hbh. fold cx in Hx0, Hx1. fold cy in Hy0, Hy1.
  pose proof (inject_Z_le 0 _ (proj1 Hbw)) as Hvw0.
  pose proof (inject_Z_le 0 _ (proj1 Hbh)) as Hvh0.
  change (inject_Z 0) with 0%Q in Hvw0, Hvh0.
  assert (Hx : (0 <= Map.offset_x st1 /\
                Map.offset_x st1 <= inject_Z (fst (slide_dimensions (Map.img st1))))%Q).
  { simpl. fold dims. split; [done | lra]. }
  assert (Hy : (0 <= Map.offset_y st1 /\
                Map.offset_y st1 <= inject_Z (snd (slide_dimensions (Map.img st1))))%Q).
  { simpl. fold dims. split; [done | lra]. }
  destruct (mark_visited_run cv st1 Hl Hgood Halloc Hx Hy)
    as (level & g0 & Hlevel & _ & Hg0 & Hwf & Hrect).
  simpl in Hrect.
  destruct Hrect as ((Ex & Hx1' & Hx2' & Hx3') & (Ey & Hy1' & Hy2' & Hy3') & Hrun).
  destruct (np_wf_get g0 (py_int cy `div` Map.grid_cell_size)
              (py_int cx `div` Map.grid_cell_size) Hwf ltac:(lia) ltac:(lia))
    as [b Hb].
  match type of Hrun with
  | _ = Result _ (Map.with_tracking_grids (<[_ := Some ?g']> _) _) _ => set (g := g') in *
  end.
  exists level, g. split; [exact Hlevel|].
  assert (Hcell : np.get g (Z.to_nat (py_int cy `div` Map.grid_cell_size))
                    (Z.to_nat (py_int cx `div` Map.grid_cell_size)) = Some true).
  { unfold g. rewrite (np_get_set_slice_true _ _ _ _ _ _ _ b Hb).
    rewrite !Z2Nat.id by lia.
    rewrite (proj2 (in_slice_inside _ _ _ _ Hy1' Hy2' Hy3')) by lia.
    rewrite (proj2 (in_slice_inside _ _ _ _ Hx1' Hx2' Hx3')) by lia.
    done. }
  assert (Hrest : Map.tracking_grids v' !! level = Some (Some g) /\
                  Map.offset_x v' = cx /\ Map.offset_y v' = cy /\
                  Map.zoom v' = Map.zoom v).
  { unfold v', after, Map.update_view.
    rewrite run_bind_get, (map_loaded_guard _ Hl).
    rewrite !(py_truediv_ok _ _ Hz0).
    rewrite !run_bind_lift_ok, !run_bind_modify.
    fold dims. fold (view_size (winfo_width cv) (Map.zoom v) (fst dims)).
    fold (view_size (winfo_height cv) (Map.zoom v) (snd dims)).
    fold (clamp_offset (Map.offset_x v) (fst dims)
            (view_size (winfo_width cv) (Map.zoom v) (fst dims))).
    fold (clamp_offset (Map.offset_y v) (snd dims)
            (view_size (winfo_height cv) (Map.zoom v) (snd dims))).
    fold cx cy st1.
    rewrite (run_bind_result _ _ _ _ _ _ Hrun). rewrite prepend_nil.
    apply (map_update_view_tail_keeps
             (fun s => Map.tracking_grids s !! level = Some (Some g) /\
                       Map.offset_x s = cx /\ Map.offset_y s = cy /\
                       Map.zoom s = Map.zoom v)); try done.
    simpl. by rewrite lookup_insert_eq. }
  destruct Hrest as (H1 & H2 & H3 & H4). done.
Qed.

(** X15.  In the tracking viewer, with an image loaded, a zoom within [0.05,
    10.0] and the grids allocated, [update_view] leaves the clamped offsets
    and marks, in the grid of the level nearest to int(zoom * 100), the cell
    (int(offset_y) // 100, int(offset_x) // 100) under the top left corner of
    the clamped view. *)
Theorem update_view_records_visit env cv (v : Map.viewer) :
  Map.loaded v -> Map.good v -> Map.tracking_allocated v ->
  let dims := slide_dimensions (Map.img v) in
  let cx := clamp_offset (Map.offset_x v) (fst dims)
              (view_size (winfo_width cv) (Map.zoom v) (fst dims)) in
  let cy := clamp_offset (Map.offset_y v) (snd dims)
              (view_size (winfo_height cv) (Map.zoom v) (snd dims)) in
  let v' := after (Map.update_view env cv) v in
  exists level g,
    bucket_of_zoom (Map.zoom v) = Ok level /\
    Map.tracking_grids v' !! level = Some (Some g) /\
    np.get g (Z.to_nat (py_int cy `div` Map.grid_cell_size))
             (Z.to_nat (py_int cx `div` Map.grid_cell_size)) = Some true /\
    Map.offset_x v' = cx /\ Map.offset_y v' = cy.
Proof.
  intros Hl Hgood Halloc dims cx cy v'.
  destruct (map_update_view_records env cv v Hl Hgood Halloc)
    as (level & g & H1 & H2 & H3 & H4 & H5 & _).
  by exists level, g.
Qed.

Lemma update_view_records_visit_witness :
  exists level g,
    bucket_of_zoom (Map.zoom Examples.map_small_zoomed) = Ok level /\
    Map.tracking_grids
      (after (Map.update_view Examples.small_env Examples.cv800)
         Examples.map_small_zoomed) !! level = Some (Some g).
Proof.
  unshelve epose proof
    (update_view_records_visit Examples.small_env Examples.cv800
       Examples.map_small_zoomed _ _ map_small_zoomed_allocated) as H;
    [by vm_compute | by vm_compute |].
  destruct H as (level & g & H1 & H2 & _).
  exists level, g. exact (conj H1 H2).
Defined.
Lemma quick_zoom_bucket percent :
  percent ∈ Map.tracking_levels -> bucket_of_zoom (inject_Z percent / 100.0) = Ok percent.
Proof.
  unfold Map.tracking_levels. intros H.
  repeat (apply elem_of_cons in H as [->|H]; [vm_compute; reflexivity|]).
  by apply elem_of_nil in H.
Qed.

(** X16.  With an image loaded whose dimensions are not negative and the grids
    allocated, the quick zoom button of a tracking level p sets the zoom to p
    / 100 and marks the cell under the top left corner of the resulting view
    in the grid of level p itself. *)
Theorem quick_zoom_marks_its_bucket env cv percent (v : Map.viewer) :
  percent ∈ Map.tracking_levels ->
  Map.loaded v -> dims_ok (slide_dimensions (Map.img v)) -> Map.tracking_allocated v ->
  let v' := after (Map.set_zoom_percent env cv percent) v in
  (Map.zoom v' == inject_Z percent / 100)%Q /\
  exists g,
    Map.tracking_grids v' !! percent = Some (Some g) /\
    np.get g (Z.to_nat (py_int (Map.offset_y v') `div` Map.grid_cell_size))
             (Z.to_nat (py_int (Map.offset_x v') `div` Map.grid_cell_size))
      = Some true.
Proof.
  intros Hp Hl Hd Halloc v'.
  set (v0 := Map.with_zoom (inject_Z percent / 100.0) v).
  assert (E : Map.set_zoom_percent env cv percent v = Map.update_view env cv v0).
  { unfold Map.set_zoom_percent.
    by rewrite run_bind_get, (map_loaded_guard _ Hl), run_bind_modify. }
  assert (Hgood : Map.good v0).
  { split; [by apply quick_zoom_in_range | exact Hd]. }
  destruct (map_update_view_records env cv v0 Hl Hgood Halloc)
    as (level & g & H1 & H2 & H3 & H4 & H5 & H6).
  simpl in H1. rewrite (quick_zoom_bucket _ Hp) in H1. injection H1 as <-.
  unfold after in *. unfold v', after. rewrite E. split.
  - rewrite H6. simpl.
    assert (E100 : (100.0 == 100)%Q) by (vm_compute; reflexivity).
    by rewrite E100.
  - exists g. split; [exact H2|]. by rewrite H4, H5.
Qed.

Lemma quick_zoom_marks_its_bucket_witness :
  exists g,
    Map.tracking_grids
      (after (Map.set_zoom_percent Examples.small_env Examples.cv800 60)
         Examples.map_small) !! 60 = Some (Some g).
Proof.
  unshelve epose proof
    (quick_zoom_marks_its_bucket Examples.small_env Examples.cv800 60
       Examples.map_small _ _ _ map_small_allocated) as H;
    [unfold Map.tracking_levels; set_solver | by vm_compute | by vm_compute |].
  destruct H as (_ & g & H & _). exists g. exact H.
Defined.

(** ** The navigation map *)

(** [update_view] keeps what [mark_visited] and [update_map] keep, if it
    does not depend on the offsets. *)
Lemma map_update_view_keeps_map (I : Map.viewer -> Prop) env cv :
  (forall x s, I s -> I (Map.with_offset_x x s)) ->
  (forall x s, I s -> I (Map.with_offset_y x s)) ->
  (forall s, I s -> I (state_of (Map.mark_visited cv s))) ->
  maintains I any_event any_exn (Map.update_map env cv) ->
  maintains I any_event any_exn (Map.update_view env cv).
Proof.
  intros Hx Hy Hmark Hmap st HI.
  unfold Map.update_view. mstep. mstep; [by mstep|].
  mstep_lift. mstep_lift. do 2 mstep.
  match goal with
  | |- holds_at _ _ _ (_ ≫= _) ?s => set (st1 := s)
  end.
  assert (HI1 : I st1) by (unfold st1; auto).
  destruct (map_mark_visited_frame cv st1) as (o & G & E).
  pose proof (Hmark st1 HI1) as HI2. rewrite E in HI2. simpl in HI2.
  destruct o as [[]|e].
  - apply (at_bind_result _ _ _ _ _ _ tt _ [] E); [done|].
    mstep. apply (at_bind I); [|done|].
    { by apply call_read_region_holds. }
    intros r s' HIs'. mstep; [done|]. by apply Hmap.
  - by apply (at_bind_raise _ _ _ _ _ _ e _ [] E).
Qed.

Lemma py_truediv_inv a b q : py_truediv a b = Ok q -> q = (a / b)%Q.
Proof. unfold py_truediv. destruct (Qeq_bool b 0); [done | by intros [= <-]]. Qed.

(** [update_map] on a map that is current assigns what is there. *)
Lemma map_update_map_same env cv (v : Map.viewer) :
  map_current env v ->
  maintains (same_map v) any_event any_exn (Map.update_map env cv).
Proof.
  intros (thumb & Hthumb & Ht & Hsx & Hsy) s (Himg & Hst & Hssx & Hssy).
  unfold Map.update_map. mstep. mstep; [by mstep|].
  match goal with
  | |- holds_at _ _ _ (lift ?o ≫= _) _ => change o with (thumbnail_of env (Map.img s))
  end.
  rewrite Himg, Hthumb. mstep.
  apply at_bind_lift.
  destruct (py_truediv (inject_Z (fst thumb)) _) as [sx|e] eqn:Ex; [|done].
  apply py_truediv_inv in Ex. mstep.
  apply at_bind_lift.
  destruct (py_truediv (inject_Z (snd thumb)) _) as [sy|e] eqn:Ey.
  2: { split; [|done]. split; [done|]. split; [done|]. split; [|done].
       simpl. by rewrite Ex, Hsx. }
  apply py_truediv_inv in Ey. do 2 mstep.
  apply map_update_viewport_rect_holds.
  split; [done|]. split; [by rewrite Ht|]. simpl.
  split; [by rewrite Ex, Hsx | by rewrite Ey, Hsy].
Qed.

Lemma map_mark_visited_same cv (v s : Map.viewer) :
  same_map v s -> same_map v (state_of (Map.mark_visited cv s)).
Proof.
  intros Hs. destruct (map_mark_visited_frame cv s) as (o & G & ->). exact Hs.
Qed.

(** X17.  With an image loaded, a zoom that is not zero and a map that is
    current (the thumbnail of the image, with scales thumbnail over image that
    are not zero), a click at (x, y) on the map whose centred view needs no
    clamping leaves the view centred on the image point under the click, and
    the rectangle that [update_viewport_rect] then draws has its centre at (x,
    y). *)
Theorem click_map_centres_viewport env cv e_x e_y (v : Map.viewer) tw th :
  Map.loaded v -> ~ (Map.zoom v == 0)%Q -> map_current env v ->
  Map.map_thumbnail v = Some (tw, th) ->
  ~ (Map.map_scale_x v == 0)%Q -> ~ (Map.map_scale_y v == 0)%Q ->
  let dims := slide_dimensions (Map.img v) in
  let wz := (inject_Z (Z.max (winfo_width cv) 1) / Map.zoom v)%Q in
  let hz := (inject_Z (Z.max (winfo_height cv) 1) / Map.zoom v)%Q in
  let img_x := ((inject_Z e_x - (150 - inject_Z tw / 2)) / Map.map_scale_x v)%Q in
  let img_y := ((inject_Z e_y - (150 - inject_Z th / 2)) / Map.map_scale_y v)%Q in
  (0 <= img_x - wz / 2 /\
   img_x - wz / 2 + inject_Z (view_size (winfo_width cv) (Map.zoom v) (fst dims))
     <= inject_Z (fst dims))%Q ->
  (0 <= img_y - hz / 2 /\
   img_y - hz / 2 + inject_Z (view_size (winfo_height cv) (Map.zoom v) (snd dims))
     <= inject_Z (snd dims))%Q ->
  let v' := after (Map.click_map env cv e_x e_y) v in
  (Map.offset_x v' + wz / 2 == img_x)%Q /\
  (Map.offset_y v' + hz / 2 == img_y)%Q /\
  exists x1 y1 x2 y2,
    viewport_rect cv v' = Ok (Some (x1, y1, x2, y2)) /\
    ((x1 + x2) / 2 == inject_Z e_x)%Q /\ ((y1 + y2) / 2 == inject_Z e_y)%Q.
Proof.
  intros Hl Hz Hcur Hthumb Hsx Hsy dims wz hz img_x img_y [Hx0 Hx1] [Hy0 Hy1] v'.
  set (v1 := Map.with_offset_y (img_y - hz / 2) (Map.with_offset_x (img_x - wz / 2) v)).
  assert (E : Map.click_map env cv e_x e_y v = Map.update_view env cv v1).
  { unfold Map.click_map. rewrite run_bind_get, (map_loaded_guard _ Hl), Hthumb.
    rewrite (py_truediv_ok _ _ Hsx), (py_truediv_ok _ _ Hsy).
    rewrite !(py_truediv_ok _ _ Hz).
    by rewrite !run_bind_lift_ok, !run_bind_modify. }
  destruct (map_update_view_clamps env cv v1 Hl Hz) as ((Ex & Ey & Ez & Ei) & _).
  cbn [v1 Map.img Map.zoom Map.offset_x Map.offset_y Map.with_offset_x
       Map.with_offset_y] in Ex, Ey, Ez, Ei.
  fold dims in Ex, Ey.
  destruct (map_update_view_keeps_map (same_map v) env cv) with (st := v1)
    as ((_ & Et & Esx & Esy) & _); try done.
  { intros s. apply map_mark_visited_same. }
  { by apply map_update_map_same. }
  pose proof (clamp_offset_inside _ _ _ Hx0 Hx1) as Cx.
  pose proof (clamp_offset_inside _ _ _ Hy0 Hy1) as Cy.
  unfold v', after. rewrite E.
  set (vf := state_of (Map.update_view env cv v1)) in *.
  split; [rewrite Ex, Cx; ring|]. split; [rewrite Ey, Cy; ring|].
  unfold viewport_rect. rewrite Ei, (map_loaded_guard _ Hl), Et, Hthumb, Ez.
  rewrite !(py_truediv_ok _ _ Hz). simpl.
  eexists _, _, _, _. split; [reflexivity|].
  fold wz hz. rewrite Ex, Ey, Esx, Esy, Cx, Cy. unfold img_x, img_y.
  split; field; done.
Qed.

Lemma click_map_centres_viewport_witness :
  let v := after (Map.set_zoom_percent Examples.env Examples.cv800 100)
             (after (Map.load_image Examples.env Examples.cv800 "slide.svs") Map.init) in
  let v' := after (Map.click_map Examples.env Examples.cv800 150 150) v in
  exists x1 y1 x2 y2,
    viewport_rect Examples.cv800 v' = Ok (Some (x1, y1, x2, y2)) /\
    ((x1 + x2) / 2 == inject_Z 150)%Q /\ ((y1 + y2) / 2 == inject_Z 150)%Q.
Proof.
  intros v v'.
  unshelve epose proof
    (click_map_centres_viewport Examples.env Examples.cv800 150 150 v 290 217
       _ _ _ _ _ _ _ _) as H;
    [ by vm_compute | by vm_compute
    | exists (290, 217); repeat split; vm_compute; reflexivity
    | vm_compute; reflexivity | by vm_compute | by vm_compute
    | split; by vm_compute | split; by vm_compute | ].
  exact (proj2 (proj2 H)).
Defined.

(** ** The loops of [draw_grid] *)

Lemma sweep_mono {A} fuel limit cell (body body' : Q -> Z -> option (list A)) :
  (forall x i part, body x i = Some part -> body' x i = Some part) ->
  forall fuel' pos idx ds,
  (fuel <= fuel')%nat ->
  sweep fuel limit cell body pos idx = Some ds ->
  sweep fuel' limit cell body' pos idx = Some ds.
Proof.
  intros Hbody. induction fuel as [|fuel IH]; intros fuel' pos idx ds Hle; simpl.
  - destruct (Qltb pos limit) eqn:E; [done|].
    intros [= <-]. destruct fuel'; simpl; by rewrite E.
  - destruct (Qltb pos limit) eqn:E.
    + destruct fuel' as [|fuel']; [lia|]. simpl. rewrite E.
      destruct (body pos idx) as [here|] eqn:Eb; [|done]. simpl.
      rewrite (Hbody _ _ _ Eb). simpl.
      destruct (sweep fuel limit cell body (pos + cell)%Q (idx + 1)) as [rest|] eqn:Er;
        [|done].
      simpl. intros [= <-]. rewrite (IH fuel' _ _ rest); [done | lia | done].
    + intros [= <-]. destruct fuel'; simpl; by rewrite E.
Qed.

Lemma sweep_returns {A} limit cell (body : Q -> Z -> option (list A)) :
  (0 < cell)%Q -> (forall x i, is_Some (body x i)) ->
  forall fuel pos idx,
  (limit - pos <= inject_Z (Z.of_nat fuel) * cell)%Q ->
  is_Some (sweep fuel limit cell body pos idx).
Proof.
  intros Hcell Hbody. induction fuel as [|fuel IH]; intros pos idx Hfuel; simpl.
  - destruct (Qltb pos limit) eqn:E; [|done].
    apply Qltb_lt in E. change (inject_Z (Z.of_nat 0)) with 0%Q in Hfuel. lra.
  - destruct (Qltb pos limit) eqn:E; [|done].
    destruct (Hbody pos idx) as [here ->]. simpl.
    destruct (IH (pos + cell)%Q (idx + 1)) as [rest ->]; [|done].
    rewrite Nat2Z.inj_succ, <- Z.add_1_r, inject_Z_plus in Hfuel.
    change (inject_Z 1) with 1%Q in Hfuel. lra.
Qed.

(** Rounds enough for a loop from [pos] to [limit]. *)
Lemma rounds_exist limit pos cell :
  (0 < cell)%Q -> exists n : nat, (limit - pos <= inject_Z (Z.of_nat n) * cell)%Q.
Proof.
  intros Hcell. exists (Z.to_nat (Qceiling ((limit - pos) / cell))).
  pose proof (Qle_ceiling ((limit - pos) / cell)) as H.
  assert (Hn : (inject_Z (Qceiling ((limit - pos) / cell))
                <= inject_Z (Z.of_nat (Z.to_nat (Qceiling ((limit - pos) / cell)))))%Q).
  { apply inject_Z_le. lia. }
  assert (E : (limit - pos == (limit - pos) / cell * cell)%Q) by (field; lra).
  apply Qle_trans with ((limit - pos) / cell * cell)%Q; [apply Qle_lteq; right; exact E|].
  apply Qmult_le_compat_r; lra.
Qed.

Lemma sweep_sound {A} limit cell (body : Q -> Z -> option (list A)) (a : A) :
  forall fuel pos idx ds,
  sweep fuel limit cell body pos idx = Some ds -> a ∈ ds ->
  exists (k : nat) x part,
    (x == pos + inject_Z (Z.of_nat k) * cell)%Q /\ (x < limit)%Q /\
    body x (idx + Z.of_nat k) = Some part /\ a ∈ part.
Proof.
  induction fuel as [|fuel IH]; intros pos idx ds; simpl.
  - destruct (Qltb pos limit); [done|]. intros [= <-] Ha. by apply elem_of_nil in Ha.
  - destruct (Qltb pos limit) eqn:E;
      [|intros [= <-] Ha; by apply elem_of_nil in Ha].
    destruct (body pos idx) as [here|] eqn:Eb; [|done]. simpl.
    destruct (sweep fuel limit cell body (pos + cell)%Q (idx + 1)) as [rest|] eqn:Er;
      [|done].
    simpl. intros [= <-] Ha. apply elem_of_app in Ha as [Ha|Ha].
    + exists 0%nat, pos, here. rewrite Z.add_0_r.
      split; [change (inject_Z (Z.of_nat 0)) with 0%Q; ring|].
      split; [by apply Qltb_lt|]. done.
    + destruct (IH _ _ _ Er Ha) as (k & x & part & Hx & Hlt & Hb & Hin).
      exists (S k), x, part. split; [|split; [done|split; [|done]]].
      * rewrite Hx, Nat2Z.inj_succ, <- Z.add_1_r, inject_Z_plus.
        change (inject_Z 1) with 1%Q. ring.
      * rewrite <- Hb. f_equal. lia.
Qed.

Lemma sweep_complete {A} limit cell (body : Q -> Z -> option (list A)) :
  (0 <= cell)%Q ->
  forall fuel (k : nat) pos idx ds,
  sweep fuel limit cell body pos idx = Some ds ->
  (pos + inject_Z (Z.of_nat k) * cell < limit)%Q ->
  exists x part,
    (x == pos + inject_Z (Z.of_nat k) * cell)%Q /\
    body x (idx + Z.of_nat k) = Some part /\ forall a, a ∈ part -> a ∈ ds.
Proof.
  intros Hcell. induction fuel as [|fuel IH]; intros k pos idx ds; simpl.
  - destruct (Qltb pos limit) eqn:E; [done|]. intros _ Hlt.
    apply Qltb_ge in E.
    assert (0 <= inject_Z (Z.of_nat k))%Q.
    { change 0%Q with (inject_Z 0). apply inject_Z_le. lia. }
    nra.
  - destruct (Qltb pos limit) eqn:E.
    2:{ intros _ Hlt. apply Qltb_ge in E.
        assert (0 <= inject_Z (Z.of_nat k))%Q.
        { change 0%Q with (inject_Z 0). apply inject_Z_le. lia. }
        nra. }
    destruct (body pos idx) as [here|] eqn:Eb; [|done]. simpl.
    destruct (sweep fuel limit cell body (pos + cell)%Q (idx + 1)) as [rest|] eqn:Er;
      [|done].
    simpl. intros [= <-] Hlt. destruct k as [|k].
    + exists pos, here. rewrite Z.add_0_r.
      split; [change (inject_Z (Z.of_nat 0)) with 0%Q; ring|].
      split; [done|]. intros a Ha. apply elem_of_app. by left.
    + assert (Ek : (inject_Z (Z.of_nat (S k)) == inject_Z (Z.of_nat k) + 1)%Q).
      { rewrite Nat2Z.inj_succ, <- Z.add_1_r, inject_Z_plus. reflexivity. }
      destruct (IH k _ _ _ Er) as (x & part & Hx & Hb & Hin).
      { rewrite Ek in Hlt. lra. }
      exists x, part. split; [rewrite Hx, Ek; ring|]. split.
      * rewrite <- Hb. f_equal. lia.
      * intros a Ha. apply elem_of_app. right. by apply Hin.
Qed.

Lemma Qle_bool_true a b : Qle_bool a b = true <-> (a <= b)%Q.
Proof. apply Qle_bool_iff. Qed.

(** What the loop of the vertical lines draws, round by round. *)
Lemma vertical_lines_sound fuel w img cell x0 col0 ds d :
  vertical_lines fuel w img cell x0 col0 = Some ds -> d ∈ ds ->
  exists (k : nat) x,
    (x == x0 + inject_Z (Z.of_nat k) * cell)%Q /\ (x < inject_Z w)%Q /\
    (0 <= x)%Q /\ (x <= inject_Z (fst (region_size img)))%Q /\
    (d = vertical_line x (snd (region_size img)) \/
     ((30 < x)%Q /\ d = col_label x (col0 + Z.of_nat k))).
Proof.
  intros Hs Hd. unfold vertical_lines in Hs.
  destruct (sweep_sound _ _ _ d _ _ _ _ Hs Hd) as (k & x & part & Hx & Hlt & Hb & Hin).
  exists k, x. split; [done|]. split; [done|]. injection Hb as <-.
  destruct (Qle_bool 0 x) eqn:E0; [|by apply elem_of_nil in Hin].
  destruct (Qle_bool x (inject_Z (fst (region_size img)))) eqn:E1;
    [|by apply elem_of_nil in Hin].
  apply Qle_bool_true in E0, E1. split; [done|]. split; [done|].
  simpl in Hin. apply elem_of_cons in Hin as [->|Hin]; [by left|].
  destruct (Qltb 30 x) eqn:E30; [|by apply elem_of_nil in Hin].
  apply Qltb_lt in E30. apply list_elem_of_singleton in Hin as ->. by right.
Qed.

Lemma vertical_lines_complete fuel w img cell x0 col0 ds (k : nat) :
  (0 <= cell)%Q ->
  vertical_lines fuel w img cell x0 col0 = Some ds ->
  let x := (x0 + inject_Z (Z.of_nat k) * cell)%Q in
  (x < inject_Z w)%Q -> (0 <= x)%Q -> (x <= inject_Z (fst (region_size img)))%Q ->
  exists x', (x' == x)%Q /\ vertical_line x' (snd (region_size img)) ∈ ds /\
             ((30 < x)%Q -> col_label x' (col0 + Z.of_nat k) ∈ ds).
Proof.
  intros Hcell Hs x Hlt H0 H1. unfold vertical_lines in Hs.
  destruct (sweep_complete _ _ _ Hcell _ k _ _ _ Hs Hlt) as (x' & part & Hx & Hb & Hin).
  exists x'. split; [done|]. injection Hb as <-. fold x in Hx.
  assert (E0 : Qle_bool 0 x' = true) by (apply Qle_bool_true; by rewrite Hx).
  assert (E1 : Qle_bool x' (inject_Z (fst (region_size img))) = true)
    by (apply Qle_bool_true; by rewrite Hx).
  rewrite E0, E1 in Hin. simpl in Hin. split.
  - apply Hin. by left.
  - intros H30. apply Hin.
    assert (E30 : Qltb 30 x' = true) by (apply Qltb_lt; by rewrite Hx).
    rewrite E30. right. by left.
Qed.

(** The same for the horizontal lines. *)
Lemma horizontal_lines_sound fuel h img cell y0 row0 ds d :
  horizontal_lines fuel h img cell y0 row0 = Some ds -> d ∈ ds ->
  exists (k : nat) y,
    (y == y0 + inject_Z (Z.of_nat k) * cell)%Q /\ (y < inject_Z h)%Q /\
    (0 <= y)%Q /\ (y <= inject_Z (snd (region_size img)))%Q /\
    (d = horizontal_line y (fst (region_size img)) \/
     ((30 < y)%Q /\ d = row_label y (row0 + Z.of_nat k))).
Proof.
  intros Hs Hd. unfold horizontal_lines in Hs.
  destruct (sweep_sound _ _ _ d _ _ _ _ Hs Hd) as (k & y & part & Hy & Hlt & Hb & Hin).
  exists k, y. split; [done|]. split; [done|]. injection Hb as <-.
  destruct (Qle_bool 0 y) eqn:E0; [|by apply elem_of_nil in Hin].
  destruct (Qle_bool y (inject_Z (snd (region_size img)))) eqn:E1;
    [|by apply elem_of_nil in Hin].
  apply Qle_bool_true in E0, E1. split; [done|]. split; [done|].
  simpl in Hin. apply elem_of_cons in Hin as [->|Hin]; [by left|].
  destruct (Qltb 30 y) eqn:E30; [|by apply elem_of_nil in Hin].
  apply Qltb_lt in E30. apply list_elem_of_singleton in Hin as ->. by right.
Qed.

Lemma horizontal_lines_complete fuel h img cell y0 row0 ds (k : nat) :
  (0 <= cell)%Q ->
  horizontal_lines fuel h img cell y0 row0 = Some ds ->
  let y := (y0 + inject_Z (Z.of_nat k) * cell)%Q in
  (y < inject_Z h)%Q -> (0 <= y)%Q -> (y <= inject_Z (snd (region_size img)))%Q ->
  exists y', (y' == y)%Q /\ horizontal_line y' (fst (region_size img)) ∈ ds /\
             ((30 < y)%Q -> row_label y' (row0 + Z.of_nat k) ∈ ds).
Proof.
  intros Hcell Hs y Hlt H0 H1. unfold horizontal_lines in Hs.
  destruct (sweep_complete _ _ _ Hcell _ k _ _ _ Hs Hlt) as (y' & part & Hy & Hb & Hin).
  exists y'. split; [done|]. injection Hb as <-. fold y in Hy.
  assert (E0 : Qle_bool 0 y' = true) by (apply Qle_bool_true; by rewrite Hy).
  assert (E1 : Qle_bool y' (inject_Z (snd (region_size img))) = true)
    by (apply Qle_bool_true; by rewrite Hy).
  rewrite E0, E1 in Hin. simpl in Hin. split.
  - apply Hin. by left.
  - intros H30. apply Hin.
    assert (E30 : Qltb 30 y' = true) by (apply Qltb_lt; by rewrite Hy).
    rewrite E30. right. by left.
Qed.

(** What the two nested loops of the sector labels draw. *)
Lemma sector_labels_sound fuel w h img max_cols max_rows cell x0 y0 col0 row0 ds d :
  sector_labels fuel w h img max_cols max_rows cell x0 y0 col0 row0 = Some ds ->
  d ∈ ds ->
  exists (kx ky : nat) x y,
    (x == x0 + inject_Z (Z.of_nat kx) * cell)%Q /\
    (y == y0 + inject_Z (Z.of_nat ky) * cell)%Q /\
    (x < inject_Z w + cell)%Q /\ (y < inject_Z h + cell)%Q /\
    (0 < x)%Q /\ (x < inject_Z (fst (region_size img)))%Q /\
    (0 < y)%Q /\ (y < inject_Z (snd (region_size img)))%Q /\
    col0 + Z.of_nat kx < max_cols /\ row0 + Z.of_nat ky < max_rows /\
    d = sector_text x y (col0 + Z.of_nat kx) (row0 + Z.of_nat ky).
Proof.
  intros Hs Hd. unfold sector_labels in Hs.
  destruct (sweep_sound _ _ _ d _ _ _ _ Hs Hd)
    as (kx & x & column & Hx & Hxlt & Hcolumn & Hin).
  destruct (sweep_sound _ _ _ d _ _ _ _ Hcolumn Hin)
    as (ky & y & part & Hy & Hylt & Hb & Hin').
  exists kx, ky, x, y. injection Hb as <-.
  destruct (Qltb 0 x) eqn:Ex0; [|by apply elem_of_nil in Hin'].
  destruct (Qltb x (inject_Z (fst (region_size img)))) eqn:Ex1;
    [|by apply elem_of_nil in Hin'].
  destruct (Qltb 0 y) eqn:Ey0; [|by apply elem_of_nil in Hin'].
  destruct (Qltb y (inject_Z (snd (region_size img)))) eqn:Ey1;
    [|by apply elem_of_nil in Hin'].
  simpl in Hin'.
  destruct (col0 + Z.of_nat kx <? max_cols) eqn:Ec; [|by apply elem_of_nil in Hin'].
  destruct (row0 + Z.of_nat ky <? max_rows) eqn:Er; [|by apply elem_of_nil in Hin'].
  apply list_elem_of_singleton in Hin'.
  apply Qltb_lt in Ex0, Ex1, Ey0, Ey1. apply Z.ltb_lt in Ec, Er.
  repeat (split; [done|]). done.
Qed.

Lemma sector_labels_complete fuel w h img max_cols max_rows cell x0 y0 col0 row0 ds
    (kx ky : nat) :
  (0 <= cell)%Q ->
  sector_labels fuel w h img max_cols max_rows cell x0 y0 col0 row0 = Some ds ->
  let x := (x0 + inject_Z (Z.of_nat kx) * cell)%Q in
  let y := (y0 + inject_Z (Z.of_nat ky) * cell)%Q in
  (x < inject_Z w + cell)%Q -> (y < inject_Z h + cell)%Q ->
  (0 < x)%Q -> (x < inject_Z (fst (region_size img)))%Q ->
  (0 < y)%Q -> (y < inject_Z (snd (region_size img)))%Q ->
  col0 + Z.of_nat kx < max_cols -> row0 + Z.of_nat ky < max_rows ->
  exists x' y', (x' == x)%Q /\ (y' == y)%Q /\
    sector_text x' y' (col0 + Z.of_nat kx) (row0 + Z.of_nat ky) ∈ ds.
Proof.
  intros Hcell Hs x y Hxlt Hylt Hx0 Hx1 Hy0 Hy1 Hc Hr. unfold sector_labels in Hs.
  destruct (sweep_complete _ _ _ Hcell _ kx _ _ _ Hs Hxlt)
    as (x' & column & Hx & Hcolumn & Hin).
  destruct (sweep_complete _ _ _ Hcell _ ky _ _ _ Hcolumn Hylt)
    as (y' & part & Hy & Hb & Hin').
  exists x', y'. fold x in Hx. fold y in Hy. split; [done|]. split; [done|].
  apply Hin, Hin'. injection Hb as <-.
  assert (Ex0 : Qltb 0 x' = true) by (apply Qltb_lt; by rewrite Hx).
  assert (Ex1 : Qltb x' (inject_Z (fst (region_size img))) = true)
    by (apply Qltb_lt; by rewrite Hx).
  assert (Ey0 : Qltb 0 y' = true) by (apply Qltb_lt; by rewrite Hy).
  assert (Ey1 : Qltb y' (inject_Z (snd (region_size img))) = true)
    by (apply Qltb_lt; by rewrite Hy).
  rewrite Ex0, Ex1, Ey0, Ey1. simpl.
  apply Z.ltb_lt in Hc, Hr. rewrite Hc, Hr. simpl. by left.
Qed.

(** ** [draw_grid] *)

Lemma draw_grid_hidden fuel cv img (v : Grid.viewer) :
  Grid.show_grid v = false -> draw_grid fuel cv img v = Ok (Some []).
Proof. intros H. unfold draw_grid. by rewrite H. Qed.

(** With the grid shown and a grid size that is not zero, [draw_grid] comes
    to its three passes, started at the first line left of and above the
    view. *)
Lemma draw_grid_shown fuel cv img (v : Grid.viewer) :
  Grid.show_grid v = true -> Grid.grid_size v <> 0 ->
  let gs := inject_Z (Grid.grid_size v) in
  let cell := (gs * Grid.zoom v)%Q in
  let first_col := sector_of (Grid.offset_x v) (Grid.grid_size v) in
  let first_row := sector_of (Grid.offset_y v) (Grid.grid_size v) in
  let ox := ((Grid.offset_x v - gs * inject_Z first_col) * Grid.zoom v)%Q in
  let oy := ((Grid.offset_y v - gs * inject_Z first_row) * Grid.zoom v)%Q in
  draw_grid fuel cv img v =
  Ok (verticals ← vertical_lines fuel (Z.max (winfo_width cv) 1) img cell
                    (- ox)%Q first_col;
      horizontals ← horizontal_lines fuel (Z.max (winfo_height cv) 1) img cell
                      (- oy)%Q first_row;
      sectors ←
        (if Qle_bool 0.3 (Grid.zoom v) then
           sector_labels fuel (Z.max (winfo_width cv) 1) (Z.max (winfo_height cv) 1)
             img (Grid.max_cols v) (Grid.max_rows v) cell
             (- ox + cell / 2)%Q (- oy + cell / 2)%Q first_col first_row
         else Some []);
      Some (verticals ++ horizontals ++ sectors)).
Proof.
  intros Hshow Hgs gs cell first_col first_row ox oy.
  unfold draw_grid, py_mod, py_floordiv_float. rewrite Hshow. simpl negb. cbv iota.
  assert (E : Qeq_bool (inject_Z (Grid.grid_size v)) 0 = false).
  { apply not_true_iff_false. intros E. apply Qeq_bool_iff in E.
    by apply (inject_Z_nonzero _ Hgs). }
  rewrite E. simpl. by rewrite !py_int_inject.
Qed.

Lemma draw_grid_parts fuel cv img (v : Grid.viewer) ds :
  Grid.show_grid v = true -> Grid.grid_size v <> 0 ->
  draw_grid fuel cv img v = Ok (Some ds) ->
  let gs := inject_Z (Grid.grid_size v) in
  let cell := (gs * Grid.zoom v)%Q in
  let first_col := sector_of (Grid.offset_x v) (Grid.grid_size v) in
  let first_row := sector_of (Grid.offset_y v) (Grid.grid_size v) in
  let ox := ((Grid.offset_x v - gs * inject_Z first_col) * Grid.zoom v)%Q in
  let oy := ((Grid.offset_y v - gs * inject_Z first_row) * Grid.zoom v)%Q in
  exists vs hs ss,
    ds = vs ++ hs ++ ss /\
    vertical_lines fuel (Z.max (winfo_width cv) 1) img cell (- ox)%Q first_col = Some vs /\
    horizontal_lines fuel (Z.max (winfo_height cv) 1) img cell (- oy)%Q first_row
      = Some hs /\
    (if Qle_bool 0.3 (Grid.zoom v) then
       sector_labels fuel (Z.max (winfo_width cv) 1) (Z.max (winfo_height cv) 1)
         img (Grid.max_cols v) (Grid.max_rows v) cell
         (- ox + cell / 2)%Q (- oy + cell / 2)%Q first_col first_row
     else Some []) = Some ss.
Proof.
  intros Hshow Hgs Hd gs cell first_col first_row ox oy.
  rewrite (draw_grid_shown _ _ _ _ Hshow Hgs) in Hd. injection Hd as Hd.
  fold gs cell first_col first_row ox oy in Hd.
  destruct (vertical_lines _ _ _ _ _ _) as [vs|]; [|done]. simpl in Hd.
  destruct (horizontal_lines _ _ _ _ _ _) as [hs|]; [|done]. simpl in Hd.
  match type of Hd with
  | context [if ?c then ?a else ?b] => destruct (if c then a else b) as [ss|]
  end; [|done].
  simpl in Hd. injection Hd as <-. by exists vs, hs, ss.
Qed.

(** Where the rounds of the loops are, in image coordinates. *)
Lemma line_position off gs z (f : Z) (k : nat) :
  (- ((off - gs * inject_Z f) * z) + inject_Z (Z.of_nat k) * (gs * z)
   == (inject_Z (f + Z.of_nat k) * gs - off) * z)%Q.
Proof. rewrite inject_Z_plus. ring. Qed.

Lemma centre_position off gs z (f : Z) (k : nat) :
  (- ((off - gs * inject_Z f) * z) + gs * z / 2 + inject_Z (Z.of_nat k) * (gs * z)
   == ((inject_Z (f + Z.of_nat k) + 1 / 2) * gs - off) * z)%Q.
Proof. rewrite inject_Z_plus. field. Qed.

(** A sector border or centre at or right of the view's left edge belongs
    to a column from the first one on. *)
Lemma from_first_sector off gs col (h : Q) :
  0 < gs -> (0 <= h)%Q -> (off <= (inject_Z col + h) * inject_Z gs)%Q -> (h < 1)%Q ->
  exists k : nat, col = sector_of off gs + Z.of_nat k.
Proof.
  intros Hgs Hh0 Hle Hh1. destruct (sector_of_spec off gs Hgs) as [Hlo _].
  assert (HG : (0 < inject_Z gs)%Q).
  { change 0%Q with (inject_Z 0). by rewrite <- Zlt_Qlt. }
  rewrite inject_Z_mult in Hlo.
  assert (H : (inject_Z (sector_of off gs) < inject_Z (col + 1))%Q).
  { rewrite inject_Z_plus. change (inject_Z 1) with 1%Q. nra. }
  rewrite <- Zlt_Qlt in H.
  exists (Z.to_nat (col - sector_of off gs)). lia.
Qed.

(** Everything that [draw_grid] draws is a line or a label of a sector
    border, or the text of a sector centre. *)
Lemma draw_grid_sound fuel cv img (v : Grid.viewer) ds d :
  Grid.grid_size v <> 0 ->
  draw_grid fuel cv img v = Ok (Some ds) -> d ∈ ds ->
  let gs := inject_Z (Grid.grid_size v) in
  let w := inject_Z (Z.max (winfo_width cv) 1) in
  let h := inject_Z (Z.max (winfo_height cv) 1) in
  let img_w := fst (region_size img) in
  let img_h := snd (region_size img) in
  (exists col x,
     (x == canvas_x v (inject_Z col * gs))%Q /\ (x < w)%Q /\
     (0 <= x)%Q /\ (x <= inject_Z img_w)%Q /\
     (d = vertical_line x img_h \/ ((30 < x)%Q /\ d = col_label x col))) \/
  (exists row y,
     (y == canvas_y v (inject_Z row * gs))%Q /\ (y < h)%Q /\
     (0 <= y)%Q /\ (y <= inject_Z img_h)%Q /\
     (d = horizontal_line y img_w \/ ((30 < y)%Q /\ d = row_label y row))) \/
  ((0.3 <= Grid.zoom v)%Q /\
   exists col row x y,
     (x == canvas_x v ((inject_Z col + 1 / 2) * gs))%Q /\
     (y == canvas_y v ((inject_Z row + 1 / 2) * gs))%Q /\
     (x < w + gs * Grid.zoom v)%Q /\ (y < h + gs * Grid.zoom v)%Q /\
     (0 < x)%Q /\ (x < inject_Z img_w)%Q /\ (0 < y)%Q /\ (y < inject_Z img_h)%Q /\
     col < Grid.max_cols v /\ row < Grid.max_rows v /\
     d = sector_text x y col row).
Proof.
  intros Hgs Hd Hin gs w h img_w img_h.
  destruct (Grid.show_grid v) eqn:Hshow.
  2:{ rewrite (draw_grid_hidden _ _ _ _ Hshow) in Hd. injection Hd as <-.
      by apply elem_of_nil in Hin. }
  destruct (draw_grid_parts _ _ _ _ _ Hshow Hgs Hd) as (vs & hs & ss & -> & Hv & Hh & Hs).
  apply elem_of_app in Hin as [Hin|Hin]; [|apply elem_of_app in Hin as [Hin|Hin]].
  - left. destruct (vertical_lines_sound _ _ _ _ _ _ _ _ Hv Hin)
      as (k & x & Hx & Hlt & H0 & H1 & Hcase).
    exists (sector_of (Grid.offset_x v) (Grid.grid_size v) + Z.of_nat k), x.
    split; [|done]. rewrite Hx, line_position. reflexivity.
  - right. left. destruct (horizontal_lines_sound _ _ _ _ _ _ _ _ Hh Hin)
      as (k & y & Hy & Hlt & H0 & H1 & Hcase).
    exists (sector_of (Grid.offset_y v) (Grid.grid_size v) + Z.of_nat k), y.
    split; [|done]. rewrite Hy, line_position. reflexivity.
  - right. right. destruct (Qle_bool 0.3 (Grid.zoom v)) eqn:Ez.
    2:{ injection Hs as <-. by apply elem_of_nil in Hin. }
    apply Qle_bool_true in Ez. split; [done|].
    destruct (sector_labels_sound _ _ _ _ _ _ _ _ _ _ _ _ _ Hs Hin)
      as (kx & ky & x & y & Hx & Hy & Hxlt & Hylt & Hx0 & Hx1 & Hy0 & Hy1 & Hc & Hr & ->).
    exists (sector_of (Grid.offset_x v) (Grid.grid_size v) + Z.of_nat kx),
           (sector_of (Grid.offset_y v) (Grid.grid_size v) + Z.of_nat ky), x, y.
    split; [rewrite Hx, centre_position; reflexivity|].
    split; [rewrite Hy, centre_position; reflexivity|].
    repeat (split; [done|]). done.
Qed.

Lemma canvas_nonneg_border off gs z col (h : Q) :
  (0 < z)%Q -> (0 <= ((inject_Z col + h) * inject_Z gs - off) * z)%Q ->
  (off <= (inject_Z col + h) * inject_Z gs)%Q.
Proof. intros Hz H. nra. Qed.

(** Every sector border inside the view gets its line, and its label when
    it is more than 30 pixels from the edge. *)
Lemma draw_grid_lines_complete fuel cv img (v : Grid.viewer) ds :
  0 < Grid.grid_size v -> (0 < Grid.zoom v)%Q -> Grid.show_grid v = true ->
  draw_grid fuel cv img v = Ok (Some ds) ->
  let gs := inject_Z (Grid.grid_size v) in
  let w := inject_Z (Z.max (winfo_width cv) 1) in
  let h := inject_Z (Z.max (winfo_height cv) 1) in
  let img_w := fst (region_size img) in
  let img_h := snd (region_size img) in
  (forall col,
     let x := canvas_x v (inject_Z col * gs) in
     (0 <= x)%Q -> (x <= inject_Z img_w)%Q -> (x < w)%Q ->
     exists x', (x' == x)%Q /\ vertical_line x' img_h ∈ ds /\
                ((30 < x)%Q -> col_label x' col ∈ ds)) /\
  (forall row,
     let y := canvas_y v (inject_Z row * gs) in
     (0 <= y)%Q -> (y <= inject_Z img_h)%Q -> (y < h)%Q ->
     exists y', (y' == y)%Q /\ horizontal_line y' img_w ∈ ds /\
                ((30 < y)%Q -> row_label y' row ∈ ds)).
Proof.
  intros Hgs Hz Hshow Hd. cbv zeta.
  assert (Hgs0 : Grid.grid_size v <> 0) by lia.
  assert (HG : (0 < inject_Z (Grid.grid_size v))%Q).
  { change 0%Q with (inject_Z 0). by rewrite <- Zlt_Qlt. }
  assert (Hcell : (0 <= inject_Z (Grid.grid_size v) * Grid.zoom v)%Q) by nra.
  destruct (draw_grid_parts _ _ _ _ _ Hshow Hgs0 Hd) as (vs & hs & ss & -> & Hv & Hh & _).
  split.
  - intros col H0 H1 Hlt. unfold canvas_x in *.
    destruct (from_first_sector (Grid.offset_x v) (Grid.grid_size v) col 0 Hgs)
      as [k ->]; [lra| |lra|].
    { apply (canvas_nonneg_border _ _ (Grid.zoom v)); [done|]. by rewrite Qplus_0_r. }
    pose proof (line_position (Grid.offset_x v) (inject_Z (Grid.grid_size v))
                  (Grid.zoom v) (sector_of (Grid.offset_x v) (Grid.grid_size v)) k)
      as Hpos.
    destruct (vertical_lines_complete _ _ _ _ _ _ _ k Hcell Hv)
      as (x' & Hx' & Hline & Hlabel); [lra..|].
    exists x'. split; [lra|]. split.
    + apply elem_of_app. by left.
    + intros H30. apply elem_of_app. left. apply Hlabel. lra.
  - intros row H0 H1 Hlt. unfold canvas_y in *.
    destruct (from_first_sector (Grid.offset_y v) (Grid.grid_size v) row 0 Hgs)
      as [k ->]; [lra| |lra|].
    { apply (canvas_nonneg_border _ _ (Grid.zoom v)); [done|]. by rewrite Qplus_0_r. }
    pose proof (line_position (Grid.offset_y v) (inject_Z (Grid.grid_size v))
                  (Grid.zoom v) (sector_of (Grid.offset_y v) (Grid.grid_size v)) k)
      as Hpos.
    destruct (horizontal_lines_complete _ _ _ _ _ _ _ k Hcell Hh)
      as (y' & Hy' & Hline & Hlabel); [lra..|].
    exists y'. split; [lra|]. split.
    + apply elem_of_app. right. apply elem_of_app. by left.
    + intros H30. apply elem_of_app. right. apply elem_of_app. left.
      apply Hlabel. lra.
Qed.

(** X18.  With a positive grid size and zoom, every vertical line that
    [draw_grid] draws runs over the height of the region, lies between 0 and
    the width of the region and left of the canvas width, and is at the canvas
    position of an image x that is a multiple of the grid size; with the grid
    shown, every multiple of the grid size whose canvas position lies in that
    range gets its line.  The same holds for the horizontal lines. *)
Theorem grid_lines_on_sector_borders fuel cv img (v : Grid.viewer) ds :
  0 < Grid.grid_size v -> (0 < Grid.zoom v)%Q ->
  draw_grid fuel cv img v = Ok (Some ds) ->
  let gs := inject_Z (Grid.grid_size v) in
  let w := inject_Z (Z.max (winfo_width cv) 1) in
  let h := inject_Z (Z.max (winfo_height cv) 1) in
  let img_w := fst (region_size img) in
  let img_h := snd (region_size img) in
  (forall x len, vertical_line x len ∈ ds ->
     len = img_h /\ (0 <= x)%Q /\ (x <= inject_Z img_w)%Q /\ (x < w)%Q /\
     exists col, (x == canvas_x v (inject_Z col * gs))%Q) /\
  (forall y len, horizontal_line y len ∈ ds ->
     len = img_w /\ (0 <= y)%Q /\ (y <= inject_Z img_h)%Q /\ (y < h)%Q /\
     exists row, (y == canvas_y v (inject_Z row * gs))%Q) /\
  (Grid.show_grid v = true ->
   (forall col,
      let x := canvas_x v (inject_Z col * gs) in
      (0 <= x)%Q -> (x <= inject_Z img_w)%Q -> (x < w)%Q ->
      exists x', (x' == x)%Q /\ vertical_line x' img_h ∈ ds) /\
   (forall row,
      let y := canvas_y v (inject_Z row * gs) in
      (0 <= y)%Q -> (y <= inject_Z img_h)%Q -> (y < h)%Q ->
      exists y', (y' == y)%Q /\ horizontal_line y' img_w ∈ ds)).
Proof.
  intros Hgs Hz Hd. cbv zeta.
  assert (Hgs0 : Grid.grid_size v <> 0) by lia.
  split; [|split].
  - intros x len Hin.
    destruct (draw_grid_sound _ _ _ _ _ _ Hgs0 Hd Hin)
      as [(col & x' & Hx & Hlt & H0 & H1 & [E|[_ E]])
         |[(row & y' & _ & _ & _ & _ & [E|[_ E]])
          |(_ & col & row & x' & y' & H)]]; try discriminate.
    + injection E as -> ->. split; [done|]. repeat (split; [done|]). by exists col.
    + by destruct H as (_ & _ & _ & _ & _ & _ & _ & _ & _ & _ & ?).
  - intros y len Hin.
    destruct (draw_grid_sound _ _ _ _ _ _ Hgs0 Hd Hin)
      as [(col & x' & _ & _ & _ & _ & [E|[_ E]])
         |[(row & y' & Hy & Hlt & H0 & H1 & [E|[_ E]])
          |(_ & col & row & x' & y' & H)]]; try discriminate.
    + injection E as -> ->. split; [done|]. repeat (split; [done|]). by exists row.
    + by destruct H as (_ & _ & _ & _ & _ & _ & _ & _ & _ & _ & ?).
  - intros Hshow.
    pose proof (draw_grid_lines_complete _ _ _ _ _ Hgs Hz Hshow Hd) as H.
    cbv zeta in H. destruct H as [Hc Hr]. split.
    + intros col H0 H1 Hlt. destruct (Hc col H0 H1 Hlt) as (x' & Hx & Hline & _).
      by exists x'.
    + intros row H0 H1 Hlt. destruct (Hr row H0 H1 Hlt) as (y' & Hy & Hline & _).
      by exists y'.
Qed.

(** X19.  With a positive grid size and zoom, every label Col c that
    [draw_grid] draws is on a line more than 30 pixels from the edge of the
    canvas whose image x is c times the grid size, so that the label names the
    column that begins at its line; with the grid shown, every such line in
    view gets its label.  The same holds for the labels Row r. *)
Theorem line_labels_name_sectors fuel cv img (v : Grid.viewer) ds :
  0 < Grid.grid_size v -> (0 < Grid.zoom v)%Q ->
  draw_grid fuel cv img v = Ok (Some ds) ->
  let gs := inject_Z (Grid.grid_size v) in
  let w := inject_Z (Z.max (winfo_width cv) 1) in
  let h := inject_Z (Z.max (winfo_height cv) 1) in
  let img_w := fst (region_size img) in
  let img_h := snd (region_size img) in
  (forall x col, col_label x col ∈ ds ->
     (x == canvas_x v (inject_Z col * gs))%Q /\
     (30 < x)%Q /\ (x <= inject_Z img_w)%Q /\ (x < w)%Q) /\
  (forall y row, row_label y row ∈ ds ->
     (y == canvas_y v (inject_Z row * gs))%Q /\
     (30 < y)%Q /\ (y <= inject_Z img_h)%Q /\ (y < h)%Q) /\
  (Grid.show_grid v = true ->
   (forall col,
      let x := canvas_x v (inject_Z col * gs) in
      (30 < x)%Q -> (x <= inject_Z img_w)%Q -> (x < w)%Q ->
      exists x', (x' == x)%Q /\ col_label x' col ∈ ds) /\
   (forall row,
      let y := canvas_y v (inject_Z row * gs) in
      (30 < y)%Q -> (y <= inject_Z img_h)%Q -> (y < h)%Q ->
      exists y', (y' == y)%Q /\ row_label y' row ∈ ds)).
Proof.
  intros Hgs Hz Hd. cbv zeta.
  assert (Hgs0 : Grid.grid_size v <> 0) by lia.
  split; [|split].
  - intros x col Hin.
    destruct (draw_grid_sound _ _ _ _ _ _ Hgs0 Hd Hin)
      as [(col' & x' & Hx & Hlt & H0 & H1 & [E|[H30 E]])
         |[(row & y' & _ & _ & _ & _ & [E|[_ E]])
          |(_ & col' & row & x' & y' & H)]]; try discriminate.
    + injection E as -> ->. done.
    + by destruct H as (_ & _ & _ & _ & _ & _ & _ & _ & _ & _ & ?).
  - intros y row Hin.
    destruct (draw_grid_sound _ _ _ _ _ _ Hgs0 Hd Hin)
      as [(col & x' & _ & _ & _ & _ & [E|[_ E]])
         |[(row' & y' & Hy & Hlt & H0 & H1 & [E|[H30 E]])
          |(_ & col & row' & x' & y' & H)]]; try discriminate.
    + injection E as -> ->. done.
    + by destruct H as (_ & _ & _ & _ & _ & _ & _ & _ & _ & _ & ?).
  - intros Hshow.
    pose proof (draw_grid_lines_complete _ _ _ _ _ Hgs Hz Hshow Hd) as H.
    cbv zeta in H. destruct H as [Hc Hr]. split.
    + intros col H30 H1 Hlt.
      destruct (Hc col) as (x' & Hx & _ & Hlabel); [lra|done|done|].
      exists x'. split; [done|]. by apply Hlabel.
    + intros row H30 H1 Hlt.
      destruct (Hr row) as (y' & Hy & _ & Hlabel); [lra|done|done|].
      exists y'. split; [done|]. by apply Hlabel.
Qed.

Lemma centre_right_of_origin off gs z col :
  0 < gs -> (0 < z)%Q -> (0 <= off)%Q ->
  (0 < ((inject_Z col + 1 / 2) * inject_Z gs - off) * z)%Q -> 0 <= col.
Proof.
  intros Hgs Hz Hoff H.
  assert (HG : (0 < inject_Z gs)%Q).
  { change 0%Q with (inject_Z 0). by rewrite <- Zlt_Qlt. }
  assert (H1 : (off <= (inject_Z col + 1 / 2) * inject_Z gs)%Q).
  { apply (canvas_nonneg_border _ _ z); [done|lra]. }
  assert (H2 : (inject_Z (-1) < inject_Z col)%Q).
  { change (inject_Z (-1)) with (-1)%Q.
    destruct (Qlt_le_dec (inject_Z col + 1 / 2) 0) as [Hneg|Hpos]; [|qlra].
    exfalso.
    assert (0 < - (inject_Z col + 1 / 2) * inject_Z gs)%Q; [|lra].
    apply Qmult_lt_0_compat; lra. }
  rewrite <- Zlt_Qlt in H2. lia.
Qed.

(** X20.  With a positive grid size and zoom, [draw_grid] draws the text
    Sector (c,r) only when the zoom is at least 0.3, at the canvas position of
    the centre of cell (c, r), strictly inside the region and less than a cell
    beyond the canvas, and only for c < max_cols and r < max_rows; with the
    grid shown and a zoom of at least 0.3 every such cell gets its text.  With
    an image loaded, sector counts that are current and offsets that are not
    negative, the cells that get a text lie on the image. *)
Theorem sector_texts_at_sector_centres fuel cv img (v : Grid.viewer) ds :
  0 < Grid.grid_size v -> (0 < Grid.zoom v)%Q ->
  draw_grid fuel cv img v = Ok (Some ds) ->
  let gs := inject_Z (Grid.grid_size v) in
  let cell := (gs * Grid.zoom v)%Q in
  let w := inject_Z (Z.max (winfo_width cv) 1) in
  let h := inject_Z (Z.max (winfo_height cv) 1) in
  let img_w := inject_Z (fst (region_size img)) in
  let img_h := inject_Z (snd (region_size img)) in
  (forall x y col row, sector_text x y col row ∈ ds ->
     (0.3 <= Grid.zoom v)%Q /\
     (x == canvas_x v ((inject_Z col + 1 / 2) * gs))%Q /\
     (y == canvas_y v ((inject_Z row + 1 / 2) * gs))%Q /\
     (0 < x)%Q /\ (x < img_w)%Q /\ (x < w + cell)%Q /\
     (0 < y)%Q /\ (y < img_h)%Q /\ (y < h + cell)%Q /\
     col < Grid.max_cols v /\ row < Grid.max_rows v) /\
  (Grid.show_grid v = true -> (0.3 <= Grid.zoom v)%Q ->
   forall col row,
     let x := canvas_x v ((inject_Z col + 1 / 2) * gs) in
     let y := canvas_y v ((inject_Z row + 1 / 2) * gs) in
     (0 < x)%Q -> (x < img_w)%Q -> (x < w + cell)%Q ->
     (0 < y)%Q -> (y < img_h)%Q -> (y < h + cell)%Q ->
     col < Grid.max_cols v -> row < Grid.max_rows v ->
     exists x' y', (x' == x)%Q /\ (y' == y)%Q /\ sector_text x' y' col row ∈ ds) /\
  (Grid.loaded v -> sectors_current v ->
   (0 <= Grid.offset_x v)%Q -> (0 <= Grid.offset_y v)%Q ->
   forall x y col row, sector_text x y col row ∈ ds ->
     0 <= col /\ col * Grid.grid_size v < fst (slide_dimensions (Grid.img v)) /\
     0 <= row /\ row * Grid.grid_size v < snd (slide_dimensions (Grid.img v))).
Proof.
  intros Hgs Hz Hd. cbv zeta.
  assert (Hgs0 : Grid.grid_size v <> 0) by lia.
  assert (HG : (0 < inject_Z (Grid.grid_size v))%Q).
  { change 0%Q with (inject_Z 0). by rewrite <- Zlt_Qlt. }
  assert (Hcell : (0 <= inject_Z (Grid.grid_size v) * Grid.zoom v)%Q) by nra.
  assert (Hsound : forall x y col row, sector_text x y col row ∈ ds ->
     (0.3 <= Grid.zoom v)%Q /\
     (x == canvas_x v ((inject_Z col + 1 / 2) * inject_Z (Grid.grid_size v)))%Q /\
     (y == canvas_y v ((inject_Z row + 1 / 2) * inject_Z (Grid.grid_size v)))%Q /\
     (0 < x)%Q /\ (x < inject_Z (fst (region_size img)))%Q /\
     (x < inject_Z (Z.max (winfo_width cv) 1)
          + inject_Z (Grid.grid_size v) * Grid.zoom v)%Q /\
     (0 < y)%Q /\ (y < inject_Z (snd (region_size img)))%Q /\
     (y < inject_Z (Z.max (winfo_height cv) 1)
          + inject_Z (Grid.grid_size v) * Grid.zoom v)%Q /\
     col < Grid.max_cols v /\ row < Grid.max_rows v).
  { intros x y col row Hin.
    destruct (draw_grid_sound _ _ _ _ _ _ Hgs0 Hd Hin)
      as [(col' & x' & _ & _ & _ & _ & [E|[_ E]])
         |[(row' & y' & _ & _ & _ & _ & [E|[_ E]])
          |(Hz3 & col' & row' & x' & y' & Hx & Hy & Hxlt & Hylt & Hx0 & Hx1 & Hy0 & Hy1
              & Hc & Hr & E)]]; try discriminate.
    injection E as -> -> -> ->. done. }
  split; [exact Hsound|]. split.
  - intros Hshow Hz3 col row Hx0 Hx1 Hxlt Hy0 Hy1 Hylt Hc Hr.
    unfold canvas_x, canvas_y in *.
    destruct (draw_grid_parts _ _ _ _ _ Hshow Hgs0 Hd) as (vs & hs & ss & -> & _ & _ & Hs).
    apply Qle_bool_true in Hz3. rewrite Hz3 in Hs.
    destruct (from_first_sector (Grid.offset_x v) (Grid.grid_size v) col (1 / 2) Hgs)
      as [kx ->]; [qlra| |qlra|].
    { apply (canvas_nonneg_border _ _ (Grid.zoom v)); [done|lra]. }
    destruct (from_first_sector (Grid.offset_y v) (Grid.grid_size v) row (1 / 2) Hgs)
      as [ky ->]; [qlra| |qlra|].
    { apply (canvas_nonneg_border _ _ (Grid.zoom v)); [done|lra]. }
    pose proof (centre_position (Grid.offset_x v) (inject_Z (Grid.grid_size v))
                  (Grid.zoom v) (sector_of (Grid.offset_x v) (Grid.grid_size v)) kx)
      as Hposx.
    pose proof (centre_position (Grid.offset_y v) (inject_Z (Grid.grid_size v))
                  (Grid.zoom v) (sector_of (Grid.offset_y v) (Grid.grid_size v)) ky)
      as Hposy.
    destruct (sector_labels_complete _ _ _ _ _ _ _ _ _ _ _ _ kx ky Hcell Hs)
      as (x' & y' & Hx' & Hy' & Hin); [lra..|done|done|].
    exists x', y'. split; [lra|]. split; [lra|].
    apply elem_of_app. right. apply elem_of_app. by right.
  - intros Hl [Hcols Hrows] Hox Hoy x y col row Hin; [done|].
    destruct (Hsound _ _ _ _ Hin)
      as (_ & Hx & Hy & Hx0 & _ & _ & Hy0 & _ & _ & Hc & Hr).
    unfold canvas_x, canvas_y in *. rewrite Hcols in Hc. rewrite Hrows in Hr.
    apply (below_ceil_div _ _ _ Hgs) in Hc, Hr.
    rewrite Hx in Hx0. rewrite Hy in Hy0.
    pose proof (centre_right_of_origin _ _ _ _ Hgs Hz Hox Hx0).
    pose proof (centre_right_of_origin _ _ _ _ Hgs Hz Hoy Hy0).
    lia.
Qed.

(** A loop whose step is positive ends, and more rounds than it needs
    change nothing. *)
Lemma sweep_settles {A} limit cell (body : nat -> Q -> Z -> option (list A))
    (n : nat) pos idx :
  (0 < cell)%Q ->
  (forall x i, is_Some (body n x i)) ->
  (forall fuel x i part, (n <= fuel)%nat ->
     body n x i = Some part -> body fuel x i = Some part) ->
  (limit - pos <= inject_Z (Z.of_nat n) * cell)%Q ->
  exists ds, forall fuel, (n <= fuel)%nat ->
    sweep fuel limit cell (body fuel) pos idx = Some ds.
Proof.
  intros Hcell Hsome Hmono Hn.
  destruct (sweep_returns limit cell (body n) Hcell Hsome n pos idx Hn) as [ds Hds].
  exists ds. intros fuel Hle.
  apply (sweep_mono n limit cell (body n) (body fuel)); [|done|done].
  intros x i part. by apply Hmono.
Qed.

Lemma rounds_more limit pos cell (n m : nat) :
  (0 < cell)%Q -> (n <= m)%nat ->
  (limit - pos <= inject_Z (Z.of_nat n) * cell)%Q ->
  (limit - pos <= inject_Z (Z.of_nat m) * cell)%Q.
Proof.
  intros Hcell Hle H.
  assert (inject_Z (Z.of_nat n) <= inject_Z (Z.of_nat m))%Q by (apply inject_Z_le; lia).
  nra.
Qed.

(** X21.  With a positive grid size and zoom the loops of [draw_grid] end:
    from some number of rounds on, the bounded loops return one and the same
    list of drawings.  With the grid switched off [draw_grid] draws nothing,
    and with the grid shown and a grid size of 0 it raises
    ZeroDivisionError. *)
Theorem draw_grid_returns cv img (v : Grid.viewer) :
  (0 < Grid.grid_size v -> (0 < Grid.zoom v)%Q ->
   exists n ds, forall fuel, (n <= fuel)%nat ->
     draw_grid fuel cv img v = Ok (Some ds)) /\
  (Grid.show_grid v = false -> forall fuel, draw_grid fuel cv img v = Ok (Some [])) /\
  (Grid.show_grid v = true -> Grid.grid_size v = 0 ->
   forall fuel, draw_grid fuel cv img v = Raise ZeroDivisionError).
Proof.
  split; [|split].
  - intros Hgs Hz. destruct (Grid.show_grid v) eqn:Hshow.
    2:{ exists 0%nat, []. intros fuel _. by apply draw_grid_hidden. }
    assert (Hgs0 : Grid.grid_size v <> 0) by lia.
    assert (HG : (0 < inject_Z (Grid.grid_size v))%Q).
    { change 0%Q with (inject_Z 0). by rewrite <- Zlt_Qlt. }
    assert (Hcell : (0 < inject_Z (Grid.grid_size v) * Grid.zoom v)%Q) by nra.
    set (cell := (inject_Z (Grid.grid_size v) * Grid.zoom v)%Q) in *.
    set (x0 := (- ((Grid.offset_x v - inject_Z (Grid.grid_size v)
                    * inject_Z (sector_of (Grid.offset_x v) (Grid.grid_size v)))
                   * Grid.zoom v))%Q).
    set (y0 := (- ((Grid.offset_y v - inject_Z (Grid.grid_size v)
                    * inject_Z (sector_of (Grid.offset_y v) (Grid.grid_size v)))
                   * Grid.zoom v))%Q).
    set (w := Z.max (winfo_width cv) 1). set (h := Z.max (winfo_height cv) 1).
    destruct (rounds_exist (inject_Z w) x0 cell Hcell) as [n1 Hn1].
    destruct (rounds_exist (inject_Z h) y0 cell Hcell) as [n2 Hn2].
    destruct (rounds_exist (inject_Z w + cell) (x0 + cell / 2) cell Hcell) as [n3 Hn3].
    destruct (rounds_exist (inject_Z h + cell) (y0 + cell / 2) cell Hcell) as [n4 Hn4].
    set (n := Nat.max (Nat.max n1 n2) (Nat.max n3 n4)).
    destruct (sweep_settles (inject_Z w) cell
                (fun _ x col =>
                   Some (if Qle_bool 0 x && Qle_bool x (inject_Z (fst (region_size img)))
                         then vertical_line x (snd (region_size img))
                              :: (if Qltb 30 x then [col_label x col] else [])
                         else []))
                n x0 (sector_of (Grid.offset_x v) (Grid.grid_size v)) Hcell)
      as [vs Hvs]; [done|done|apply (rounds_more _ _ _ n1); [done|lia|done]|].
    destruct (sweep_settles (inject_Z h) cell
                (fun _ y row =>
                   Some (if Qle_bool 0 y && Qle_bool y (inject_Z (snd (region_size img)))
                         then horizontal_line y (fst (region_size img))
                              :: (if Qltb 30 y then [row_label y row] else [])
                         else []))
                n y0 (sector_of (Grid.offset_y v) (Grid.grid_size v)) Hcell)
      as [hs Hhs]; [done|done|apply (rounds_more _ _ _ n2); [done|lia|done]|].
    assert (Hss : exists ss, forall fuel, (n <= fuel)%nat ->
      (if Qle_bool 0.3 (Grid.zoom v) then
         sector_labels fuel w h img (Grid.max_cols v) (Grid.max_rows v) cell
           (x0 + cell / 2)%Q (y0 + cell / 2)%Q
           (sector_of (Grid.offset_x v) (Grid.grid_size v))
           (sector_of (Grid.offset_y v) (Grid.grid_size v))
       else Some []) = Some ss).
    { destruct (Qle_bool 0.3 (Grid.zoom v)); [|by exists []].
      unfold sector_labels.
      apply (sweep_settles (inject_Z w + cell) cell
               (fun fuel x_start col =>
                  sweep fuel (inject_Z h + cell)%Q cell
                    (fun y_start row =>
                       Some (if Qltb 0 x_start
                                && Qltb x_start (inject_Z (fst (region_size img)))
                                && Qltb 0 y_start
                                && Qltb y_start (inject_Z (snd (region_size img)))
                             then if (col <? Grid.max_cols v) && (row <? Grid.max_rows v)
                                  then [sector_text x_start y_start col row]
                                  else []
                             else []))
                    (y0 + cell / 2)%Q (sector_of (Grid.offset_y v) (Grid.grid_size v)))
               n); [done| | |apply (rounds_more _ _ _ n3); [done|lia|done]].
      - intros x i. apply sweep_returns; [done|done|].
        apply (rounds_more _ _ _ n4); [done|lia|done].
      - intros fuel x i part Hle. by apply sweep_mono. }
    destruct Hss as [ss Hss].
    exists n, (vs ++ hs ++ ss). intros fuel Hle.
    rewrite (draw_grid_shown _ _ _ _ Hshow Hgs0). cbv zeta.
    fold cell x0 y0 w h. unfold vertical_lines, horizontal_lines.
    rewrite (Hvs fuel Hle), (Hhs fuel Hle). simpl.
    by rewrite (Hss fuel Hle).
  - intros Hshow fuel. by apply draw_grid_hidden.
  - intros Hshow Hgs fuel. unfold draw_grid, py_mod. rewrite Hshow, Hgs. done.
Qed.

Lemma draw_grid_returns_witness :
  exists n ds, forall fuel, (n <= fuel)%nat ->
    draw_grid fuel Examples.cv800
      {| region_pixels := ImageCrop (4900, 4800, 5700, 5400); region_size := (800, 600) |}
      (Grid.with_offset_x 4900 (Grid.with_offset_y 4800 Examples.grid_photo))
    = Ok (Some ds).
Proof.
  apply (proj1 (draw_grid_returns Examples.cv800
                  {| region_pixels := ImageCrop (4900, 4800, 5700, 5400);
                     region_size := (800, 600) |}
                  (Grid.with_offset_x 4900 (Grid.with_offset_y 4800 Examples.grid_photo))));
    by vm_compute.
Defined.

Lemma grid_lines_on_sector_borders_witness :
  let img := {| region_pixels := ImageCrop (4900, 4800, 5700, 5400);
                region_size := (800, 600) |} in
  let v := Grid.with_offset_x 4900 (Grid.with_offset_y 4800 Examples.grid_photo) in
  exists ds x',
    draw_grid 5 Examples.cv800 img v = Ok (Some ds) /\
    (x' == canvas_x v (inject_Z 1 * inject_Z 5000))%Q /\ vertical_line x' 600 ∈ ds.
Proof.
  intros img v.
  assert (Hd : { ds | draw_grid 5 Examples.cv800 img v = Ok (Some ds) }).
  { eexists. vm_compute. reflexivity. }
  destruct Hd as [ds Hd]. exists ds.
  unshelve epose proof (grid_lines_on_sector_borders 5 Examples.cv800 img v ds _ _ Hd)
    as H; [vm_compute; reflexivity | vm_compute; reflexivity |].
  destruct H as (_ & _ & H). destruct (H eq_refl) as [Hc _].
  destruct (Hc 1) as (x' & Hx & Hin);
    [vm_compute; discriminate | vm_compute; discriminate | vm_compute; reflexivity |].
  exists x'. split; [exact Hd|]. split; [exact Hx | exact Hin].
Defined.

Lemma line_labels_name_sectors_witness :
  let img := {| region_pixels := ImageCrop (4900, 4800, 5700, 5400);
                region_size := (800, 600) |} in
  let v := Grid.with_offset_x 4900 (Grid.with_offset_y 4800 Examples.grid_photo) in
  exists ds y',
    draw_grid 5 Examples.cv800 img v = Ok (Some ds) /\
    (y' == canvas_y v (inject_Z 1 * inject_Z 5000))%Q /\ row_label y' 1 ∈ ds.
Proof.
  intros img v.
  assert (Hd : { ds | draw_grid 5 Examples.cv800 img v = Ok (Some ds) }).
  { eexists. vm_compute. reflexivity. }
  destruct Hd as [ds Hd]. exists ds.
  unshelve epose proof (line_labels_name_sectors 5 Examples.cv800 img v ds _ _ Hd)
    as H; [vm_compute; reflexivity | vm_compute; reflexivity |].
  destruct H as (_ & _ & H). destruct (H eq_refl) as [_ Hr].
  destruct (Hr 1) as (y' & Hy & Hin);
    [vm_compute; reflexivity | vm_compute; discriminate | vm_compute; reflexivity |].
  exists y'. split; [exact Hd|]. split; [exact Hy | exact Hin].
Defined.

Lemma sector_texts_at_sector_centres_witness :
  let img := {| region_pixels := ImageCrop (7100, 7200, 7900, 7800);
                region_size := (800, 600) |} in
  let v := Grid.with_offset_x 7100 (Grid.with_offset_y 7200 Examples.grid_photo) in
  exists ds x' y',
    draw_grid 5 Examples.cv800 img v = Ok (Some ds) /\
    (x' == canvas_x v ((inject_Z 1 + 1 / 2) * inject_Z 5000))%Q /\
    (y' == canvas_y v ((inject_Z 1 + 1 / 2) * inject_Z 5000))%Q /\
    sector_text x' y' 1 1 ∈ ds.
Proof.
  intros img v.
  assert (Hd : { ds | draw_grid 5 Examples.cv800 img v = Ok (Some ds) }).
  { eexists. vm_compute. reflexivity. }
  destruct Hd as [ds Hd]. exists ds.
  unshelve epose proof (sector_texts_at_sector_centres 5 Examples.cv800 img v ds _ _ Hd)
    as H; [vm_compute; reflexivity | vm_compute; reflexivity |].
  destruct H as (_ & H & _).
  destruct (H eq_refl ltac:(vm_compute; discriminate) 1 1) as (x' & y' & Hx & Hy & Hin);
    [vm_compute; reflexivity .. |].
  exists x', y'. split; [exact Hd|]. split; [exact Hx|]. split; [exact Hy | exact Hin].
Defined.

(** ** The tracking overlay *)

Lemma draw_each_sound {A B} (l : list A) (body : A -> outcome (list B)) ds d :
  draw_each l body = Ok ds -> d ∈ ds ->
  exists x part, x ∈ l /\ body x = Ok part /\ d ∈ part.
Proof.
  revert ds. induction l as [|x rest IH]; intros ds; simpl.
  - intros [= <-] Hd. by apply elem_of_nil in Hd.
  - destruct (body x) as [here|e] eqn:Eb; [|done]. simpl.
    destruct (draw_each rest body) as [more|e]; [|done]. simpl.
    intros [= <-] Hd. apply elem_of_app in Hd as [Hd|Hd].
    + exists x, here. split; [by left|done].
    + destruct (IH more eq_refl Hd) as (y & part & Hy & Hb & Hin).
      exists y, part. split; [by right|done].
Qed.

Lemma draw_each_complete {A B} (l : list A) (body : A -> outcome (list B)) ds x :
  draw_each l body = Ok ds -> x ∈ l ->
  exists part, body x = Ok part /\ forall d, d ∈ part -> d ∈ ds.
Proof.
  revert ds. induction l as [|y rest IH]; intros ds; simpl.
  - intros _ Hx. by apply elem_of_nil in Hx.
  - destruct (body y) as [here|e] eqn:Eb; [|done]. simpl.
    destruct (draw_each rest body) as [more|e]; [|done]. simpl.
    intros [= <-] Hx. apply elem_of_cons in Hx as [->|Hx].
    + exists here. split; [done|]. intros d Hd. apply elem_of_app. by left.
    + destruct (IH more eq_refl Hx) as (part & Hb & Hin).
      exists part. split; [done|]. intros d Hd. apply elem_of_app. right. by apply Hin.
Qed.

Lemma draw_each_returns {A B} (l : list A) (body : A -> outcome (list B)) :
  (forall x, x ∈ l -> exists part, body x = Ok part) ->
  exists ds, draw_each l body = Ok ds.
Proof.
  induction l as [|x rest IH]; intros Hbody; simpl; [by eexists|].
  destruct (Hbody x) as [here ->]; [by left|]. simpl.
  destruct IH as [more ->]; [|by eexists].
  intros y Hy. apply Hbody. by right.
Qed.

Lemma elem_of_seq_0 (n i : nat) : i ∈ seq 0 n <-> (i < n)%nat.
Proof. rewrite list_elem_of_In, in_seq. lia. Qed.

(** The cells of one grid that the overlay fills. *)
Lemma grid_cells_sound (v : Map.viewer) grid (color : Z * Z * Z * Z) ds d :
  draw_each (seq 0 (Z.to_nat (fst (np.shape grid)))) (fun i =>
    draw_each (seq 0 (Z.to_nat (snd (np.shape grid)))) (fun j =>
      visited ← np_getitem grid i j;
      if visited : bool then Ok [(cell_rectangle v i j, color)] else Ok [])) = Ok ds ->
  d ∈ ds ->
  exists i j, np.get grid i j = Some true /\ d = (cell_rectangle v i j, color).
Proof.
  intros Hds Hd.
  destruct (draw_each_sound _ _ _ _ Hds Hd) as (i & row & _ & Hrow & Hd').
  destruct (draw_each_sound _ _ _ _ Hrow Hd') as (j & part & _ & Hpart & Hd'').
  exists i, j. unfold np_getitem in Hpart.
  destruct (np.get grid i j) as [[|]|]; simpl in Hpart; [| |done].
  - injection Hpart as <-. by apply list_elem_of_singleton in Hd''.
  - injection Hpart as <-. by apply elem_of_nil in Hd''.
Qed.

Lemma grid_cells_complete (v : Map.viewer) grid (color : Z * Z * Z * Z) ds (i j : nat) :
  draw_each (seq 0 (Z.to_nat (fst (np.shape grid)))) (fun i =>
    draw_each (seq 0 (Z.to_nat (snd (np.shape grid)))) (fun j =>
      visited ← np_getitem grid i j;
      if visited : bool then Ok [(cell_rectangle v i j, color)] else Ok [])) = Ok ds ->
  Z.of_nat i < fst (np.shape grid) -> Z.of_nat j < snd (np.shape grid) ->
  np.get grid i j = Some true ->
  (cell_rectangle v i j, color) ∈ ds.
Proof.
  intros Hds Hi Hj Hget.
  destruct (draw_each_complete _ _ _ i Hds) as (row & Hrow & Hin).
  { apply elem_of_seq_0. lia. }
  destruct (draw_each_complete _ _ _ j Hrow) as (part & Hpart & Hin').
  { apply elem_of_seq_0. lia. }
  apply Hin, Hin'. unfold np_getitem in Hpart. rewrite Hget in Hpart.
  injection Hpart as <-. by left.
Qed.

Lemma grid_cells_return (v : Map.viewer) grid (color : Z * Z * Z * Z) :
  np.wf grid ->
  exists ds,
    draw_each (seq 0 (Z.to_nat (fst (np.shape grid)))) (fun i =>
      draw_each (seq 0 (Z.to_nat (snd (np.shape grid)))) (fun j =>
        visited ← np_getitem grid i j;
        if visited : bool then Ok [(cell_rectangle v i j, color)] else Ok [])) = Ok ds.
Proof.
  intros Hwf. apply draw_each_returns. intros i Hi. apply elem_of_seq_0 in Hi.
  apply draw_each_returns. intros j Hj. apply elem_of_seq_0 in Hj.
  destruct (np_wf_get grid (Z.of_nat i) (Z.of_nat j) Hwf) as [b Hb]; [lia|lia|].
  rewrite !Nat2Z.id in Hb. unfold np_getitem. rewrite Hb. simpl.
  destruct b; by eexists.
Qed.

Lemma tracking_colors_levels percent :
  percent ∈ Map.tracking_levels -> exists color, tracking_colors !! percent = Some color.
Proof.
  unfold Map.tracking_levels. intros H.
  repeat (apply elem_of_cons in H as [->|H]; [by eexists|]).
  by apply elem_of_nil in H.
Qed.

Lemma tracking_overlay_returns (v : Map.viewer) :
  Map.tracking_allocated v -> exists rects, tracking_overlay v = Ok rects.
Proof.
  intros Halloc. unfold tracking_overlay. apply draw_each_returns.
  intros percent Hp. destruct (Halloc percent Hp) as (g & Hg & Hwf & _).
  destruct (tracking_colors_levels percent Hp) as [color Hc].
  cbv beta. unfold py_dict_getitem. rewrite Hg. simpl. rewrite Hc. simpl.
  by apply grid_cells_return.
Qed.

Lemma tracking_overlay_complete (v : Map.viewer) rects percent grid color (i j : nat) :
  tracking_overlay v = Ok rects ->
  percent ∈ Map.tracking_levels ->
  Map.tracking_grids v !! percent = Some (Some grid) ->
  tracking_colors !! percent = Some color ->
  Z.of_nat i < fst (np.shape grid) -> Z.of_nat j < snd (np.shape grid) ->
  np.get grid i j = Some true ->
  (cell_rectangle v i j, color) ∈ rects.
Proof.
  intros Hr Hp Hg Hc Hi Hj Hget. unfold tracking_overlay in Hr.
  destruct (draw_each_complete _ _ _ percent Hr Hp) as (part & Hpart & Hin).
  apply Hin. unfold py_dict_getitem in Hpart. rewrite Hg in Hpart. simpl in Hpart.
  rewrite Hc in Hpart. simpl in Hpart.
  by apply (grid_cells_complete _ _ _ _ _ _ Hpart).
Qed.

Lemma tracking_overlay_sound (v : Map.viewer) rects box color :
  tracking_overlay v = Ok rects -> (box, color) ∈ rects ->
  exists percent grid i j,
    percent ∈ Map.tracking_levels /\
    Map.tracking_grids v !! percent = Some (Some grid) /\
    tracking_colors !! percent = Some color /\
    np.get grid i j = Some true /\ box = cell_rectangle v i j.
Proof.
  intros Hr Hin. unfold tracking_overlay in Hr.
  destruct (draw_each_sound _ _ _ _ Hr Hin) as (percent & part & Hp & Hpart & Hd).
  unfold py_dict_getitem in Hpart.
  destruct (Map.tracking_grids v !! percent) as [[grid|]|] eqn:Hg; simpl in Hpart;
    [| |done].
  2:{ injection Hpart as <-. by apply elem_of_nil in Hd. }
  destruct (tracking_colors !! percent) as [color'|] eqn:Hc; simpl in Hpart; [|done].
  destruct (grid_cells_sound _ _ _ _ _ Hpart Hd) as (i & j & Hget & E).
  injection E as -> ->. by exists percent, grid, i, j.
Qed.

(** X22.  Every rectangle of the tracking overlay that [update_map] draws is
    the rectangle of a visited cell (i, j) of the grid of a tracking level,
    from (j * 100 * map_scale_x, i * 100 * map_scale_y) to ((j + 1) * 100 *
    map_scale_x, (i + 1) * 100 * map_scale_y), filled with the colour of that
    level; and every visited cell of every grid has its rectangle in the
    overlay. *)
Theorem overlay_fills_visited_cells (v : Map.viewer) rects :
  tracking_overlay v = Ok rects ->
  (forall box color, (box, color) ∈ rects ->
     exists percent grid i j,
       percent ∈ Map.tracking_levels /\
       Map.tracking_grids v !! percent = Some (Some grid) /\
       tracking_colors !! percent = Some color /\
       np.get grid i j = Some true /\ box = cell_rectangle v i j) /\
  (forall percent grid color i j,
     percent ∈ Map.tracking_levels ->
     Map.tracking_grids v !! percent = Some (Some grid) ->
     tracking_colors !! percent = Some color ->
     Z.of_nat i < fst (np.shape grid) -> Z.of_nat j < snd (np.shape grid) ->
     np.get grid i j = Some true ->
     (cell_rectangle v i j, color) ∈ rects).
Proof.
  intros Hr. split.
  - intros box color. by apply tracking_overlay_sound.
  - intros percent grid color i j. by apply tracking_overlay_complete.
Qed.

Lemma map_update_view_fits env cv (v : Map.viewer) :
  grids_fit v -> grids_fit (after (Map.update_view env cv) v).
Proof.
  intros Hfit.
  destruct (map_update_view_keeps grids_fit env cv) with (st := v) as [H _]; try done.
  intros s. apply map_mark_visited_fits.
Qed.

Lemma bucket_of_zoom_level z level :
  bucket_of_zoom z = Ok level -> level ∈ Map.tracking_levels.
Proof.
  unfold bucket_of_zoom.
  destruct (get_tracking_level_spec (py_int (z * 100))) as (i & level' & E & Hin & _).
  rewrite E. intros [= <-]. by apply list_elem_of_lookup_2 in Hin.
Qed.

Lemma cell_of_corner off :
  (0 <= off)%Q ->
  let j := py_int off `div` Map.grid_cell_size in
  0 <= j /\
  (inject_Z (j * Map.grid_cell_size) <= off)%Q /\
  (off < inject_Z ((j + 1) * Map.grid_cell_size))%Q.
Proof.
  intros Hoff. cbv zeta. rewrite (py_int_floor _ Hoff).
  set (j := Qfloor off `div` Map.grid_cell_size).
  pose proof (Qfloor_le off) as Hlo. pose proof (Qlt_floor off) as Hhi.
  assert (H0 : 0 <= Qfloor off).
  { change 0 with (Qfloor 0). by apply Qfloor_resp_le. }
  unfold Map.grid_cell_size in *.
  pose proof (Z.div_mod (Qfloor off) 100 ltac:(lia)) as Hdm.
  pose proof (Z.mod_pos_bound (Qfloor off) 100 ltac:(lia)) as Hm.
  fold j in Hdm. split; [apply Z.div_pos; lia|]. split.
  - apply Qle_trans with (inject_Z (Qfloor off)); [|done]. apply inject_Z_le. lia.
  - apply Qlt_le_trans with (inject_Z (Qfloor off + 1)); [done|]. apply inject_Z_le. lia.
Qed.


Lemma overlay_fills_visited_cells_witness :
  exists rects,
    tracking_overlay Examples.map_small = Ok rects /\
    forall box color, (box, color) ∈ rects ->
      exists percent grid i j,
        percent ∈ Map.tracking_levels /\
        Map.tracking_grids Examples.map_small !! percent = Some (Some grid) /\
        tracking_colors !! percent = Some color /\
        np.get grid i j = Some true /\ box = cell_rectangle Examples.map_small i j.
Proof.
  assert (Hr : { rects | tracking_overlay Examples.map_small = Ok rects }).
  { eexists. vm_compute. reflexivity. }
  destruct Hr as [rects Hr]. exists rects. split; [exact Hr|].
  exact (proj1 (overlay_fills_visited_cells Examples.map_small rects Hr)).
Defined.


(** ** The decoder of a load, and sessions *)

(** X24.  [load_image] closes the previous slide, if there is one, and nothing
    else.  It opens the file with OpenSlide when OpenSlide is available and
    the path in lower case ends with the extension of a slide; when OpenSlide
    is not tried or raises OpenSlideError it decodes the file with tifffile if
    the path as written ends with .tif or .tiff and with PIL otherwise.  Every
    other exception of OpenSlide, and every exception of the decoders, ends
    the attempt with the slide and the image cleared. *)
Theorem load_chooses_decoder env path iv :
  let r := open_source env path iv in
  events_of r = closing iv /\
  (tries_openslide env path = true ->
   (forall s, OpenSlide env path = Ok s ->
      outcome_of r = Ok tt /\ state_of r = opened_slide s iv) /\
   (forall e, OpenSlide env path = Raise e -> e <> OpenSlideError ->
      outcome_of r = Raise e /\ state_of r = released iv)) /\
  (tries_openslide env path = false \/ OpenSlide env path = Raise OpenSlideError ->
   (forall i, fallback_decoder env path = Ok i ->
      outcome_of r = Ok tt /\ state_of r = opened_image i iv) /\
   (forall e, fallback_decoder env path = Raise e ->
      outcome_of r = Raise e /\ state_of r = released iv)).
Proof.
  cbv zeta. rewrite open_source_run. unfold open_source_table. split; [|split].
  - destruct (tries_openslide env path); [destruct (OpenSlide env path) as [s|e]|];
      try (destruct (is_OpenSlideError e));
      try (destruct (fallback_decoder env path)); done.
  - intros ->. split.
    + by intros s ->.
    + intros e -> He. by destruct e.
  - intros [->| ->].
    + split; by intros ? ->.
    + destruct (tries_openslide env path); split; by intros ? ->.
Qed.

Lemma load_chooses_decoder_witness :
  outcome_of (open_source Examples.env "photo.png" no_image) = Ok tt /\
  state_of (open_source Examples.env "photo.png" no_image)
    = opened_image Examples.photo no_image.
Proof.
  refine (proj1 (proj2 (proj2 (load_chooses_decoder Examples.env "photo.png" no_image))
                  _) Examples.photo _); [left|]; vm_compute; reflexivity.
Defined.

Lemma session_reads_within_image_witness :
  Forall read_in_bounds
    (events_of (run (Grid.handle Examples.env)
                  [(Examples.cv800, Grid.LoadImage "photo.png");
                   (Examples.cv800, Grid.ZoomOut);
                   (Examples.cv800, Grid.GotoSector "3" "2")] Grid.init)) /\
  Forall read_in_bounds
    (events_of (run (Map.handle Examples.env)
                  [(Examples.cv800, Map.LoadImage "slide.svs");
                   (Examples.cv800, Map.QuickZoom 40);
                   (Examples.cv800, Map.ClickMap 100 120)] Map.init)).
Proof.
  apply (session_reads_within_image Examples.env _ _ examples_env_ok).
  repeat constructor.
Defined.

(** ** The map after a refresh *)

(** [update_map] makes the map current. *)
Lemma map_update_map_current env cv (s : Map.viewer) thumb :
  Map.loaded s -> snd (slide_dimensions (Map.img s)) <> 0 ->
  thumbnail_of env (Map.img s) = Ok thumb ->
  holds_at (map_current env) any_event any_exn (Map.update_map env cv) s.
Proof.
  intros Hl Hh Hthumb. unfold Map.update_map. mstep. mstep.
  { exfalso. apply Hl. by apply Z.eqb_eq. }
  match goal with
  | |- holds_at _ _ _ (lift ?o ≫= _) _ => change o with (thumbnail_of env (Map.img s))
  end.
  rewrite Hthumb. mstep.
  assert (HW : ~ (inject_Z (fst (slide_dimensions (Map.img s))) == 0)%Q).
  { by apply inject_Z_nonzero. }
  assert (HH : ~ (inject_Z (snd (slide_dimensions (Map.img s))) == 0)%Q).
  { by apply inject_Z_nonzero. }
  rewrite !(py_truediv_ok _ _ HW), !(py_truediv_ok _ _ HH). do 5 mstep.
  apply map_update_viewport_rect_holds. by exists thumb.
Qed.

Lemma map_ready_thumbnail env (v : Map.viewer) :
  map_ready v -> Map.loaded v -> exists thumb, thumbnail_of env (Map.img v) = Ok thumb.
Proof.
  intros Hready Hl.
  destruct (map_ready_loaded v Hready Hl) as (_ & _ & Hs & Ht & _).
  unfold thumbnail_source_ready, source_ready in Ht, Hs. unfold thumbnail_of.
  destruct (use_openslide (Map.img v)).
  - destruct Ht as (size & -> & _). destruct Hs as (Hslide & _).
    destruct (slide (Map.img v)); [|done]. by eexists.
  - destruct Ht as (i & -> & _). by eexists.
Qed.

(** [update_view] of a ready viewer comes to its [update_map]. *)
Lemma map_update_view_then_map (I : Map.viewer -> Prop) env cv (v : Map.viewer) :
  map_ready v -> Map.loaded v ->
  (forall s, Map.img s = Map.img v ->
     holds_at I any_event any_exn (Map.update_map env cv) s) ->
  holds_at I any_event any_exn (Map.update_view env cv) v.
Proof.
  intros Hready Hl Hmap. unfold Map.update_view. mstep. mstep.
  { exfalso. apply Hl. by apply Z.eqb_eq. }
  destruct (map_ready_loaded v Hready Hl) as (Hz & Hd & Hs & Ht & Hh & Halloc).
  pose proof (zoom_in_range_nonzero _ Hz) as Hz0.
  rewrite !(py_truediv_ok _ _ Hz0). do 4 mstep.
  fold (view_size (winfo_width cv) (Map.zoom v) (fst (slide_dimensions (Map.img v)))).
  fold (view_size (winfo_height cv) (Map.zoom v) (snd (slide_dimensions (Map.img v)))).
  set (vw := view_size (winfo_width cv) (Map.zoom v) (fst (slide_dimensions (Map.img v)))).
  set (vh := view_size (winfo_height cv) (Map.zoom v) (snd (slide_dimensions (Map.img v)))).
  fold (clamp_offset (Map.offset_x v) (fst (slide_dimensions (Map.img v))) vw).
  fold (clamp_offset (Map.offset_y v) (snd (slide_dimensions (Map.img v))) vh).
  set (cx := clamp_offset (Map.offset_x v) (fst (slide_dimensions (Map.img v))) vw).
  set (cy := clamp_offset (Map.offset_y v) (snd (slide_dimensions (Map.img v))) vh).
  set (v1 := Map.with_offset_y cy (Map.with_offset_x cx v)).
  pose proof (view_size_bounds (winfo_width cv) _ _ (proj1 Hd) (zoom_in_range_pos _ Hz))
    as Hbw.
  pose proof (view_size_bounds (winfo_height cv) _ _ (proj2 Hd) (zoom_in_range_pos _ Hz))
    as Hbh.
  destruct (clamp_offset_bounds (Map.offset_x v) _ _ Hbw) as [Hx0 Hx1].
  destruct (clamp_offset_bounds (Map.offset_y v) _ _ Hbh) as [Hy0 Hy1].
  fold vw cx in Hx0, Hx1. fold vh cy in Hy0, Hy1.
  pose proof (inject_Z_le 0 vw ltac:(unfold vw; lia)) as Hvw0.
  pose proof (inject_Z_le 0 vh ltac:(unfold vh; lia)) as Hvh0.
  change (inject_Z 0) with 0%Q in Hvw0, Hvh0.
  destruct (map_mark_visited_returns cv v1) as (G & Hrun & HreadyG).
  { exact Hready. }
  { simpl. split; [done | lra]. }
  { simpl. split; [done | lra]. }
  apply (at_bind_result _ _ _ _ _ _ tt (Map.with_tracking_grids G v1) []);
    [exact Hrun | done |].
  mstep. unfold call_read_region.
  edestruct (read_region_ready (Map.img v)) as [r Hr]; [exact Hs | exact Hz0 |].
  apply (at_bind_result _ _ _ _ _ _ r (Map.with_tracking_grids G v1)
           [read_region_call (slide_dimensions (Map.img v)) cx cy
              (inject_Z vw) (inject_Z vh) (Map.zoom v)]).
  { rewrite run_bind_get, run_bind_tell. simpl. rewrite Hr. done. }
  { repeat constructor. }
  mstep; [done|]. by apply Hmap.
Qed.



(** ** Showing and hiding the grid *)

(** [update_view] does not look at the switch of the grid. *)
Lemma grid_update_view_show_grid cv b (v : Grid.viewer) :
  Grid.update_view cv (Grid.with_show_grid b v) =
  Result (outcome_of (Grid.update_view cv v))
    (Grid.with_show_grid b (state_of (Grid.update_view cv v)))
    (events_of (Grid.update_view cv v)).
Proof.
  destruct (decide (Grid.loaded v)) as [Hl|Hl].
  2: { rewrite (grid_update_view_unloaded cv v Hl).
       by rewrite (grid_update_view_unloaded cv (Grid.with_show_grid b v)). }
  destruct (Qeq_dec (Grid.zoom v) 0) as [Hz|Hz].
  { rewrite (grid_update_view_zoom_zero cv v Hl Hz).
    by rewrite (grid_update_view_zoom_zero cv (Grid.with_show_grid b v)). }
  rewrite (grid_update_view_cases cv v Hl Hz).
  rewrite (grid_update_view_cases cv (Grid.with_show_grid b v)) by done.
  cbv zeta.
  cbn [Grid.img Grid.zoom Grid.offset_x Grid.offset_y Grid.grid_size
       Grid.with_show_grid].
  destruct (read_region _ _ _ _ _ _) as [r|e]; [|done].
  by destruct (Qeq_bool (inject_Z (Grid.grid_size v)) 0).
Qed.

(** X26.  With a positive zoom and grid size, [toggle_grid] has the outcome,
    the region read and the final state of [update_view], except that
    [show_grid] is inverted: showing or hiding the grid moves nothing.
    Toggling twice leaves the state that one refresh leaves. *)
Theorem toggle_grid_only_flips cv (v : Grid.viewer) :
  (0 < Grid.zoom v)%Q -> 0 < Grid.grid_size v ->
  let r := Grid.update_view cv v in
  Grid.toggle_grid cv v =
    Result (outcome_of r)
      (Grid.with_show_grid (negb (Grid.show_grid v)) (state_of r)) (events_of r) /\
  after (Grid.toggle_grid cv) (after (Grid.toggle_grid cv) v)
    = Grid.with_show_grid (Grid.show_grid v) (state_of r).
Proof.
  intros _ _. cbv zeta.
  assert (E : forall u, Grid.toggle_grid cv u =
    Result (outcome_of (Grid.update_view cv u))
      (Grid.with_show_grid (negb (Grid.show_grid u)) (state_of (Grid.update_view cv u)))
      (events_of (Grid.update_view cv u))).
  { intros u. unfold Grid.toggle_grid.
    by rewrite run_bind_get, run_bind_modify, grid_update_view_show_grid. }
  split; [by apply E|].
  unfold after. rewrite (E v). cbn [state_of]. rewrite E. cbn [state_of].
  rewrite grid_update_view_show_grid. cbn [state_of Grid.show_grid Grid.with_show_grid].
  fold (after (Grid.update_view cv) v). rewrite grid_update_view_twice.
  rewrite Bool.negb_involutive. unfold after. reflexivity.
Qed.

Lemma toggle_grid_only_flips_witness :
  after (Grid.toggle_grid Examples.cv800)
    (after (Grid.toggle_grid Examples.cv800) Examples.grid_photo)
  = Grid.with_show_grid (Grid.show_grid Examples.grid_photo)
      (state_of (Grid.update_view Examples.cv800 Examples.grid_photo)).
Proof.
  refine (proj2 (toggle_grid_only_flips Examples.cv800 Examples.grid_photo _ _));
    by vm_compute.
Defined.

(** ** The overlay after [clear_tracking] *)


